(** * TPOT TAR-PIT WATCH: session tracking and persistent history

    A shallow embedding of the session engine of [tarpit_watch.py]
    (conntrack reconciliation, expiry, ended-session history, lifetime
    port counters, the stats document and its load/save), and the
    properties of it that the specification states.

    Conventions of the embedding.
    - Python [int] is [Z]; Python [float] timestamps and durations are
      rationals [Q] with exact arithmetic (every finite float is a
      rational; rounding of float subtraction is not modelled). A
      [float] read from the command line may also be an infinity or
      NaN: it is a [pyfloat].
    - A JSON value as [json.loads] returns it is a [json]; a [dict] with
      string keys is a [gmap string json], so equality of documents is
      Python's [==] on dicts (key order is immaterial).
    - [self.sessions] is an insertion-ordered dict: an association list,
      new keys appended, updates in place.
    - A Python exception is a [Raise] in the [result] monad.
    - What the interpreter and the host provide (the builtin [int] on a
      [str], wall-clock readings, the conntrack rows of a poll, whether
      a disk write succeeds) is an argument of the function that uses
      it. *)

From Stdlib Require Import ZArith QArith Qround Qminmax String Ascii List Lia.
From Stdlib Require Import DecimalString DecimalZ DecimalPos Sorted.
From stdpp Require Import base option gmap strings list fin_maps.

#[local] Set Warnings "-register-all,-clear-no-such-hyp".
#[local] Open Scope Z_scope.
#[local] Open Scope string_scope.

(** ** Python values *)

Inductive json : Type :=
  | JNull
  | JBool (b : bool)
  | JInt (z : Z)
  | JFloat (q : Q)
  | JStr (s : string)
  | JArr (l : list json)
  | JObj (m : gmap string json).

Inductive exn : Type :=
  | AttributeError
  | TypeError
  | ValueError
  | OSError
  | RuntimeError.

Inductive result (A : Type) : Type :=
  | Ok (a : A)
  | Raise (e : exn).

Arguments Ok {A} a.
Arguments Raise {A} e.

#[export] Instance result_ret : MRet result := fun A a => Ok a.
#[export] Instance result_bind : MBind result :=
  fun A B f r => match r with Ok a => f a | Raise e => Raise e end.

(** The builtin [int] applied to a [str]: [Some z] when it returns [z],
    [None] when it raises [ValueError]. *)
Class Interp : Type := { int_of_str : string -> option Z }.

(** An interpreter that reads plain decimal literals, for evaluation. *)
Definition decimal_interp : Interp :=
  {| int_of_str s := Z.of_int <$> NilZero.int_of_string s |}.

(** [str(n)] for an [int]. *)
Definition py_str (n : Z) : string := NilZero.string_of_int (Z.to_int n).

(** [int(x)] for a [float]: truncation toward zero. *)
Definition int_of_float (q : Q) : Z :=
  if Qle_bool 0 q then Qfloor q else Qceiling q.

(** [max(0.0, x)] *)
Definition max0 (q : Q) : Q := if Qle_bool q 0 then 0%Q else q.

(** A [float] as [argparse] hands it over with [type=float]: a number,
    an infinity or NaN ([--grace nan] and [--grace inf] are accepted). *)
Inductive pyfloat : Type :=
  | Num (q : Q)
  | PosInf
  | NegInf
  | NaN.

(** [x >= g] for a number [x]: with NaN every comparison is [False]. *)
Definition ge_float (x : Q) (g : pyfloat) : bool :=
  match g with
  | Num q => Qle_bool q x
  | PosInf => false
  | NegInf => true
  | NaN => false
  end.

(** [s.split(sep)] for a one-character separator. *)
Fixpoint split_on (sep : ascii) (s : string) : list string :=
  match s with
  | EmptyString => [EmptyString]
  | String c s' =>
      if Ascii.eqb c sep then EmptyString :: split_on sep s'
      else match split_on sep s' with
           | w :: ws => String c w :: ws
           | [] => [String c EmptyString]
           end
  end.

Section Interpreter.
Context {interp : Interp}.

(** [int(v)] for a JSON value. *)
Definition py_int (v : json) : result Z :=
  match v with
  | JInt z => Ok z
  | JBool b => Ok (if b then 1 else 0)
  | JFloat q => Ok (int_of_float q)
  | JStr s => match int_of_str s with Some z => Ok z | None => Raise ValueError end
  | JNull | JArr _ | JObj _ => Raise TypeError
  end.

(** ** Utility *)

(** The second component, [ip.split(".")[1]], read by [int]; [None] is
    the [except Exception] branch. *)
Definition second_octet (ip : string) : option Z :=
  c ← split_on "." ip !! 1%nat; int_of_str c.

Definition _is_private_ipv4 (ip : string) : bool :=
  if String.prefix "10." ip then true
  else if String.prefix "192.168." ip then true
  else if String.prefix "127." ip then true
  else if String.prefix "169.254." ip then true
  else if String.prefix "172." ip then
    match second_octet ip with
    | Some x => (16 <=? x)%Z && (x <=? 31)%Z
    | None => false
    end
  else false.

(** ** Defaults *)

Definition VERSION : string := "0.6.7".

Definition DEFAULT_EXCLUDE_ADMIN_PORTS : gset Z := {[ 64295; 64294; 64297 ]}.

Definition DEFAULT_GRACE_S : pyfloat := Num 8.

Definition DEFAULT_HISTORY_N : Z := 50.

(** [THEMES[0]] *)
Definition THEMES_0 : string := "amber".

(** ** Stats IO *)

(** What [load_stats] finds at [_stats_path()] once [p.exists()] has
    answered: no file; a file that [read_text] or [json.loads] rejects
    with an exception [e] (carried as [repr(e)]); or a file that
    [json.loads] turns into a value. [json.loads (json.dumps v)] is [v]
    for a JSON value, so a written document is held as the value read
    back. *)
Inductive stats_file : Type :=
  | NoFile
  | Unreadable (err : string)
  | Parsed (v : json).


(** The two literal documents of [load_stats]; [t_created] and
    [t_updated] are the two readings [_now_local().isoformat()]. *)
Definition new_stats (t_created t_updated : string) (notes : list json)
  : gmap string json :=
  <["version" := JStr VERSION]>
  (<["created" := JStr t_created]>
  (<["updated" := JStr t_updated]>
  (<["notes" := JArr notes]>
  (<["theme" := JStr THEMES_0]>
  (<["lifetime_port_hits" := JObj ∅]>
  (<["ended_history" := JArr []]> ∅)))))).

(** [d.setdefault(k, v)] *)
Definition setdefault (k : string) (v : json) (d : gmap string json)
  : gmap string json :=
  match d !! k with
  | Some _ => d
  | None => <[k := v]> d
  end.

Definition load_failure_note (err : string) : json :=
  JStr ("Failed to load stats; started new. error=" ++ err).

(** [load_stats] from [if not p.exists()] on, [f] being what is at the
    path. *)
Definition load_stats (f : stats_file) (t_created t_updated : string)
  : gmap string json :=
  match f with
  | NoFile => new_stats t_created t_updated []
  | Parsed (JObj d) =>
      let d := setdefault "notes" (JArr []) d in
      let d := setdefault "lifetime_port_hits" (JObj ∅) d in
      let d := setdefault "ended_history" (JArr []) d in
      let d := setdefault "theme" (JStr THEMES_0) d in
      <["version" := JStr VERSION]> d
  | Parsed _ =>
      new_stats t_created t_updated
        [load_failure_note "ValueError('stats not dict')"]
  | Unreadable err =>
      new_stats t_created t_updated [load_failure_note err]
  end.


(** Write to the temporary sibling, then rename over the destination:
    the destination holds the whole new text or is left as it was. *)
Definition _atomic_write (disk_ok : bool) (data : json) : result stats_file :=
  if disk_ok then Ok (Parsed data) else Raise OSError.

(** [save_stats] stamps the dict it is given (the caller's object), then
    writes it; the first component is that dict after the call. *)
Definition save_stats (disk_ok : bool) (t_now : string)
    (stats : gmap string json) : gmap string json * result stats_file :=
  let stats := <["version" := JStr VERSION]> stats in
  let stats := <["updated" := JStr t_now]> stats in
  (stats, _atomic_write disk_ok (JObj stats)).

(** ** Session model *)

Record Session : Type := mkSession {
  key : string;
  src_ip : string;
  src_port : Z;
  dst_ip : string;
  dst_port : Z;
  state : string;
  timeout_s : Z;
  first_seen : Q;
  last_seen : Q;
}.

(** One parsed conntrack entry, the dict [read_conntrack_tcp] builds. *)
Record Row : Type := mkRow {
  row_timeout : Z;
  row_state : string;
  row_src : string;
  row_dst : string;
  row_sport : Z;
  row_dport : Z;
  row_rsrc : string;
  row_rdst : string;
  row_rsport : Z;
  row_rdport : Z;
}.

(** [self.sessions]: keys in insertion order. *)
Fixpoint sess_get (k : string) (d : list (string * Session)) : option Session :=
  match d with
  | [] => None
  | (k', s) :: d' => if String.eqb k k' then Some s else sess_get k d'
  end.

(** [d[k] = s] for a key already present: the entry keeps its place. *)
Fixpoint sess_replace (k : string) (s : Session) (d : list (string * Session))
  : list (string * Session) :=
  match d with
  | [] => []
  | (k', s') :: d' =>
      if String.eqb k k' then (k', s) :: d' else (k', s') :: sess_replace k s d'
  end.

(** [del d[k]] *)
Fixpoint sess_del (k : string) (d : list (string * Session))
  : list (string * Session) :=
  match d with
  | [] => []
  | (k', s') :: d' =>
      if String.eqb k k' then d' else (k', s') :: sess_del k d'
  end.

(** ** Main App *)

Record Args : Type := mkArgs {
  grace : pyfloat;
  history_n : Z;
}.

(** The fields of [App] that the session engine reads or writes; the
    theme index, the loopback and wrap toggles, the host addresses, the
    autosave clock and the metrics sampler are left out, and of the
    arguments only [grace] and [history_n] are kept. *)
Record App : Type := mkApp {
  args : Args;
  stats : gmap string json;
  hide_private : bool;
  hide_admin : bool;
  mode : string;
  last_action : string;
  sessions : list (string * Session);
  port_hits_run : gmap Z Z;
  docker_port_map : gmap Z string;
}.

Definition with_stats (st : gmap string json) (a : App) : App :=
  mkApp (args a) st (hide_private a) (hide_admin a) (mode a) (last_action a)
        (sessions a) (port_hits_run a) (docker_port_map a).

Definition with_sessions (ss : list (string * Session)) (a : App) : App :=
  mkApp (args a) (stats a) (hide_private a) (hide_admin a) (mode a)
        (last_action a) ss (port_hits_run a) (docker_port_map a).

Definition with_port_hits_run (m : gmap Z Z) (a : App) : App :=
  mkApp (args a) (stats a) (hide_private a) (hide_admin a) (mode a)
        (last_action a) (sessions a) m (docker_port_map a).

Definition set_action (s : string) (a : App) : App :=
  mkApp (args a) (stats a) (hide_private a) (hide_admin a) (mode a) s
        (sessions a) (port_hits_run a) (docker_port_map a).

(** [App.__init__] after [load_stats] returned [st]. *)
Definition App_init (a : Args) (stats_path : string) (st : gmap string json)
  : App :=
  mkApp a st true true "ALL" ("Loaded stats (" ++ stats_path ++ ")") [] ∅ ∅.

Definition toggle_private (a : App) : App :=
  let a := mkApp (args a) (stats a) (negb (hide_private a)) (hide_admin a)
                 (mode a) (last_action a) (sessions a) (port_hits_run a)
                 (docker_port_map a) in
  set_action ("Private sources -> " ++ (if hide_private a then "HIDE" else "SHOW")) a.

Definition toggle_admin (a : App) : App :=
  let a := mkApp (args a) (stats a) (hide_private a) (negb (hide_admin a))
                 (mode a) (last_action a) (sessions a) (port_hits_run a)
                 (docker_port_map a) in
  set_action ("Admin ports -> " ++ (if hide_admin a then "HIDE" else "SHOW")) a.

Definition toggle_mode (a : App) : App :=
  let m := if String.eqb (mode a) "ALL" then "EST" else "ALL" in
  let a := mkApp (args a) (stats a) (hide_private a) (hide_admin a) m
                 (last_action a) (sessions a) (port_hits_run a)
                 (docker_port_map a) in
  set_action ("Mode -> " ++ m) a.

(** [reset_lifetime_hits]: the app after the call, and the outcome of
    the write. *)
Definition reset_lifetime_hits (disk_ok : bool) (t_now : string) (a : App)
  : App * result stats_file :=
  let a := with_stats (<["lifetime_port_hits" := JObj ∅]> (stats a)) a in
  let a := set_action "Reset lifetime port hits (history kept)" a in
  let '(st, out) := save_stats disk_ok t_now (stats a) in
  (with_stats st a, out).

Definition container_for_port (a : App) (port : Z) : string :=
  match docker_port_map a !! port with
  | Some name => if String.eqb name "" then "unmapped" else name
  | None => "unmapped"
  end.

(** [x.get(k, d)]: only a dict has the method. *)
Definition dict_get (x : json) (k : string) (d : json) : result json :=
  match x with
  | JObj m => Ok (default d (m !! k))
  | _ => Raise AttributeError
  end.

(** [x[k] = v] with a [str] key. *)
Definition dict_set (x : json) (k : string) (v : json) : result json :=
  match x with
  | JObj m => Ok (JObj (<[k := v]> m))
  | _ => Raise TypeError
  end.

(** [list(x)]: a list is copied, a dict gives its keys, a str its
    characters; the other JSON values are not iterable. *)
Definition py_list (x : json) : result (list json) :=
  match x with
  | JArr l => Ok l
  | JObj m => Ok ((fun kv => JStr (fst kv)) <$> map_to_list m)
  | JStr s => Ok ((fun c => JStr (String c EmptyString)) <$> list_ascii_of_string s)
  | JNull | JBool _ | JInt _ | JFloat _ => Raise TypeError
  end.

(** [f"{src_ip}:{r['sport']}->{r['dst']}:{dport}"] *)
Definition flow_key (r : Row) : string :=
  row_src r ++ ":" ++ py_str (row_sport r) ++ "->" ++ row_dst r ++ ":"
    ++ py_str (row_dport r).

(** The session [update_sessions] creates for a row first seen at [now]. *)
Definition new_session (r : Row) (now : Q) : Session :=
  mkSession (flow_key r) (row_src r) (row_sport r) (row_dst r) (row_dport r)
            (row_state r) (row_timeout r) now now.

(** [s.state = ...; s.timeout_s = ...; s.last_seen = now] *)
Definition touch_session (r : Row) (now : Q) (s : Session) : Session :=
  mkSession (key s) (src_ip s) (src_port s) (dst_ip s) (dst_port s)
            (row_state r) (row_timeout r) (first_seen s) now.

(** The state of the first loop of [update_sessions]: the app it
    mutates and its two locals. *)
Record Pass : Type := mkPass {
  pass_app : App;
  state_counts : gmap string Z;
  seen_keys : gset string;
}.

(** The lifetime counter update of a first sighting on [dport]. *)
Definition bump_lifetime (dport : Z) (st : gmap string json)
  : result (gmap string json) :=
  let lph := default (JObj ∅) (st !! "lifetime_port_hits") in
  old ← dict_get lph (py_str dport) (JInt 0);
  n ← py_int old;
  lph ← dict_set lph (py_str dport) (JInt (n + 1));
  Ok (<["lifetime_port_hits" := lph]> st).

(** The body of [for r in rows]. *)
Definition visit_row (watched : gset Z) (now : Q) (p : Pass) (r : Row)
  : result Pass :=
  let a := pass_app p in
  let dport := row_dport r in
  if negb (bool_decide (dport ∈ watched)) then Ok p else
  let src := row_src r in
  if hide_private a && _is_private_ipv4 src then Ok p else
  if hide_admin a && bool_decide (dport ∈ DEFAULT_EXCLUDE_ADMIN_PORTS) then Ok p else
  let st := row_state r in
  if String.eqb (mode a) "EST" && negb (String.eqb st "ESTABLISHED") then Ok p else
  let k := flow_key r in
  let seen := {[ k ]} ∪ seen_keys p in
  let counts := <[st := default 0 (state_counts p !! st) + 1]> (state_counts p) in
  match sess_get k (sessions a) with
  | None =>
      let a := with_sessions (sessions a ++ [(k, new_session r now)])%list a in
      let a := with_port_hits_run
                 (<[dport := default 0 (port_hits_run a !! dport) + 1]>
                    (port_hits_run a)) a in
      st' ← bump_lifetime dport (stats a);
      Ok (mkPass (with_stats st' a) counts seen)
  | Some s =>
      let a := with_sessions (sess_replace k (touch_session r now s) (sessions a)) a in
      Ok (mkPass a counts seen)
  end.

Fixpoint visit_rows (watched : gset Z) (now : Q) (p : Pass) (rows : list Row)
  : result Pass :=
  match rows with
  | [] => Ok p
  | r :: rows' => p' ← visit_row watched now p r; visit_rows watched now p' rows'
  end.

(** The expiry loop, over the snapshot [list(self.sessions.items())]. *)
Fixpoint expire_loop (seen : gset string) (now : Q) (gr : pyfloat)
    (items : list (string * Session))
    (ended : list Session) (ss : list (string * Session))
  : list Session * list (string * Session) :=
  match items with
  | [] => (ended, ss)
  | (k, sess) :: items' =>
      if bool_decide (k ∈ seen) then expire_loop seen now gr items' ended ss
      else if ge_float (now - last_seen sess) gr then
        expire_loop seen now gr items' (ended ++ [sess])%list (sess_del k ss)
      else expire_loop seen now gr items' ended ss
  end.

(** [int(max(0.0, duration))] *)
Definition duration_s (sess : Session) : Z :=
  int_of_float (max0 (last_seen sess - first_seen sess)).

(** The dict appended to the history for an ended session. *)
Definition ended_record (ended_ts container : string) (sess : Session) : json :=
  JObj (<["ended_ts" := JStr ended_ts]>
       (<["src" := JStr (src_ip sess)]>
       (<["sport" := JInt (src_port sess)]>
       (<["dst" := JStr (dst_ip sess)]>
       (<["dport" := JInt (dst_port sess)]>
       (<["state" := JStr (state sess)]>
       (<["duration_s" := JInt (duration_s sess)]>
       (<["container" := JStr container]> ∅)))))))).

(** The records of [for sess in ended], the [i]-th stamped with the
    [i]-th wall-clock reading of the pass. *)
Definition ended_records (wall : nat -> string) (a : App) (ended : list Session)
  : list json :=
  imap (fun i sess =>
          ended_record (wall i) (container_for_port a (dst_port sess)) sess)
       ended.

(** The sort key [x.get("duration_s", 0)]. *)
Definition duration_key (x : json) : result json :=
  dict_get x "duration_s" (JInt 0).

(** The numbers among JSON values, as Python compares them. *)
Definition numeric (k : json) : option Q :=
  match k with
  | JInt z => Some (inject_Z z)
  | JBool b => Some (if b then 1%Q else 0%Q)
  | JFloat q => Some q
  | _ => None
  end.

(** Stable insertion for a descending order: [x] goes before the first
    element whose key is not greater than its own. *)
Fixpoint insert_desc {A : Type} (kx : Q) (x : A) (l : list (Q * A)) : list (Q * A) :=
  match l with
  | [] => [(kx, x)]
  | (ky, y) :: l' =>
      if Qle_bool ky kx then (kx, x) :: (ky, y) :: l'
      else (ky, y) :: insert_desc kx x l'
  end.

Fixpoint sort_desc {A : Type} (l : list (Q * A)) : list (Q * A) :=
  match l with
  | [] => []
  | (kx, x) :: l' => insert_desc kx x (sort_desc l')
  end.

Definition numeric_key (k : json) : result Q :=
  match numeric k with
  | Some q => Ok q
  | None => Raise TypeError
  end.

(** [hist.sort(key=lambda x: x.get("duration_s", 0), reverse=True)]:
    the keys are taken from every element first; a list of fewer than
    two elements is not compared; numbers are ordered by value, the sort
    is stable. Keys that are not numbers raise [TypeError] when they
    are compared (Python also orders strings among themselves and lists
    among themselves; such histories are outside this embedding). *)
Definition sort_history (hist : list json) : result (list json) :=
  keys ← mapM duration_key hist;
  match hist with
  | [] | [_] => Ok hist
  | _ =>
      nums ← mapM numeric_key keys;
      Ok (snd <$> sort_desc (zip nums hist))
  end.

(** [l[:n]] *)
Definition slice_to {A : Type} (n : Z) (l : list A) : list A :=
  if (0 <=? n)%Z then take (Z.to_nat n) l
  else take (length l - Z.to_nat (- n)) l.

(** [update_sessions]: [rows] is what [read_conntrack_tcp()] returns in
    this call and [wall] the readings of [_now_local().isoformat()]. *)
Definition update_sessions (rows : list Row) (wall : nat -> string)
    (a : App) (watched_ports : list Z) (now : Q)
  : result (App * gmap string Z * list Session) :=
  let watched : gset Z := list_to_set watched_ports in
  p ← visit_rows watched now (mkPass a ∅ ∅) rows;
  let a := pass_app p in
  let '(ended, ss) :=
    expire_loop (seen_keys p) now (grace (args a)) (sessions a) [] (sessions a) in
  let a := with_sessions ss a in
  hist ← py_list (default (JArr []) (stats a !! "ended_history"));
  let hist := (hist ++ ended_records wall a ended)%list in
  hist ← sort_history hist;
  let hist := slice_to (history_n (args a)) hist in
  let a := with_stats (<["ended_history" := JArr hist]> (stats a)) a in
  Ok (a, state_counts p, snd <$> sessions a).

(** ** The main loop

    One iteration of [App.run] refreshes the docker port map, calls
    [update_sessions] and handles at most one key; the loop is a
    sequence of these events. An exception leaves the loop. *)

Inductive event : Type :=
  | Poll (rows : list Row) (wall : nat -> string) (watched_ports : list Z) (now : Q)
  | KeyPrivate
  | KeyAdmin
  | KeyMode
  | KeyReset (disk_ok : bool) (t_now : string)
  | DockerRefresh (port_map : gmap Z string).

Definition step (w : App * stats_file) (e : event) : result (App * stats_file) :=
  let '(a, f) := w in
  match e with
  | Poll rows wall watched_ports now =>
      r ← update_sessions rows wall a watched_ports now;
      Ok (r.1.1, f)
  | KeyPrivate => Ok (toggle_private a, f)
  | KeyAdmin => Ok (toggle_admin a, f)
  | KeyMode => Ok (toggle_mode a, f)
  | KeyReset disk_ok t_now =>
      let '(a, out) := reset_lifetime_hits disk_ok t_now a in
      f ← out; Ok (a, f)
  | DockerRefresh pm =>
      Ok (mkApp (args a) (stats a) (hide_private a) (hide_admin a) (mode a)
                (last_action a) (sessions a) (port_hits_run a) pm, f)
  end.

Fixpoint run (w : App * stats_file) (evs : list event) : result (App * stats_file) :=
  match evs with
  | [] => Ok w
  | e :: evs' => w' ← step w e; run w' evs'
  end.

(** The [now] of the polls of a run, in order. *)
Fixpoint poll_times (evs : list event) : list Q :=
  match evs with
  | [] => []
  | Poll _ _ _ now :: evs' => now :: poll_times evs'
  | _ :: evs' => poll_times evs'
  end.

(** Non-decreasing readings of the clock. *)
Fixpoint ascending (ts : list Q) : Prop :=
  match ts with
  | [] => True
  | t :: ts' => (forall t', In t' ts' -> (t <= t')%Q) /\ ascending ts'
  end.

(** ** Notions the properties are stated with *)

(** A row passes the four filters of the loop. *)
Definition survives (a : App) (watched : gset Z) (r : Row) : bool :=
  bool_decide (row_dport r ∈ watched)
  && negb (hide_private a && _is_private_ipv4 (row_src r))
  && negb (hide_admin a && bool_decide (row_dport r ∈ DEFAULT_EXCLUDE_ADMIN_PORTS))
  && negb (String.eqb (mode a) "EST" && negb (String.eqb (row_state r) "ESTABLISHED")).

Definition survivors (a : App) (watched_ports : list Z) (rows : list Row)
  : list Row :=
  List.filter (survives a (list_to_set watched_ports)) rows.

(** The flow keys observed in a poll. *)
Definition observed_keys (a : App) (watched_ports : list Z) (rows : list Row)
  : gset string :=
  list_to_set (flow_key <$> survivors a watched_ports rows).

(** The keys of the session store. *)
Definition tracked_keys (ss : list (string * Session)) : gset string :=
  list_to_set (ss.*1).

(** The rows that are the first sighting of their key: the key is not
    in [known] and no earlier row of the list carries it. *)
Fixpoint first_sightings (known : gset string) (rows : list Row) : list Row :=
  match rows with
  | [] => []
  | r :: rows' =>
      if bool_decide (flow_key r ∈ known) then first_sightings known rows'
      else r :: first_sightings ({[ flow_key r ]} ∪ known) rows'
  end.

(** How many of [rows] go to [port]. *)
Definition hits_on (port : Z) (rows : list Row) : Z :=
  Z.of_nat (length (List.filter (fun r => Z.eqb (row_dport r) port) rows)).

(** How many first sightings of a poll go to [port]. *)
Definition new_on_port (a : App) (watched_ports : list Z) (rows : list Row)
    (port : Z) : Z :=
  hits_on port (first_sightings (tracked_keys (sessions a))
                                (survivors a watched_ports rows)).

(** The value of a counter that may be missing. *)
Definition run_hits (m : gmap Z Z) (port : Z) : Z := default 0 (m !! port).

(** [x >= g] and [x < g] for a number [x] and a [float] [g], as
    propositions: neither holds of NaN. *)
Definition float_ge (x : Q) (g : pyfloat) : Prop :=
  match g with
  | Num q => (q <= x)%Q
  | NegInf => True
  | PosInf | NaN => False
  end.

Definition float_lt (x : Q) (g : pyfloat) : Prop :=
  match g with
  | Num q => (x < q)%Q
  | PosInf => True
  | NegInf | NaN => False
  end.

(** The container shown for a port: the name the docker port map has
    for it, and ["unmapped"] when it has none or an empty one. *)
Definition container_label (a : App) (port : Z) (c : string) : Prop :=
  (docker_port_map a !! port = Some c /\ c <> "")
  \/ (c = "unmapped"
      /\ (docker_port_map a !! port = None
          \/ docker_port_map a !! port = Some "")).

(** [x] is the history record of the ended session [s]: a dict of
    exactly eight keys that carries the endpoints and the last state
    of [s], the whole seconds from its first to its last sighting
    (none when negative), the container of its port and a reading of
    the wall clock. *)
Definition record_of (wall : nat -> string) (a : App) (s : Session) (x : json)
  : Prop :=
  exists (m : gmap string json) (i : nat) (c : string),
    x = JObj m
    /\ dom m = ({[ "ended_ts"; "src"; "sport"; "dst"; "dport"; "state";
                   "duration_s"; "container" ]} : gset string)
    /\ m !! "ended_ts" = Some (JStr (wall i))
    /\ m !! "src" = Some (JStr (src_ip s))
    /\ m !! "sport" = Some (JInt (src_port s))
    /\ m !! "dst" = Some (JStr (dst_ip s))
    /\ m !! "dport" = Some (JInt (dst_port s))
    /\ m !! "state" = Some (JStr (state s))
    /\ m !! "duration_s" =
         Some (JInt (Z.max 0 (Qfloor (last_seen s - first_seen s))))
    /\ m !! "container" = Some (JStr c)
    /\ container_label a (dst_port s) c.

(** The store's entries that the expiry loop finalizes. *)
Definition expired (seen : gset string) (now : Q) (gr : pyfloat)
    (kv : string * Session) : bool :=
  negb (bool_decide (kv.1 ∈ seen)) && ge_float (now - last_seen kv.2) gr.

(** The duration a history entry is ranked by. *)
Definition duration_of (x : json) : option Q :=
  match x with
  | JObj m => numeric (default (JInt 0) (m !! "duration_s"))
  | _ => None
  end.

(** Ranked by duration, longest first. *)
Definition sorted_by_duration (h : list json) : Prop :=
  forall (i j : nat) (x y : json),
    (i < j)%nat -> h !! i = Some x -> h !! j = Some y ->
    exists qx qy, duration_of x = Some qx /\ duration_of y = Some qy /\ (qy <= qx)%Q.

(** The lifetime counters of a document, when it holds a dict there. *)
Definition lifetime_hits (st : gmap string json) (port : Z) : option json :=
  match default (JObj ∅) (st !! "lifetime_port_hits") with
  | JObj m => m !! py_str port
  | _ => None
  end.

(** The ended history of a document, when it holds a list there. *)
Definition ended_history (st : gmap string json) : list json :=
  match st !! "ended_history" with
  | Some (JArr h) => h
  | _ => []
  end.

(** The shape [load_stats] gives every document it returns. *)
Definition stats_document (d : gmap string json) : Prop :=
  d !! "version" = Some (JStr VERSION)
  /\ is_Some (d !! "notes")
  /\ is_Some (d !! "lifetime_port_hits")
  /\ is_Some (d !! "ended_history")
  /\ is_Some (d !! "theme").

(** [ip.startswith(p)] as a decomposition of [ip]. *)
Definition starts_with (p ip : string) : Prop := exists rest, ip = p ++ rest.

(** The session store after the loop has visited one surviving row,
    and after it has visited a list of them. *)
Definition track_row (now : Q) (ss : list (string * Session)) (r : Row)
  : list (string * Session) :=
  match sess_get (flow_key r) ss with
  | None => (ss ++ [(flow_key r, new_session r now)])%list
  | Some s => sess_replace (flow_key r) (touch_session r now s) ss
  end.

Definition track (now : Q) (ss : list (string * Session)) (rows : list Row)
  : list (string * Session) :=
  fold_left (track_row now) rows ss.

(** The run counter after one more hit on [dport]. *)
Definition bump_run (m : gmap Z Z) (dport : Z) : gmap Z Z :=
  <[dport := default 0 (m !! dport) + 1]> m.

(** The lifetime counter updates for a list of ports, in order. *)
Fixpoint bump_lifetime_all (ports : list Z) (st : gmap string json)
  : result (gmap string json) :=
  match ports with
  | [] => Ok st
  | p :: ports' => st' ← bump_lifetime p st; bump_lifetime_all ports' st'
  end.

(** The per-state counts after one more surviving row. *)
Definition count_state (m : gmap string Z) (r : Row) : gmap string Z :=
  <[row_state r := default 0 (m !! row_state r) + 1]> m.

(** Two apps with the same arguments, toggles and docker port map. *)
Definition same_settings (a a' : App) : Prop :=
  args a' = args a
  /\ hide_private a' = hide_private a
  /\ hide_admin a' = hide_admin a
  /\ mode a' = mode a
  /\ last_action a' = last_action a
  /\ docker_port_map a' = docker_port_map a.

(** [s'] is the session [s] with what the loop never rewrites. *)
Definition same_flow (s s' : Session) : Prop :=
  key s' = key s
  /\ src_ip s' = src_ip s
  /\ src_port s' = src_port s
  /\ dst_ip s' = dst_ip s
  /\ dst_port s' = dst_port s
  /\ first_seen s' = first_seen s.

(** [s'] is the session of a first sighting of [r] at [now]. *)
Definition created_from (now : Q) (r : Row) (s' : Session) : Prop :=
  key s' = flow_key r
  /\ src_ip s' = row_src r
  /\ src_port s' = row_sport r
  /\ dst_ip s' = row_dst r
  /\ dst_port s' = row_dport r
  /\ first_seen s' = now.

(** What a poll at [now] with surviving rows [sv] makes of the entry of
    a key [k] that it observed: [old] is the entry before the poll. *)
Definition refreshed (now : Q) (sv : list Row) (k : string)
    (old : option Session) (s' : Session) : Prop :=
  last_seen s' = now
  /\ (exists r, r ∈ sv /\ flow_key r = k
        /\ state s' = row_state r /\ timeout_s s' = row_timeout r)
  /\ match old with
     | Some s => same_flow s s'
     | None => exists r0, r0 ∈ sv /\ flow_key r0 = k /\ created_from now r0 s'
     end.

(** The order of the keyed list during the sort: [p] may stand before
    [q]. *)
Definition ranked_before {A : Type} (p q : Q * A) : Prop := (q.1 <= p.1)%Q.

(** The store is a dict (no key twice), and every session in it was
    first seen no later than last seen, and last seen no later than
    [now] and than any of the poll times [future]. *)
Definition store_ok (now : Q) (future : list Q) (ss : list (string * Session))
  : Prop :=
  NoDup (ss.*1)
  /\ Forall (fun kv : string * Session =>
               (first_seen kv.2 <= last_seen kv.2)%Q
               /\ (last_seen kv.2 <= now)%Q
               /\ forall t, In t future -> (last_seen kv.2 <= t)%Q) ss.

(** The filter conditions of the loop, as the specification lists
    them. *)
Definition filtered_out (a : App) (watched : gset Z) (r : Row) : Prop :=
  row_dport r ∉ watched
  \/ (hide_private a = true /\ _is_private_ipv4 (row_src r) = true)
  \/ (hide_admin a = true /\ row_dport r ∈ DEFAULT_EXCLUDE_ADMIN_PORTS)
  \/ (mode a = "EST" /\ row_state r <> "ESTABLISHED").

(** The lifetime counters are a dict of integers (or missing). *)
Definition counters_ok (st : gmap string json) : Prop :=
  exists m : gmap string json,
    default (JObj ∅) (st !! "lifetime_port_hits") = JObj m
    /\ forall k v, m !! k = Some v -> exists z : Z, v = JInt z.

(** The history is a list of dicts with a numeric duration (or
    missing). *)
Definition history_ok (st : gmap string json) : Prop :=
  exists h : list json,
    default (JArr []) (st !! "ended_history") = JArr h
    /\ Forall (fun x => is_Some (duration_of x)) h.

(** The shape of the counters and the history that the program itself
    writes. *)
Definition well_shaped (st : gmap string json) : Prop :=
  counters_ok st /\ history_ok st.

(** Along the events [evs] from [w], every poll misses the key [k] and
    comes less than the grace period after the [last_seen] of [s]. *)
Fixpoint awaits (k : string) (s : Session) (w : App * stats_file)
    (evs : list event) : Prop :=
  match evs with
  | [] => True
  | e :: evs' =>
      match e with
      | Poll rows wall watched_ports now =>
          (k ∉ observed_keys w.1 watched_ports rows)
          /\ float_lt (now - last_seen s) (grace (args w.1))
      | _ => True
      end
      /\ match step w e with
         | Ok w' => awaits k s w' evs'
         | Raise _ => True
         end
  end.

(** An event that cannot raise for lack of disk: every reset finds the
    disk writable. *)
Definition writes_ok (e : event) : Prop :=
  match e with
  | KeyReset disk_ok _ => disk_ok = true
  | _ => True
  end.

(** ** Further notions for the properties of the poll *)

(** How many of [rows] are in state [st]. *)
Definition state_hits (st : string) (rows : list Row) : Z :=
  Z.of_nat (length (List.filter (fun r => String.eqb (row_state r) st) rows)).

(** An event other than the reset key. *)
Definition not_reset (e : event) : Prop :=
  match e with
  | KeyReset _ _ => False
  | _ => True
  end.

(** The entry of one key after the loop has visited, in order, the
    rows [rs] that carry it; [o] is the entry before. *)
Definition entry_step (now : Q) (o : option Session) (r : Row) : option Session :=
  Some (match o with
        | Some s => touch_session r now s
        | None => new_session r now
        end).

Definition entry_after (now : Q) (o : option Session) (rs : list Row)
  : option Session :=
  fold_left (entry_step now) rs o.

(** The rows of a list that carry the key [k]. *)
Definition rows_of_key (k : string) (rows : list Row) : list Row :=
  List.filter (fun r => String.eqb (flow_key r) k) rows.

(** ** Views *)

(** [Session.age_s] *)
Definition age_s (s : Session) (now : Q) : Q := max0 (now - first_seen s).

(** [lst[:max(0, n)]] *)
Definition clamp_topn {A : Type} (lst : list A) (n : Z) : list A :=
  slice_to (Z.max 0 n) lst.

(** [x < y] on floats. *)
Definition Qltb (x y : Q) : bool := negb (Qle_bool y x).

(** [sorted(l, key=key)] and [l.sort(key=key)]: a stable sort that
    compares keys with [<] only. An element put in front of a sorted
    tail passes the elements whose key is less than its own. *)
Fixpoint insert_by {A K : Type} (lt : K -> K -> bool) (key : A -> K)
    (x : A) (l : list A) : list A :=
  match l with
  | [] => [x]
  | y :: l' =>
      if lt (key y) (key x) then y :: insert_by lt key x l' else x :: y :: l'
  end.

Fixpoint sort_by {A K : Type} (lt : K -> K -> bool) (key : A -> K)
    (l : list A) : list A :=
  match l with
  | [] => []
  | x :: l' => insert_by lt key x (sort_by lt key l')
  end.

(** The same with [reverse=True]: descending, and still stable. *)
Definition sort_by_rev {A K : Type} (lt : K -> K -> bool) (key : A -> K)
    (l : list A) : list A :=
  sort_by (fun k1 k2 => lt k2 k1) key l.

(** [<] on the tuples [(bool, float)] and [(int, float)]: the first
    components decide unless they are equal. *)
Definition lt_bool_Q (k1 k2 : bool * Q) : bool :=
  if Bool.eqb k1.1 k2.1 then Qltb k1.2 k2.2 else negb k1.1 && k2.1.

Definition lt_Z_Q (k1 k2 : Z * Q) : bool :=
  if Z.eqb k1.1 k2.1 then Qltb k1.2 k2.2 else Z.ltb k1.1 k2.1.

(** [(s.state != "ESTABLISHED", -(s.age_s(now)))] *)
Definition session_rank (now : Q) (s : Session) : bool * Q :=
  (negb (String.eqb (state s) "ESTABLISHED"), (- age_s s now)%Q).

Definition active_sorted (active : list Session) (now : Q) : list Session :=
  sort_by lt_bool_Q (session_rank now) active.

(** [by_ip.setdefault(s.src_ip, []).append(s)] on the insertion-ordered
    dict [by_ip]. *)
Fixpoint group_add (s : Session) (g : list (string * list Session))
  : list (string * list Session) :=
  match g with
  | [] => [(src_ip s, [s])]
  | (ip, l) :: g' =>
      if String.eqb (src_ip s) ip then (ip, (l ++ [s])%list) :: g'
      else (ip, l) :: group_add s g'
  end.

Definition by_ip (active : list Session) : list (string * list Session) :=
  fold_left (fun g s => group_add s g) active [].

(** [max(xs, default=d)]: the first of the largest elements. *)
Fixpoint max_from (cur : Q) (xs : list Q) : Q :=
  match xs with
  | [] => cur
  | x :: xs' => max_from (if Qltb cur x then x else cur) xs'
  end.

Definition py_max (d : Q) (xs : list Q) : Q :=
  match xs with
  | [] => d
  | x :: xs' => max_from x xs'
  end.

(** [sorted(set(xs))] for strings and for ints. *)
Definition sorted_set_str (xs : list string) : list string :=
  sort_by String.ltb id (remove_dups xs).

Definition sorted_set_Z (xs : list Z) : list Z :=
  sort_by Z.ltb id (remove_dups xs).

(** A row of the top-sources table. *)
Record SrcRow : Type := mkSrcRow {
  sr_ip : string;
  sr_active : Z;
  sr_oldest_s : Q;
  sr_states : list string;
  sr_ports : list Z;
}.

Definition src_row (now : Q) (g : string * list Session) : SrcRow :=
  mkSrcRow g.1 (Z.of_nat (length g.2))
           (py_max 0 ((fun x => age_s x now) <$> g.2))
           (sorted_set_str (state <$> g.2))
           (sorted_set_Z (dst_port <$> g.2)).

(** [src_rows] after its sort. *)
Definition src_rows (active : list Session) (now : Q) : list SrcRow :=
  sort_by_rev lt_Z_Q (fun r => (sr_active r, sr_oldest_s r))
              (src_row now <$> by_ip active).

(** [port_active[s.dst_port] = port_active.get(s.dst_port, 0) + 1] *)
Fixpoint count_add (p : Z) (m : list (Z * Z)) : list (Z * Z) :=
  match m with
  | [] => [(p, 1)]
  | (p', c) :: m' =>
      if Z.eqb p p' then (p', c + 1) :: m' else (p', c) :: count_add p m'
  end.

Definition port_active (active : list Session) : list (Z * Z) :=
  fold_left (fun m s => count_add (dst_port s) m) active [].

Definition port_active_items (active : list Session) : list (Z * Z) :=
  sort_by_rev Z.ltb snd (port_active active).

(** [est] after its sort. *)
Definition est_sorted (active : list Session) (now : Q) : list Session :=
  sort_by_rev Qltb (fun s => age_s s now)
    (List.filter (fun s => String.eqb (state s) "ESTABLISHED") active).

Record Views : Type := mkViews {
  sessions_top : list Session;
  sources_top : list SrcRow;
  view_port_active_items : list (Z * Z);
  est_top : list Session;
  ended_hist : list json;
}.

(** [compute_views]: the four tables of the active sessions, and the
    stored history sorted once more (which may raise as in
    [update_sessions]). *)
Definition compute_views (a : App) (active : list Session) (now : Q) (topn : Z)
  : result Views :=
  let sessions_top := clamp_topn (active_sorted active now) topn in
  let src_top := clamp_topn (src_rows active now) topn in
  let items := port_active_items active in
  let est_top := clamp_topn (est_sorted active now) topn in
  hist ← py_list (default (JArr []) (stats a !! "ended_history"));
  hist ← sort_history hist;
  Ok (mkViews sessions_top src_top items est_top hist).

(** [x] may stand before [y] in a list sorted with [lt] on [key]. *)
Definition in_order {A K : Type} (lt : K -> K -> bool) (key : A -> K)
    (x y : A) : Prop :=
  lt (key y) (key x) = false.

(** [lt] is a strict order whose complement is transitive, as [<] is
    on numbers, strings and tuples of them. *)
Definition strict_weak {K : Type} (lt : K -> K -> bool) : Prop :=
  (forall a b, lt a b = true -> lt b a = false)
  /\ (forall a b c, lt b a = false -> lt c b = false -> lt c a = false).

(** How many of the sessions go to [port], come from [ip]. *)
Definition sessions_on_port (port : Z) (active : list Session) : Z :=
  Z.of_nat (length (List.filter (fun s => Z.eqb (dst_port s) port) active)).

Definition sessions_from (ip : string) (active : list Session) : list Session :=
  List.filter (fun s => String.eqb (src_ip s) ip) active.

(** The sum of the counts of a table. *)
Definition total_count (items : list (Z * Z)) : Z :=
  foldr (fun pc acc => pc.2 + acc) 0 items.

(** [port_active.get(p)] *)
Fixpoint count_get (p : Z) (m : list (Z * Z)) : option Z :=
  match m with
  | [] => None
  | (p', c) :: m' => if Z.eqb p p' then Some c else count_get p m'
  end.

(** [by_ip.get(ip)] *)
Fixpoint group_get (ip : string) (g : list (string * list Session))
  : option (list Session) :=
  match g with
  | [] => None
  | (ip', l) :: g' => if String.eqb ip ip' then Some l else group_get ip g'
  end.

(** ** Watched ports *)

Definition FALLBACK_WATCH_PORTS : list Z :=
  [21; 22; 23; 25; 53; 80; 110; 111; 135; 139; 143; 443; 445;
   465; 587; 993; 995;
   1433; 1521; 1723; 1883; 2049; 2181;
   2375; 2376;
   3306; 3389; 5432; 5900; 5985; 5986;
   6379; 6667;
   7001; 8000; 8008; 8080; 8088; 8443; 8888; 9000;
   9200; 9300;
   11211; 27017;
   64296; 64298; 64299; 64303; 64305].

(** One listening socket as [parse_listen_ports] reads it off a line of
    [ss]: the local address before its last colon ([ip_part]) and the
    digits after it as a number. Lines with fewer than four fields or
    without a port are not in the list. *)
Definition listen_add (include_loopback : bool) (ports : gset Z)
    (l : string * Z) : gset Z :=
  if negb include_loopback
     && (String.prefix "127." l.1 || String.prefix "[::1]" l.1)
  then ports
  else {[ l.2 ]} ∪ ports.

Definition parse_listen_ports (listening : list (string * Z))
    (include_loopback exclude_admin : bool) : list Z :=
  let ports := foldl (listen_add include_loopback) ∅ listening in
  let ports :=
    if exclude_admin then ports ∖ DEFAULT_EXCLUDE_ADMIN_PORTS else ports in
  sort_by Z.ltb id (elements ports).

(** [tok.split(sep, 1)] when [sep in tok]. *)
Fixpoint split_first (sep : ascii) (s : string) : option (string * string) :=
  match s with
  | EmptyString => None
  | String c s' =>
      if Ascii.eqb c sep then Some (EmptyString, s')
      else match split_first sep s' with
           | Some (a, b) => Some (String c a, b)
           | None => None
           end
  end.

(** [range(lo, hi + 1)] *)
Definition range_incl (lo hi : Z) : list Z := seqZ lo (hi + 1 - lo).

(** What one token of [--watch-ports] appends to [ports]. *)
Definition token_ports (tok : string) : list Z :=
  if String.eqb tok "" then [] else
  match split_first "-" tok with
  | Some (a, b) =>
      match int_of_str a, int_of_str b with
      | Some aa, Some bb => range_incl (Z.min aa bb) (Z.max aa bb)
      | _, _ => []
      end
  | None =>
      match int_of_str tok with
      | Some p => [p]
      | None => []
      end
  end.

Definition not_admin (p : Z) : bool :=
  negb (bool_decide (p ∈ DEFAULT_EXCLUDE_ADMIN_PORTS)).

(** [get_watched_ports]; [split_tokens s] is the library's
    [re.split(r"[,\s]+", s.strip())]. *)
Definition get_watched_ports (split_tokens : string -> list string)
    (args_watch_ports : option string) (listening : list (string * Z))
    (include_loopback exclude_admin : bool) : list Z :=
  let given :=
    match args_watch_ports with
    | Some s => if String.eqb s "" then None else Some s
    | None => None
    end in
  match given with
  | Some s =>
      let ports := mjoin (token_ports <$> split_tokens s) in
      let ports := sorted_set_Z ports in
      if exclude_admin then List.filter not_admin ports else ports
  | None =>
      match parse_listen_ports listening include_loopback exclude_admin with
      | [] =>
          List.filter (fun p => not_admin p || negb exclude_admin)
                      FALLBACK_WATCH_PORTS
      | ports => ports
      end
  end.

(** ** Themes *)

Definition THEMES : list string :=
  ["amber"; "matrix"; "ocean"; "ice"; "violet";
   "sunset"; "mono"; "classic"; "forest"; "neon";
   "steel"; "crimson"; "cyan"; "gold"; "lava";
   "mint"; "plasma"; "midnight"; "desert"; "emerald";
   "slate"; "royal"; "retro"; "hacker"; "solar"].

(** [len(THEMES)] *)
Definition len_THEMES : Z := Z.of_nat (length THEMES).

(** [l.index(x)] for a member. *)
Fixpoint index_of (x : string) (l : list string) : option nat :=
  match l with
  | [] => None
  | y :: l' => if String.eqb x y then Some O else S <$> index_of x l'
  end.

(** [self.theme_idx] as [App.__init__] sets it from the loaded stats. *)
Definition init_theme_idx (st : gmap string json) : Z :=
  match st !! "theme" with
  | Some (JStr s) =>
      match index_of s THEMES with
      | Some i => Z.of_nat i
      | None => 0
      end
  | _ => 0
  end.

(** [App.theme], on the index the app holds beside its other fields. *)
Definition theme (theme_idx : Z) : string :=
  default "" (THEMES !! Z.to_nat (theme_idx mod len_THEMES)).

(** [f"{n:02}"] *)
Definition pad2 (n : Z) : string :=
  let s := py_str n in
  if (String.length s <? 2)%nat then "0" ++ s else s.

Definition theme_label (theme_idx : Z) : string :=
  let idx := theme_idx mod len_THEMES + 1 in
  theme theme_idx ++ " (" ++ pad2 idx ++ "/" ++ py_str len_THEMES ++ ")".

Definition toggle_theme (theme_idx : Z) (a : App) : Z * App :=
  let theme_idx := (theme_idx + 1) mod len_THEMES in
  let a := with_stats (<["theme" := JStr (theme theme_idx)]> (stats a)) a in
  (theme_idx, set_action ("Theme -> " ++ theme_label theme_idx) a).

(** The [t] key pressed [k] times. *)
Fixpoint toggle_theme_n (k : nat) (theme_idx : Z) (a : App) : Z * App :=
  match k with
  | O => (theme_idx, a)
  | S k' => let '(i, a') := toggle_theme theme_idx a in toggle_theme_n k' i a'
  end.

(** ** Text helpers *)

(** [truncate], on a string as the sequence of its characters. *)
Definition truncate {A : Type} (ellipsis : A) (s : list A) (n : Z) : list A :=
  if (Z.of_nat (length s) <=? n)%Z then s
  else if (n <=? 1)%Z then slice_to n s
  else (slice_to (n - 1) s ++ [ellipsis])%list.

(** [_get_primary_ip], given what [_get_host_ips()] returned. *)
Definition _get_primary_ip (ips : list string) : string :=
  match List.find (fun ip => negb (String.prefix "127." ip)) ips with
  | Some ip => ip
  | None =>
      match ips with
      | ip :: _ => ip
      | [] => "0.0.0.0"
      end
  end.

(** ["-" in s] *)
Definition has_dash (s : string) : Prop :=
  exists x y : string, s = x ++ String "-" y.

(** [ip_part] is a loopback address for [parse_listen_ports]. *)
Definition loopback_part (ip_part : string) : bool :=
  String.prefix "127." ip_part || String.prefix "[::1]" ip_part.

(** ** System metrics *)

(** [sum(vals)] *)
Definition py_sum (vals : list Z) : Z := foldl Z.add 0 vals.

(** [min(100.0, x)] *)
Definition min100 (q : Q) : Q := if Qltb q 100 then q else 100%Q.

(** [SysMetrics.cpu_percent]: the value returned and [self.last_cpu]
    after the call. [vals] is [list(map(int, parts[1:]))] for the first
    line of /proc/stat, [None] when reading or parsing it raises. *)
Definition cpu_percent (vals : option (list Z)) (last_cpu : option (Z * Z))
  : Q * option (Z * Z) :=
  match vals with
  | None => (0%Q, last_cpu)
  | Some vals =>
      match vals !! 3%nat with
      | None => (0%Q, last_cpu)
      | Some v3 =>
          let idle :=
            v3 + (if (4 <? length vals)%nat then default 0 (vals !! 4%nat) else 0) in
          let total := py_sum vals in
          match last_cpu with
          | None => (0%Q, Some (idle, total))
          | Some (idle0, total0) =>
              let di := idle - idle0 in
              let dt := total - total0 in
              if (dt <=? 0)%Z then (0%Q, Some (idle, total))
              else
                let used := (inject_Z (dt - di) / inject_Z dt)%Q in
                (max0 (min100 (used * 100)), Some (idle, total))
          end
      end
  end.

(** [idle] and [total] of a reading. *)
Definition cpu_idle (vals : list Z) : Z :=
  default 0 (vals !! 3%nat) + default 0 (vals !! 4%nat).

End Interpreter.

(** ** A worked example

    A host with no stats file, started with the default grace period
    and history capacity, and one inbound flow to port 22: seen twice in
    the snapshot at time 0, once at time 5, and gone afterwards. *)

Definition demo_args : Args := mkArgs DEFAULT_GRACE_S DEFAULT_HISTORY_N.

Definition demo_stats : gmap string json :=
  load_stats NoFile "2026-01-01T00:00:00+00:00" "2026-01-01T00:00:00+00:00".

Definition demo_app : App :=
  App_init demo_args "/root/.tarpit_watch_stats.json" demo_stats.

Definition demo_row : Row :=
  mkRow 300 "ESTABLISHED" "203.0.113.9" "192.0.2.7" 4444 22
        "192.0.2.7" "203.0.113.9" 22 4444.

(** A row to an admin port, and a row from a loopback source. *)
Definition demo_admin_row : Row :=
  mkRow 300 "ESTABLISHED" "203.0.113.9" "192.0.2.7" 4445 64295
        "192.0.2.7" "203.0.113.9" 64295 4445.

Definition demo_loopback_row : Row :=
  mkRow 300 "ESTABLISHED" "127.0.0.1" "127.0.0.1" 4446 22
        "127.0.0.1" "127.0.0.1" 22 4446.

Definition demo_key : string := "203.0.113.9:4444->192.0.2.7:22".

Definition demo_wall (i : nat) : string := "2026-01-01T00:00:13+00:00".

Definition demo_watched : list Z := [22; 80].

(** The result of a poll, or a given one if the poll raised. *)
Definition poll_result (r : result (App * gmap string Z * list Session))
    (dflt : App) : App * gmap string Z * list Session :=
  match r with
  | Ok x => x
  | Raise _ => (dflt, ∅, [])
  end.

Definition demo_poll (a : App) (rows : list Row) (now : Q)
  : App * gmap string Z * list Session :=
  poll_result (update_sessions (interp := decimal_interp) rows demo_wall a
                 demo_watched now) a.

Definition demo_out1 : App * gmap string Z * list Session :=
  Eval vm_compute in demo_poll demo_app [demo_row; demo_row] 0.

Definition demo_out2 : App * gmap string Z * list Session :=
  Eval vm_compute in demo_poll demo_out1.1.1 [demo_row] 5.

Definition demo_out3 : App * gmap string Z * list Session :=
  Eval vm_compute in demo_poll demo_out2.1.1 [] 12.

Definition demo_out4 : App * gmap string Z * list Session :=
  Eval vm_compute in demo_poll demo_out3.1.1 [] 13.

(** The session of the flow as the second poll leaves it. *)
Definition demo_session : Session :=
  mkSession demo_key "203.0.113.9" 4444 "192.0.2.7" 22 "ESTABLISHED" 300 0 5.

(** The first two polls, as events of the main loop. *)
Definition demo_events : list event :=
  [Poll [demo_row; demo_row] demo_wall demo_watched 0;
   Poll [demo_row] demo_wall demo_watched 5;
   DockerRefresh ∅].

(** ** Two flows ending in one poll

    A second flow, to port 80, is seen at times 0 and 1; the flow to
    port 22 is seen at times 1 and 6. At time 14 both are gone for the
    grace period: the short one, first in the store, and the long
    one. *)







(** ** A grace period that is not a number

    With [--grace nan] the flow to port 22 is seen at time 0 and never
    again. *)

Definition demo_nan_app : App :=
  App_init (mkArgs NaN DEFAULT_HISTORY_N) "/root/.tarpit_watch_stats.json"
           demo_stats.

Definition demo_nan_1 : App * gmap string Z * list Session :=
  Eval vm_compute in demo_poll demo_nan_app [demo_row] 0.

Definition demo_nan_2 : App * gmap string Z * list Session :=
  Eval vm_compute in demo_poll demo_nan_1.1.1 [] 100.

Definition demo_nan_session : Session :=
  mkSession demo_key "203.0.113.9" 4444 "192.0.2.7" 22 "ESTABLISHED" 300 0 0.

(** The reset key pressed after the first two polls. *)
Definition demo_reset_events : list event :=
  [KeyReset true "2026-01-02T00:00:00+00:00"; DockerRefresh ∅].

(** Three active sessions for the tables: two from one source, to
    ports 22 and 80, and one from another source to port 22. *)
Definition demo_syn_session : Session :=
  mkSession "203.0.113.9:4450->192.0.2.7:80" "203.0.113.9" 4450 "192.0.2.7" 80
            "SYN_RECV" 60 3 5.

Definition demo_other_session : Session :=
  mkSession "198.51.100.4:5000->192.0.2.7:22" "198.51.100.4" 5000 "192.0.2.7" 22
            "ESTABLISHED" 300 2 5.

Definition demo_active : list Session :=
  [demo_syn_session; demo_other_session; demo_session].

Definition empty_views : Views := mkViews [] [] [] [] [].

(** The tables at time 10 with two rows each. *)
Definition demo_views : Views :=
  Eval vm_compute in
    match compute_views demo_out2.1.1 demo_active 10 2 with
    | Ok v => v
    | Raise _ => empty_views
    end.

(** The row of the source with two sessions. *)
Definition demo_src_row : SrcRow :=
  mkSrcRow "203.0.113.9" 2 10 ["ESTABLISHED"; "SYN_RECV"] [22; 80].

(** [re.split(r"[,\s]+", s.strip())] on an argument made of tokens
    with single commas between them. *)
Definition demo_split_tokens (s : string) : list string := split_on "," s.

(** Sockets listening on every address, on loopback, and on an admin
    port. *)
Definition demo_listening : list (string * Z) :=
  [("0.0.0.0", 22); ("127.0.0.1", 8080); ("[::]", 64295)].

(** A stats file with a counter and no theme. *)
Definition demo_old_file : gmap string json :=
  {[ "lifetime_port_hits" := JObj {[ "22" := JInt 7 ]} ]}.

(** A reading of /proc/stat, and the one before it. *)
Definition demo_cpu_vals : list Z := [120; 0; 80; 700; 100].

Definition demo_last_cpu : option (Z * Z) := Some (750, 900).
(** * Properties *)

Section Properties.
Context {interp : Interp}.

(** ** The private-address predicate *)

Lemma prefix_starts_with (p s : string) :
  String.prefix p s = true <-> starts_with p s.
Proof.
  unfold starts_with. revert s. induction p as [|a p IH]; intros s.
  - split; [intros _; by exists s | by destruct s].
  - destruct s as [|b s].
    + split; [intros H; discriminate H | intros [rest H]; discriminate H].
    + change (String.prefix (String a p) (String b s))
        with (if ascii_dec a b then String.prefix p s else false).
      destruct (ascii_dec a b) as [->|Hne].
      * rewrite IH. split; intros [rest H]; exists rest.
        -- by rewrite H.
        -- by injection H.
      * split; [done | intros [rest H]; injection H; congruence].
Qed.

(** C10. [_is_private_ipv4] holds exactly of the addresses that start
    with [10.], [192.168.], [127.] or [169.254.], or that start with
    [172.] and whose second dot-separated component [int] reads as a
    number from 16 to 31; so with the private sources hidden a row from
    a loopback or link-local source is dropped by the loop. *)
Theorem is_private_ipv4_spec (ip : string) :
  (_is_private_ipv4 ip = true <->
     starts_with "10." ip \/ starts_with "192.168." ip \/
     starts_with "127." ip \/ starts_with "169.254." ip \/
     (starts_with "172." ip /\
      exists (c : string) (x : Z),
        split_on "." ip !! 1%nat = Some c /\ int_of_str c = Some x /\ 16 <= x <= 31))
  /\ (forall (watched : gset Z) (now : Q) (p : Pass) (r : Row),
        hide_private (pass_app p) = true ->
        starts_with "127." (row_src r) \/ starts_with "169.254." (row_src r) ->
        visit_row watched now p r = Ok p).
Proof.
  assert (Hiff : _is_private_ipv4 ip = true <->
     starts_with "10." ip \/ starts_with "192.168." ip \/
     starts_with "127." ip \/ starts_with "169.254." ip \/
     (starts_with "172." ip /\
      exists (c : string) (x : Z),
        split_on "." ip !! 1%nat = Some c /\ int_of_str c = Some x /\ 16 <= x <= 31)).
  { rewrite <- !prefix_starts_with. unfold _is_private_ipv4, second_octet.
    destruct (String.prefix "10." ip) eqn:E1; [tauto|].
    destruct (String.prefix "192.168." ip) eqn:E2; [tauto|].
    destruct (String.prefix "127." ip) eqn:E3; [tauto|].
    destruct (String.prefix "169.254." ip) eqn:E4; [tauto|].
    destruct (String.prefix "172." ip) eqn:E5.
    - destruct (split_on "." ip !! 1%nat) as [c|] eqn:Ec; simpl.
      + destruct (int_of_str c) as [x|] eqn:Ex.
        * rewrite andb_true_iff, !Z.leb_le. split.
          -- intros Hx. do 4 right. split; [done|]. exists c, x. done.
          -- intros [?|[?|[?|[?|[_ (c' & x' & Hc & Hx & Hr)]]]]]; try done.
             simplify_eq. done.
        * split; [done|].
          intros [?|[?|[?|[?|[_ (c' & x' & Hc & Hx & Hr)]]]]]; try done.
          simplify_eq.
      + split; [done|].
        intros [?|[?|[?|[?|[_ (c' & x' & Hc & Hx & Hr)]]]]]; done.
    - split; [done|]. intros [?|[?|[?|[?|[? _]]]]]; done. }
  split; [exact Hiff|].
  intros watched now p r Hhide Hsrc. unfold visit_row.
  destruct (negb (bool_decide (row_dport r ∈ watched))); [done|].
  assert (Hp : _is_private_ipv4 (row_src r) = true).
  { rewrite <- !prefix_starts_with in Hsrc. unfold _is_private_ipv4.
    destruct (String.prefix "10." (row_src r)); [done|].
    destruct (String.prefix "192.168." (row_src r)); [done|].
    destruct (String.prefix "127." (row_src r)); [done|].
    destruct (String.prefix "169.254." (row_src r)); [done|].
    destruct Hsrc; done. }
  by rewrite Hhide, Hp.
Qed.

(** ** The stats document *)

Lemma new_stats_lookup (t1 t2 : string) (notes : list json) :
  new_stats t1 t2 notes !! "version" = Some (JStr VERSION)
  /\ new_stats t1 t2 notes !! "created" = Some (JStr t1)
  /\ new_stats t1 t2 notes !! "updated" = Some (JStr t2)
  /\ new_stats t1 t2 notes !! "notes" = Some (JArr notes)
  /\ new_stats t1 t2 notes !! "theme" = Some (JStr THEMES_0)
  /\ new_stats t1 t2 notes !! "lifetime_port_hits" = Some (JObj ∅)
  /\ new_stats t1 t2 notes !! "ended_history" = Some (JArr []).
Proof. unfold new_stats. repeat split; by simplify_map_eq. Qed.

Lemma setdefault_lookup (k k' : string) (v : json) (d : gmap string json) :
  setdefault k v d !! k' =
    if decide (k = k') then Some (default v (d !! k)) else d !! k'.
Proof.
  unfold setdefault. destruct (d !! k) as [x|] eqn:E; case_decide; subst; simpl.
  - done.
  - done.
  - by rewrite lookup_insert_eq.
  - by rewrite lookup_insert_ne.
Qed.

Lemma setdefault_present (k : string) (v : json) (d : gmap string json) :
  is_Some (d !! k) -> setdefault k v d = d.
Proof. intros [x Hx]. unfold setdefault. by rewrite Hx. Qed.




(** C6. A stats document saved by [save_stats] and read back by
    [load_stats] is the saved document: the reloaded dict equals the
    dict as [save_stats] left it, which is the document given with its
    [updated] stamp renewed. *)
Theorem save_load_roundtrip (d : gmap string json) (t_now t1 t2 : string) :
  stats_document d ->
  exists f : stats_file,
    save_stats true t_now d = (<["updated" := JStr t_now]> d, Ok f)
    /\ load_stats f t1 t2 = <["updated" := JStr t_now]> d
    /\ (forall k : string, k <> "updated" -> load_stats f t1 t2 !! k = d !! k).
Proof.
  intros (Hv & Hn & Hl & He & Ht).
  assert (Hd : <["version" := JStr VERSION]> d = d) by by apply insert_id.
  exists (Parsed (JObj (<["updated" := JStr t_now]> d))).
  assert (Hload : load_stats (Parsed (JObj (<["updated" := JStr t_now]> d))) t1 t2
                  = <["updated" := JStr t_now]> d).
  { simpl.
    rewrite (setdefault_present "notes") by by rewrite lookup_insert_ne.
    rewrite (setdefault_present "lifetime_port_hits") by by rewrite lookup_insert_ne.
    rewrite (setdefault_present "ended_history") by by rewrite lookup_insert_ne.
    rewrite (setdefault_present "theme") by by rewrite lookup_insert_ne.
    apply insert_id. by rewrite lookup_insert_ne. }
  split; [|split].
  - unfold save_stats, _atomic_write. by rewrite Hd.
  - exact Hload.
  - intros k Hk. rewrite Hload. by rewrite lookup_insert_ne.
Qed.

(** ** Reset *)

(** C9 (as amended). [reset_lifetime_hits] empties the lifetime
    counters and keeps the ended history and every other field of the
    document, except the two stamps of the save it ends with: [version]
    and [updated]. The session store and the run counters are kept. *)
Theorem reset_lifetime_hits_frame (disk_ok : bool) (t_now : string) (a : App) :
  let a' := (reset_lifetime_hits disk_ok t_now a).1 in
  stats a' !! "lifetime_port_hits" = Some (JObj ∅)
  /\ stats a' !! "ended_history" = stats a !! "ended_history"
  /\ stats a' !! "version" = Some (JStr VERSION)
  /\ stats a' !! "updated" = Some (JStr t_now)
  /\ (forall k : string,
        k <> "lifetime_port_hits" -> k <> "version" -> k <> "updated" ->
        stats a' !! k = stats a !! k)
  /\ sessions a' = sessions a
  /\ port_hits_run a' = port_hits_run a.
Proof.
  unfold reset_lifetime_hits, save_stats; simpl.
  repeat split; try by simplify_map_eq.
  intros k H1 H2 H3. by rewrite !lookup_insert_ne.
Qed.

(** ** Ended session records *)

Lemma int_of_float_max0 (d : Q) :
  int_of_float (max0 d) = Z.max 0 (Qfloor d).
Proof.
  unfold int_of_float, max0.
  destruct (Qle_bool d 0) eqn:E.
  - apply Qle_bool_iff in E. apply Qfloor_resp_le in E.
    change (Qfloor 0) with 0 in E.
    change (0 = Z.max 0 (Qfloor d)). lia.
  - assert (Hd : (0 < d)%Q).
    { apply Qnot_le_lt. intros H. apply Qle_bool_iff in H. congruence. }
    assert (Hle : (0 <= d)%Q) by by apply Qlt_le_weak.
    pose proof (proj2 (Qle_bool_iff 0 d) Hle) as ->.
    apply Qfloor_resp_le in Hle. change (Qfloor 0) with 0 in Hle. lia.
Qed.

(** C8. Every record appended to the history for an ended session
    carries as [duration_s] the difference [last_seen - first_seen] of
    that session, floored to whole seconds and never negative (a
    negative difference gives 0). *)
Theorem ended_record_duration (wall : nat -> string) (a : App)
    (ended : list Session) (rec : json) :
  rec ∈ ended_records wall a ended ->
  exists (sess : Session) (m : gmap string json),
    sess ∈ ended
    /\ rec = JObj m
    /\ m !! "duration_s" = Some (JInt (duration_s sess))
    /\ duration_s sess = Z.max 0 (Qfloor (last_seen sess - first_seen sess))
    /\ 0 <= duration_s sess
    /\ ((first_seen sess <= last_seen sess)%Q ->
        duration_s sess = Qfloor (last_seen sess - first_seen sess)).
Proof.
  unfold ended_records. intros Hrec.
  apply elem_of_lookup_imap in Hrec as (i & sess & -> & Hi).
  eexists sess, _. split; [by eapply list_elem_of_lookup_2|].
  split; [reflexivity|].
  assert (Hd : duration_s sess = Z.max 0 (Qfloor (last_seen sess - first_seen sess)))
    by apply int_of_float_max0.
  split; [by simplify_map_eq|]. split; [exact Hd|]. split; [lia|].
  intros Hle. rewrite Hd.
  assert (H0 : (0 <= last_seen sess - first_seen sess)%Q).
  { rewrite <- (Qplus_opp_r (first_seen sess)).
    apply Qplus_le_compat; [exact Hle | apply Qle_refl]. }
  apply Qfloor_resp_le in H0. change (Qfloor 0) with 0 in H0. lia.
Qed.

(** ** The session store *)

Lemma sess_get_None (k : string) (ss : list (string * Session)) :
  sess_get k ss = None <-> k ∉ ss.*1.
Proof.
  induction ss as [|[k' s] ss IH]; simpl.
  - split; [intros _; apply not_elem_of_nil | done].
  - rewrite not_elem_of_cons. destruct (String.eqb_spec k k') as [->|Hne].
    + split; [done | intros [H _]; done].
    + rewrite IH. tauto.
Qed.

Lemma sess_get_Some (k : string) (s : Session) (ss : list (string * Session)) :
  sess_get k ss = Some s -> (k, s) ∈ ss.
Proof.
  induction ss as [|[k' s'] ss IH]; simpl; [done|].
  destruct (String.eqb_spec k k') as [->|Hne].
  - intros [= ->]. apply list_elem_of_here.
  - intros H. apply list_elem_of_further. auto.
Qed.

Lemma sess_get_elem (k : string) (s : Session) (ss : list (string * Session)) :
  NoDup (ss.*1) -> (k, s) ∈ ss -> sess_get k ss = Some s.
Proof.
  induction ss as [|[k' s'] ss IH]; simpl; intros Hnd Hin.
  - by apply elem_of_nil in Hin.
  - apply NoDup_cons in Hnd as [Hk' Hnd].
    apply elem_of_cons in Hin as [[= -> ->]|Hin].
    + by rewrite String.eqb_refl.
    + destruct (String.eqb_spec k k') as [->|Hne]; [|auto].
      destruct Hk'. apply list_elem_of_fmap. by exists (k', s).
Qed.

Lemma sess_get_tracked (k : string) (ss : list (string * Session)) :
  k ∈ tracked_keys ss <-> is_Some (sess_get k ss).
Proof.
  unfold tracked_keys. rewrite elem_of_list_to_set.
  destruct (sess_get k ss) as [s|] eqn:E.
  - split; [eauto|]. intros _. apply sess_get_Some in E.
    apply list_elem_of_fmap. by exists (k, s).
  - apply sess_get_None in E. split; [done | intros [? ?]; done].
Qed.

Lemma sess_get_app (k : string) (ss ss' : list (string * Session)) :
  sess_get k (ss ++ ss') =
    match sess_get k ss with Some s => Some s | None => sess_get k ss' end.
Proof.
  induction ss as [|[k' s] ss IH]; simpl; [done|].
  by destruct (String.eqb k k').
Qed.

Lemma sess_replace_keys (k : string) (s : Session) (ss : list (string * Session)) :
  (sess_replace k s ss).*1 = ss.*1.
Proof.
  induction ss as [|[k' s'] ss IH]; simpl; [done|].
  destruct (String.eqb k k'); csimpl; [done | by rewrite IH].
Qed.

Lemma sess_get_replace (k k' : string) (s : Session) (ss : list (string * Session)) :
  sess_get k' (sess_replace k s ss) =
    if String.eqb k' k then (fun _ => s) <$> sess_get k ss else sess_get k' ss.
Proof.
  induction ss as [|[k0 s0] ss IH]; simpl.
  - by destruct (String.eqb k' k).
  - destruct (String.eqb_spec k k0) as [->|Hne]; simpl.
    + destruct (String.eqb_spec k' k0) as [->|Hne']; simpl; done.
    + destruct (String.eqb_spec k' k0) as [->|Hne']; simpl.
      * destruct (String.eqb_spec k0 k) as [->|_]; done.
      * exact IH.
Qed.

Lemma sess_replace_Forall (P : string * Session -> Prop) (k : string)
    (s : Session) (ss : list (string * Session)) :
  Forall P ss -> (forall s0, P (k, s0) -> P (k, s)) ->
  Forall P (sess_replace k s ss).
Proof.
  intros Hall Hs. induction Hall as [|[k0 s0] ss H0 Hall IH]; simpl; [done|].
  destruct (String.eqb_spec k k0) as [->|Hne]; constructor; eauto.
Qed.

Lemma sess_del_filter (k : string) (ss : list (string * Session)) :
  NoDup (ss.*1) ->
  sess_del k ss = List.filter (fun kv => negb (String.eqb k kv.1)) ss.
Proof.
  induction ss as [|[k' s'] ss IH]; simpl; intros Hnd; [done|].
  apply NoDup_cons in Hnd as [Hk' Hnd].
  destruct (String.eqb_spec k k') as [->|Hne]; simpl.
  - symmetry. apply forallb_filter_id. apply forallb_forall.
    intros [k0 s0] Hin; simpl. destruct (String.eqb_spec k' k0) as [->|]; [|done].
    destruct Hk'. apply list_elem_of_fmap. exists (k0, s0).
    split; [done|]. by apply list_elem_of_In.
  - by rewrite IH.
Qed.

(** ** The row loop *)

Lemma visit_row_discarded (w : gset Z) (now : Q) (p : Pass) (r : Row) :
  survives (pass_app p) w r = false -> visit_row w now p r = Ok p.
Proof.
  unfold survives, visit_row. intros H.
  destruct (bool_decide (row_dport r ∈ w)); simpl in *; [|done].
  destruct (hide_private (pass_app p) && _is_private_ipv4 (row_src r));
    simpl in *; [done|].
  destruct (hide_admin (pass_app p)
            && bool_decide (row_dport r ∈ DEFAULT_EXCLUDE_ADMIN_PORTS));
    simpl in *; [done|].
  by rewrite negb_false_iff in H; rewrite H.
Qed.

Lemma visit_row_survives (w : gset Z) (now : Q) (p : Pass) (r : Row) :
  survives (pass_app p) w r = true ->
  visit_row w now p r =
    let a := pass_app p in
    let ss := track_row now (sessions a) r in
    let counts := count_state (state_counts p) r in
    let seen := {[ flow_key r ]} ∪ seen_keys p in
    match sess_get (flow_key r) (sessions a) with
    | None =>
        st' ← bump_lifetime (row_dport r) (stats a);
        Ok (mkPass
              (with_stats st'
                 (with_port_hits_run (bump_run (port_hits_run a) (row_dport r))
                    (with_sessions ss a)))
              counts seen)
    | Some s => Ok (mkPass (with_sessions ss a) counts seen)
    end.
Proof.
  unfold survives, visit_row, track_row. intros H.
  apply andb_true_iff in H as [H H4]. apply andb_true_iff in H as [H H3].
  apply andb_true_iff in H as [H1 H2].
  rewrite H1. apply negb_true_iff in H2, H3, H4. rewrite H2, H3, H4. simpl.
  by destruct (sess_get (flow_key r) (sessions (pass_app p))).
Qed.

Lemma survives_settings (a a' : App) (w : gset Z) (r : Row) :
  same_settings a a' -> survives a' w r = survives a w r.
Proof. intros (_ & Hp & Ha & Hm & _). unfold survives. by rewrite Hp, Ha, Hm. Qed.

Lemma same_settings_refl (a : App) : same_settings a a.
Proof. by unfold same_settings. Qed.

Lemma same_settings_trans (a b c : App) :
  same_settings a b -> same_settings b c -> same_settings a c.
Proof. unfold same_settings. intros (?&?&?&?&?&?) (?&?&?&?&?&?). repeat split; congruence. Qed.

Lemma bind_Ok {A B : Type} (f : A -> result B) (r : result A) (b : B) :
  r ≫= f = Ok b <-> exists a, r = Ok a /\ f a = Ok b.
Proof.
  destruct r as [a|e]; simpl.
  - split; [eauto | intros (a' & [= ->] & H); done].
  - split; [done | intros (a' & H & _); done].
Qed.

Lemma tracked_keys_track_row (now : Q) (ss : list (string * Session)) (r : Row) :
  tracked_keys (track_row now ss r) = {[ flow_key r ]} ∪ tracked_keys ss.
Proof.
  unfold track_row, tracked_keys.
  destruct (sess_get (flow_key r) ss) as [s|] eqn:E.
  - rewrite sess_replace_keys.
    assert (flow_key r ∈ (list_to_set ss.*1 : gset string)).
    { apply (sess_get_tracked _ ss). eauto. }
    set_solver.
  - rewrite fmap_app, list_to_set_app_L. simpl. set_solver.
Qed.

(** What the row loop leaves: the store tracks the surviving rows, the
    seen keys are theirs, and the counters have been bumped once for
    each first sighting. *)
Lemma visit_rows_spec (w : gset Z) (now : Q) (rows : list Row) :
  forall p p' : Pass,
    visit_rows w now p rows = Ok p' ->
    let a := pass_app p in
    let a' := pass_app p' in
    let sv := List.filter (survives a w) rows in
    let firsts := first_sightings (tracked_keys (sessions a)) sv in
    same_settings a a'
    /\ sessions a' = track now (sessions a) sv
    /\ seen_keys p' = list_to_set (flow_key <$> sv) ∪ seen_keys p
    /\ state_counts p' = fold_left count_state sv (state_counts p)
    /\ port_hits_run a' = fold_left bump_run (row_dport <$> firsts) (port_hits_run a)
    /\ bump_lifetime_all (row_dport <$> firsts) (stats a) = Ok (stats a').
Proof.
  induction rows as [|r rows IH]; intros p p' Hv; simpl in Hv.
  - injection Hv as <-. simpl. split; [apply same_settings_refl|].
    repeat split; try done. set_solver.
  - apply bind_Ok in Hv as (p1 & Hr & Hrest).
    specialize (IH _ _ Hrest). cbv zeta in IH.
    destruct IH as (Hs & Hss & Hseen & Hcnt & Hrun & Hlife).
    cbv zeta. simpl List.filter.
    destruct (survives (pass_app p) w r) eqn:Esv.
    + rewrite visit_row_survives in Hr by done. cbv zeta in Hr.
      destruct (sess_get (flow_key r) (sessions (pass_app p))) as [s|] eqn:Eg.
      * injection Hr as <-. simpl in *.
        assert (Hset : same_settings (pass_app p)
                  (with_sessions (track_row now (sessions (pass_app p)) r) (pass_app p)))
          by by unfold same_settings.
        rewrite (List.filter_ext _ (survives (pass_app p) w)) in Hss, Hseen, Hcnt, Hrun, Hlife
          by (intros; by apply survives_settings).
        rewrite tracked_keys_track_row in Hrun, Hlife.
        assert (Hk : flow_key r ∈ tracked_keys (sessions (pass_app p))).
        { apply sess_get_tracked. eauto. }
        rewrite bool_decide_eq_true_2 by done.
        assert (Hu : {[flow_key r]} ∪ tracked_keys (sessions (pass_app p))
                     = tracked_keys (sessions (pass_app p))) by set_solver.
        rewrite Hu in Hrun, Hlife.
        split; [eapply same_settings_trans; [exact Hset | exact Hs]|].
        repeat split; try done.
        rewrite Hseen. set_solver.
      * apply bind_Ok in Hr as (st' & Hb & Hr). injection Hr as <-. simpl in *.
        set (a1 := with_stats st' _) in *.
        assert (Hset : same_settings (pass_app p) a1) by by unfold same_settings.
        rewrite (List.filter_ext _ (survives (pass_app p) w)) in Hss, Hseen, Hcnt, Hrun, Hlife
          by (intros; by apply survives_settings).
        rewrite tracked_keys_track_row in Hrun, Hlife.
        assert (Hk : flow_key r ∉ tracked_keys (sessions (pass_app p))).
        { rewrite sess_get_tracked, Eg. by intros [? ?]. }
        rewrite bool_decide_eq_false_2 by done. simpl.
        rewrite Hb. simpl.
        split; [eapply same_settings_trans; [exact Hset | exact Hs]|].
        repeat split; try done.
        rewrite Hseen. set_solver.
    + rewrite visit_row_discarded in Hr by done. injection Hr as <-. done.
Qed.

(** ** Tracking *)

Lemma track_snoc (now : Q) (ss : list (string * Session)) (sv : list Row) (r : Row) :
  track now ss (sv ++ [r]) = track_row now (track now ss sv) r.
Proof. unfold track. by rewrite fold_left_app. Qed.

Lemma sess_get_track_row (now : Q) (ss : list (string * Session)) (r : Row)
    (k : string) :
  sess_get k (track_row now ss r) =
    if String.eqb k (flow_key r) then
      Some (match sess_get (flow_key r) ss with
            | Some s => touch_session r now s
            | None => new_session r now
            end)
    else sess_get k ss.
Proof.
  unfold track_row. destruct (sess_get (flow_key r) ss) as [s|] eqn:E.
  - rewrite sess_get_replace. rewrite E. by destruct (String.eqb k (flow_key r)).
  - rewrite sess_get_app. simpl.
    destruct (String.eqb_spec k (flow_key r)) as [->|Hne].
    + by rewrite E.
    + by destruct (sess_get k ss).
Qed.

Lemma tracked_keys_track (now : Q) (sv : list Row) (ss : list (string * Session)) :
  tracked_keys (track now ss sv) = tracked_keys ss ∪ list_to_set (flow_key <$> sv).
Proof.
  revert ss. induction sv as [|r sv IH]; intros ss; simpl.
  - set_solver.
  - unfold track in *. simpl. rewrite IH, tracked_keys_track_row. set_solver.
Qed.

Lemma track_unobserved (now : Q) (sv : list Row) (ss : list (string * Session))
    (k : string) :
  k ∉ flow_key <$> sv -> sess_get k (track now ss sv) = sess_get k ss.
Proof.
  revert ss. induction sv as [|r sv IH]; intros ss Hk; [done|].
  rewrite fmap_cons in Hk. apply not_elem_of_cons in Hk as [Hne Hk].
  unfold track in *. simpl. rewrite IH by done.
  rewrite sess_get_track_row. by destruct (String.eqb_spec k (flow_key r)).
Qed.

Lemma refreshed_weaken (now : Q) (sv : list Row) (r : Row) (k : string)
    (old : option Session) (s' : Session) :
  refreshed now sv k old s' -> refreshed now (sv ++ [r]) k old s'.
Proof.
  intros (Hl & (r1 & Hr1 & Hrest) & Ho). split; [done|]. split.
  - exists r1. split; [apply elem_of_app; by left | done].
  - destruct old; [done|]. destruct Ho as (r0 & Hr0 & Hrest0).
    exists r0. split; [apply elem_of_app; by left | done].
Qed.

(** Every key observed in a poll has an entry afterwards, seen at
    [now]; an entry that was there keeps its identity and its
    [first_seen], a new one starts at [now]. *)
Lemma track_observed (now : Q) (ss : list (string * Session)) (sv : list Row)
    (k : string) :
  k ∈ flow_key <$> sv ->
  exists s', sess_get k (track now ss sv) = Some s'
             /\ refreshed now sv k (sess_get k ss) s'.
Proof.
  induction sv as [|r sv IH] using rev_ind; intros Hk.
  - by apply elem_of_nil in Hk.
  - rewrite track_snoc, sess_get_track_row.
    destruct (String.eqb_spec k (flow_key r)) as [->|Hne].
    + destruct (decide (flow_key r ∈ flow_key <$> sv)) as [Hin|Hnin].
      * destruct (IH Hin) as (s1 & Hs1 & Hl & Hst & Hold). rewrite Hs1.
        eexists. split; [reflexivity|]. split; [done|]. split.
        -- exists r. split; [apply elem_of_app; right; apply list_elem_of_here | done].
        -- destruct (sess_get (flow_key r) ss) as [s|].
           ++ unfold same_flow in *. simpl. tauto.
           ++ destruct Hold as (r0 & Hr0 & Hk0 & Hc). exists r0.
              split; [apply elem_of_app; by left|]. split; [done|].
              unfold created_from in *. simpl. tauto.
      * rewrite (track_unobserved now sv ss) by done.
        eexists. split; [reflexivity|].
        destruct (sess_get (flow_key r) ss) as [s|]; simpl.
        -- split; [done|]. split; [|by unfold same_flow].
           exists r. split; [apply elem_of_app; right; apply list_elem_of_here | done].
        -- split; [done|]. split.
           ++ exists r. split; [apply elem_of_app; right; apply list_elem_of_here | done].
           ++ exists r. split; [apply elem_of_app; right; apply list_elem_of_here|].
              by unfold created_from.
    + rewrite fmap_app in Hk. apply elem_of_app in Hk as [Hk|Hk].
      * destruct (IH Hk) as (s1 & Hs1 & Href). exists s1. split; [done|].
        by apply refreshed_weaken.
      * simpl in Hk. apply list_elem_of_singleton in Hk. done.
Qed.

Lemma track_row_NoDup (now : Q) (ss : list (string * Session)) (r : Row) :
  NoDup (ss.*1) -> NoDup ((track_row now ss r).*1).
Proof.
  intros Hnd. unfold track_row.
  destruct (sess_get (flow_key r) ss) as [s|] eqn:E.
  - by rewrite sess_replace_keys.
  - rewrite fmap_app. apply NoDup_app. split; [done|]. split.
    + intros k Hk Hk'. simpl in Hk'. apply list_elem_of_singleton in Hk' as ->.
      by apply sess_get_None in E.
    + simpl. apply NoDup_singleton.
Qed.

Lemma track_NoDup (now : Q) (sv : list Row) (ss : list (string * Session)) :
  NoDup (ss.*1) -> NoDup ((track now ss sv).*1).
Proof.
  revert ss. induction sv as [|r sv IH]; intros ss Hnd; [done|].
  unfold track in *. simpl. apply IH. by apply track_row_NoDup.
Qed.

Lemma track_Forall (P : string * Session -> Prop) (now : Q) (sv : list Row)
    (ss : list (string * Session)) :
  Forall P ss ->
  (forall r, P (flow_key r, new_session r now)) ->
  (forall k s r, P (k, s) -> P (k, touch_session r now s)) ->
  Forall P (track now ss sv).
Proof.
  intros Hall Hnew Htouch. revert ss Hall.
  induction sv as [|r sv IH]; intros ss Hall; [done|].
  unfold track in *. simpl. apply IH. unfold track_row.
  destruct (sess_get (flow_key r) ss) as [s|] eqn:E.
  - apply sess_replace_Forall; [done|]. intros s0 _.
    apply Htouch. apply sess_get_Some in E.
    rewrite Forall_forall in Hall. by apply Hall.
  - apply Forall_app. split; [done|]. constructor; [apply Hnew | constructor].
Qed.

(** ** Counters *)

Lemma py_str_inj (n n' : Z) : py_str n = py_str n' -> n = n'.
Proof.
  unfold py_str. intros H. apply to_int_inj.
  assert (Hnn : forall z, Z.to_int z <> Decimal.Pos Decimal.Nil
                          /\ Z.to_int z <> Decimal.Neg Decimal.Nil).
  { intros [|p|p]; simpl; split; try discriminate;
      intros [= Hp]; by apply Unsigned.to_uint_nonnil in Hp. }
  assert (Hi : forall z,
    NilZero.int_of_string (NilZero.string_of_int (Z.to_int z)) = Some (Z.to_int z)).
  { intros z. destruct (Hnn z). by apply NilZero.isi. }
  pose proof (Hi n) as H1. rewrite H, Hi in H1. congruence.
Qed.

Lemma hits_on_cons (port : Z) (r : Row) (rs : list Row) :
  hits_on port (r :: rs) =
    (if Z.eqb (row_dport r) port then 1 else 0) + hits_on port rs.
Proof.
  unfold hits_on. simpl. destruct (Z.eqb (row_dport r) port); simpl; lia.
Qed.

Lemma hits_on_nonneg (port : Z) (rs : list Row) : 0 <= hits_on port rs.
Proof. unfold hits_on. lia. Qed.

Lemma bump_run_fold (rs : list Row) (m : gmap Z Z) (port : Z) :
  run_hits (fold_left bump_run (row_dport <$> rs) m) port =
    run_hits m port + hits_on port rs.
Proof.
  revert m. induction rs as [|r rs IH]; intros m.
  - unfold hits_on. simpl. lia.
  - rewrite fmap_cons. simpl. rewrite IH, hits_on_cons.
    unfold run_hits, bump_run.
    destruct (Z.eqb_spec (row_dport r) port) as [Heq|Hne].
    + rewrite Heq, lookup_insert_eq. simpl. lia.
    + rewrite lookup_insert_ne by done. lia.
Qed.

Lemma bump_lifetime_Ok (p : Z) (st st' : gmap string json) :
  bump_lifetime p st = Ok st' <->
  exists (m : gmap string json) (n : Z),
    default (JObj ∅) (st !! "lifetime_port_hits") = JObj m
    /\ py_int (default (JInt 0) (m !! py_str p)) = Ok n
    /\ st' = <["lifetime_port_hits" := JObj (<[py_str p := JInt (n + 1)]> m)]> st.
Proof.
  unfold bump_lifetime.
  destruct (default (JObj ∅) (st !! "lifetime_port_hits")) as [| | | | | |m] eqn:E;
    simpl; try (split; [done | intros (m' & n & H & _); done]).
  destruct (py_int (default (JInt 0) (m !! py_str p))) as [n|e] eqn:En; simpl.
  - split.
    + intros [= <-]. by exists m, n.
    + intros (m' & n' & [= <-] & Hn & ->). rewrite En in Hn.
      by injection Hn as ->.
  - split; [done|]. intros (m' & n' & [= <-] & Hn & _). congruence.
Qed.

Lemma lifetime_hits_bump (p port : Z) (st : gmap string json)
    (m : gmap string json) (n : Z) :
  default (JObj ∅) (st !! "lifetime_port_hits") = JObj m ->
  lifetime_hits
    (<["lifetime_port_hits" := JObj (<[py_str p := JInt (n + 1)]> m)]> st) port =
    if Z.eqb p port then Some (JInt (n + 1)) else lifetime_hits st port.
Proof.
  intros Hm. unfold lifetime_hits. rewrite lookup_insert_eq, Hm. simpl.
  destruct (Z.eqb_spec p port) as [->|Hne].
  - by rewrite lookup_insert_eq.
  - rewrite lookup_insert_ne; [done|]. intros H. by apply py_str_inj in H.
Qed.

(** The lifetime counter of a port after the first sightings [rs]: it
    is untouched when none goes to the port; otherwise it is the
    number [int] reads in the old value, plus their count. Nothing else
    in the document changes. *)
Lemma bump_lifetime_all_spec (rs : list Row) (st st' : gmap string json) :
  bump_lifetime_all (row_dport <$> rs) st = Ok st' ->
  (forall k : string, k <> "lifetime_port_hits" -> st' !! k = st !! k)
  /\ forall port : Z,
       (hits_on port rs = 0 -> lifetime_hits st' port = lifetime_hits st port)
       /\ (0 < hits_on port rs ->
           exists n0 : Z,
             py_int (default (JInt 0) (lifetime_hits st port)) = Ok n0
             /\ lifetime_hits st' port = Some (JInt (n0 + hits_on port rs))).
Proof.
  revert st. induction rs as [|r rs IH]; intros st Hb.
  - injection Hb as <-. split; [done|]. intros port. split; [done|].
    unfold hits_on. simpl. lia.
  - rewrite fmap_cons in Hb. simpl in Hb.
    apply bind_Ok in Hb as (st1 & Hb1 & Hb).
    apply bump_lifetime_Ok in Hb1 as (m & n & Hm & Hn & ->).
    destruct (IH _ Hb) as [Hframe Hports]. split.
    + intros k Hk. rewrite Hframe by done. by rewrite lookup_insert_ne.
    + intros port. destruct (Hports port) as [H0 Hpos].
      rewrite (lifetime_hits_bump _ _ _ m n Hm) in H0, Hpos.
      rewrite hits_on_cons. pose proof (hits_on_nonneg port rs) as Hnn.
      destruct (Z.eqb_spec (row_dport r) port) as [Heq|Hne].
      * rewrite Heq in *. split; [lia|]. intros _.
        assert (Hold : lifetime_hits st port = m !! py_str port).
        { unfold lifetime_hits. by rewrite Hm. }
        rewrite Hold. exists n. split; [done|].
        destruct (decide (hits_on port rs = 0)) as [Hz|Hz].
        -- rewrite H0, Hz by done. do 2 f_equal.
        -- destruct Hpos as (n1 & Hn1 & ->); [lia|].
           simpl in Hn1. injection Hn1 as <-. do 2 f_equal. lia.
      * split.
        -- intros Hz. apply H0. lia.
        -- intros Hz. destruct Hpos as (n1 & Hn1 & ->); [lia|].
           exists n1. split; [done|]. do 2 f_equal.
Qed.

(** ** First sightings *)

Lemma first_sightings_spec (rs : list Row) :
  forall known : gset string,
    NoDup (flow_key <$> first_sightings known rs)
    /\ (forall r, r ∈ first_sightings known rs -> r ∈ rs /\ flow_key r ∉ known)
    /\ (forall k, k ∈ flow_key <$> rs -> k ∉ known ->
                  k ∈ flow_key <$> first_sightings known rs).
Proof.
  induction rs as [|r rs IH]; intros known; simpl.
  - split; [constructor|]. split; [intros r Hr; by apply elem_of_nil in Hr | done].
  - case_bool_decide as Hk.
    + destruct (IH known) as (Hnd & Hsub & Hall). split; [done|]. split.
      * intros r' Hr'. destruct (Hsub r' Hr'). split; [by apply list_elem_of_further | done].
      * intros k Hin Hnk. try rewrite fmap_cons in Hin.
        apply elem_of_cons in Hin as [->|Hin]; [done | by apply Hall].
    + destruct (IH ({[flow_key r]} ∪ known)) as (Hnd & Hsub & Hall).
      try rewrite fmap_cons. split; [|split].
      * apply NoDup_cons. split; [|done]. intros Hin.
        apply list_elem_of_fmap in Hin as (r' & Hr' & Hin).
        destruct (Hsub r' Hin) as [_ Hn]. rewrite <- Hr' in Hn. set_solver.
      * intros r' Hr'. apply elem_of_cons in Hr' as [->|Hr'].
        -- split; [apply list_elem_of_here | done].
        -- destruct (Hsub r' Hr') as [? Hn].
           split; [by apply list_elem_of_further | set_solver].
      * intros k Hin Hnk. try rewrite fmap_cons in Hin.
        destruct (decide (k = flow_key r)) as [->|Hne]; [apply list_elem_of_here|].
        apply list_elem_of_further. apply Hall; [|set_solver].
        apply elem_of_cons in Hin as [?|?]; done.
Qed.

Lemma first_sightings_none (known : gset string) (rs : list Row) :
  (forall r, r ∈ rs -> flow_key r ∈ known) -> first_sightings known rs = [].
Proof.
  induction rs as [|r rs IH]; intros Hall; simpl; [done|].
  rewrite bool_decide_eq_true_2 by (apply Hall, list_elem_of_here).
  apply IH. intros r' Hr'. by apply Hall, list_elem_of_further.
Qed.

(** ** Expiry *)

Lemma filter_keys_NoDup (f : string * Session -> bool) (ss : list (string * Session)) :
  NoDup (ss.*1) -> NoDup ((List.filter f ss).*1).
Proof.
  induction ss as [|kv ss IH]; simpl; intros Hnd; [done|].
  try rewrite fmap_cons in Hnd. apply NoDup_cons in Hnd as [Hk Hnd].
  destruct (f kv); [|by apply IH].
  try rewrite fmap_cons. apply NoDup_cons. split; [|by apply IH].
  intros Hin. apply Hk. apply list_elem_of_fmap in Hin as (kv' & -> & Hin).
  apply list_elem_of_fmap. exists kv'. split; [done|].
  apply list_elem_of_In. apply list_elem_of_In in Hin.
  by apply List.filter_In in Hin as [? _].
Qed.

Lemma filter_twice {A : Type} (f g : A -> bool) (l : list A) :
  List.filter f (List.filter g l) = List.filter (fun x => g x && f x) l.
Proof.
  induction l as [|x l IH]; simpl; [done|].
  destruct (g x); simpl; [|done]. destruct (f x); by rewrite IH.
Qed.

Lemma sess_get_filter (f : string * Session -> bool) (k : string)
    (ss : list (string * Session)) :
  NoDup (ss.*1) ->
  sess_get k (List.filter f ss) =
    match sess_get k ss with
    | Some s => if f (k, s) then Some s else None
    | None => None
    end.
Proof.
  induction ss as [|[k' s'] ss IH]; simpl; intros Hnd; [done|].
  try rewrite fmap_cons in Hnd. apply NoDup_cons in Hnd as [Hk' Hnd]. simpl in Hk'.
  destruct (String.eqb_spec k k') as [->|Hne].
  - destruct (f (k', s')) eqn:Ef; simpl.
    + by rewrite String.eqb_refl.
    + rewrite IH by done. by apply sess_get_None in Hk' as ->.
  - destruct (f (k', s')); simpl; [|by apply IH].
    destruct (String.eqb_spec k k'); [done | by apply IH].
Qed.

Lemma expire_loop_general (seen : gset string) (now : Q) (gr : pyfloat)
    (items : list (string * Session)) :
  forall (ended : list Session) (cur : list (string * Session)),
    NoDup (cur.*1) ->
    expire_loop seen now gr items ended cur =
      ((ended ++ (List.filter (expired seen now gr) items).*2)%list,
       List.filter
         (fun kv => negb (bool_decide
            (kv.1 ∈ (List.filter (expired seen now gr) items).*1))) cur).
Proof.
  induction items as [|[k s] items IH]; intros ended cur Hnd.
  - simpl. rewrite app_nil_r. f_equal. symmetry. apply forallb_filter_id.
    apply forallb_forall. by intros kv _.
  - cbn [expire_loop List.filter].
    assert (E : expired seen now gr (k, s) =
                negb (bool_decide (k ∈ seen)) && ge_float (now - last_seen s) gr)
      by reflexivity.
    rewrite E. destruct (bool_decide (k ∈ seen)); simpl; [by apply IH|].
    destruct (ge_float (now - last_seen s) gr); [|by apply IH].
    rewrite IH by (rewrite sess_del_filter by done; by apply filter_keys_NoDup).
    rewrite sess_del_filter by done. rewrite filter_twice.
    rewrite !fmap_cons. simpl. rewrite <- app_assoc. simpl. f_equal.
    apply List.filter_ext. intros [k0 s0]. simpl.
    destruct (String.eqb_spec k k0) as [->|Hne]; simpl.
    + rewrite bool_decide_eq_true_2; [done | apply list_elem_of_here].
    + f_equal. apply bool_decide_ext. rewrite elem_of_cons. naive_solver.
Qed.

(** The expiry loop removes from the store exactly the entries that
    are [expired], and hands them over in store order. *)
Lemma expire_loop_filter (seen : gset string) (now : Q) (gr : pyfloat)
    (ss : list (string * Session)) :
  NoDup (ss.*1) ->
  expire_loop seen now gr ss [] ss =
    ((List.filter (expired seen now gr) ss).*2,
     List.filter (fun kv => negb (expired seen now gr kv)) ss).
Proof.
  intros Hnd. rewrite expire_loop_general by done. simpl. f_equal.
  apply List.filter_ext_in. intros [k s] Hin. f_equal.
  apply list_elem_of_In in Hin.
  destruct (expired seen now gr (k, s)) eqn:E.
  - apply bool_decide_eq_true_2. apply list_elem_of_fmap. exists (k, s).
    split; [done|]. apply list_elem_of_In, List.filter_In.
    split; [by apply list_elem_of_In | done].
  - apply bool_decide_eq_false_2. intros Hk.
    apply list_elem_of_fmap in Hk as ([k' s'] & Hk & Hin'). simpl in Hk. subst k'.
    apply list_elem_of_In, List.filter_In in Hin' as [Hin' E'].
    apply list_elem_of_In in Hin'.
    pose proof (sess_get_elem _ _ _ Hnd Hin) as H1.
    pose proof (sess_get_elem _ _ _ Hnd Hin') as H2.
    rewrite H1 in H2. injection H2 as <-. congruence.
Qed.

(** ** The history sort *)

Lemma insert_desc_Forall {A : Type} (P : Q * A -> Prop) (kx : Q) (x : A)
    (l : list (Q * A)) :
  Forall P (insert_desc kx x l) <-> P (kx, x) /\ Forall P l.
Proof.
  induction l as [|[ky y] l IH]; simpl.
  - rewrite Forall_singleton. split; [intros H; split; [done | constructor] | tauto].
  - destruct (Qle_bool ky kx).
    + by rewrite Forall_cons.
    + rewrite !Forall_cons, IH. tauto.
Qed.

Lemma insert_desc_perm {A : Type} (kx : Q) (x : A) (l : list (Q * A)) :
  insert_desc kx x l ≡ₚ (kx, x) :: l.
Proof.
  induction l as [|[ky y] l IH]; simpl; [done|].
  destruct (Qle_bool ky kx); [done|]. rewrite IH. apply Permutation_swap.
Qed.

Lemma insert_desc_sorted {A : Type} (kx : Q) (x : A) (l : list (Q * A)) :
  StronglySorted ranked_before l ->
  StronglySorted ranked_before (insert_desc kx x l).
Proof.
  induction 1 as [|[ky y] l Hs IH Hall]; simpl.
  - repeat constructor.
  - destruct (Qle_bool ky kx) eqn:E.
    + apply Qle_bool_iff in E. constructor; [by constructor|].
      constructor; [exact E|].
      eapply Forall_impl; [exact Hall|]. intros [kz z]. unfold ranked_before; simpl.
      intros Hz. by eapply Qle_trans.
    + constructor; [exact IH|]. apply insert_desc_Forall. split; [|done].
      unfold ranked_before; simpl. apply Qlt_le_weak, Qnot_le_lt.
      intros H. apply Qle_bool_iff in H. congruence.
Qed.

Lemma sort_desc_perm {A : Type} (l : list (Q * A)) : sort_desc l ≡ₚ l.
Proof.
  induction l as [|[kx x] l IH]; simpl; [done|].
  by rewrite insert_desc_perm, IH.
Qed.

Lemma sort_desc_sorted {A : Type} (l : list (Q * A)) :
  StronglySorted ranked_before (sort_desc l).
Proof.
  induction l as [|[kx x] l IH]; simpl; [constructor|].
  by apply insert_desc_sorted.
Qed.

Lemma StronglySorted_lookup {A : Type} (R : A -> A -> Prop) (l : list A) :
  StronglySorted R l ->
  forall (i j : nat) (x y : A),
    (i < j)%nat -> l !! i = Some x -> l !! j = Some y -> R x y.
Proof.
  induction 1 as [|a l Hs IH Hall]; intros i j x y Hij Hi Hj.
  - by rewrite lookup_nil in Hi.
  - destruct j as [|j]; [lia|]. simpl in Hj. destruct i as [|i]; simpl in Hi.
    + injection Hi as <-. rewrite Forall_forall in Hall.
      apply Hall. by eapply list_elem_of_lookup_2.
    + eapply IH; [|exact Hi | exact Hj]. lia.
Qed.

Lemma mapM_Ok {A B : Type} (f : A -> result B) (l : list A) (ys : list B) :
  mapM f l = Ok ys <-> Forall2 (fun x y => f x = Ok y) l ys.
Proof.
  revert ys. induction l as [|x l IH]; intros ys; simpl.
  - split; [intros [= <-]; constructor | by inversion 1].
  - split.
    + intros H. apply bind_Ok in H as (y & Hy & H).
      apply bind_Ok in H as (k & Hk & H). injection H as <-.
      constructor; [done | by apply IH].
    + inversion 1 as [|? y ? k Hy Hk]; subst. rewrite Hy. simpl.
      apply IH in Hk. rewrite Hk. done.
Qed.

Lemma sorted_by_duration_take (n : nat) (h : list json) :
  sorted_by_duration h -> sorted_by_duration (take n h).
Proof.
  intros Hs i j x y Hij Hi Hj.
  apply lookup_take_Some in Hi as [Hi _]. apply lookup_take_Some in Hj as [Hj _].
  by eapply Hs.
Qed.

(** The sort returns a permutation of the history, ranked by duration;
    it returns only if every entry is a dict. *)
Lemma sort_history_spec (h h' : list json) :
  sort_history h = Ok h' ->
  h' ≡ₚ h
  /\ sorted_by_duration h'
  /\ Forall (fun x => exists m, x = JObj m) h.
Proof.
  unfold sort_history. intros H. apply bind_Ok in H as (keys & Hkeys & H).
  apply mapM_Ok in Hkeys.
  assert (Hdict : Forall (fun x => exists m, x = JObj m) h).
  { clear H. induction Hkeys as [|x k h1 ks Hx _ IH]; constructor; [|done].
    unfold duration_key, dict_get in Hx. destruct x; try done. eauto. }
  destruct h as [|x0 [|x1 h]].
  - injection H as <-. split; [done|]. split; [|done].
    intros i j x y _ Hi. by rewrite lookup_nil in Hi.
  - injection H as <-. split; [done|]. split; [|done].
    intros i j x y Hij Hi Hj. destruct j as [|j]; [lia|].
    simpl in Hj. by rewrite lookup_nil in Hj.
  - set (h0 := x0 :: x1 :: h) in *.
    apply bind_Ok in H as (nums & Hnums & H). injection H as <-.
    apply mapM_Ok in Hnums.
    assert (Hlen : length nums = length h0).
    { apply Forall2_length in Hkeys, Hnums. lia. }
    assert (Hkeyed : Forall (fun p : Q * json => duration_of p.2 = Some p.1)
                            (zip nums h0)).
    { clear -Hkeys Hnums. revert nums Hnums.
      induction Hkeys as [|x k h1 ks Hx _ IH]; intros nums Hn.
      - inversion Hn; subst. constructor.
      - inversion Hn as [|? q ? qs Hq Hqs]; subst. simpl. constructor; [|by apply IH].
        simpl. unfold duration_key, dict_get in Hx. destruct x; try done.
        injection Hx as <-. unfold numeric_key in Hq. simpl.
        destruct (numeric (default (JInt 0) (m !! "duration_s"))); congruence. }
    split; [|split; [|done]].
    + rewrite sort_desc_perm. by rewrite snd_zip by lia.
    + intros i j x y Hij Hi Hj.
      apply list_lookup_fmap_Some in Hi as ([qx x'] & -> & Hi).
      apply list_lookup_fmap_Some in Hj as ([qy y'] & -> & Hj).
      pose proof (StronglySorted_lookup _ _ (sort_desc_sorted (zip nums h0))
                    i j _ _ Hij Hi Hj) as Hr.
      assert (Hk : Forall (fun p : Q * json => duration_of p.2 = Some p.1)
                          (sort_desc (zip nums h0))).
      { by rewrite sort_desc_perm. }
      rewrite Forall_forall in Hk.
      exists qx, qy. split; [|split].
      * by apply (Hk (qx, x')), list_elem_of_lookup_2 with i.
      * by apply (Hk (qy, y')), list_elem_of_lookup_2 with j.
      * exact Hr.
Qed.

(** ** One poll *)

Lemma ended_records_settings (wall : nat -> string) (a a' : App)
    (ended : list Session) :
  docker_port_map a' = docker_port_map a ->
  ended_records wall a' ended = ended_records wall a ended.
Proof.
  intros H. unfold ended_records, container_for_port. by rewrite H.
Qed.

Lemma slice_to_take {A : Type} (n : Z) (l : list A) :
  0 <= n -> slice_to n l = take (Z.to_nat n) l.
Proof. intros H. unfold slice_to. by rewrite (proj2 (Z.leb_le 0 n) H). Qed.

(** A poll that returns has run the row loop, the expiry loop and the
    history update to their end. With [sv] the surviving rows: the
    store is what tracking [sv] gives, less the expired entries; the
    counters were bumped once for each first sighting; the history is
    the old one with the ended records, sorted and cut. *)
Lemma update_sessions_spec (rows : list Row) (wall : nat -> string) (a : App)
    (watched_ports : list Z) (now : Q)
    (a' : App) (counts : gmap string Z) (active : list Session) :
  update_sessions rows wall a watched_ports now = Ok (a', counts, active) ->
  NoDup ((sessions a).*1) ->
  let sv := survivors a watched_ports rows in
  let seen := observed_keys a watched_ports rows in
  let tracked := track now (sessions a) sv in
  let firsts := first_sightings (tracked_keys (sessions a)) sv in
  let ended := (List.filter (expired seen now (grace (args a))) tracked).*2 in
  same_settings a a'
  /\ sessions a' =
       List.filter (fun kv => negb (expired seen now (grace (args a)) kv)) tracked
  /\ active = (sessions a').*2
  /\ counts = fold_left count_state sv ∅
  /\ port_hits_run a' = fold_left bump_run (row_dport <$> firsts) (port_hits_run a)
  /\ exists (st1 : gmap string json) (old sorted : list json),
       bump_lifetime_all (row_dport <$> firsts) (stats a) = Ok st1
       /\ py_list (default (JArr []) (stats a !! "ended_history")) = Ok old
       /\ sort_history (old ++ ended_records wall a ended) = Ok sorted
       /\ stats a' =
            <["ended_history" := JArr (slice_to (history_n (args a)) sorted)]> st1.
Proof.
  unfold update_sessions. intros Hu Hnd.
  apply bind_Ok in Hu as (p & Hp & Hu).
  apply visit_rows_spec in Hp. cbv zeta in Hp. simpl in Hp.
  destruct Hp as (Hset & Hss & Hseen & Hcnt & Hrun & Hlife).
  fold (survivors a watched_ports rows) in Hss, Hseen, Hcnt, Hrun, Hlife.
  assert (Hseen' : seen_keys p = observed_keys a watched_ports rows).
  { rewrite Hseen. unfold observed_keys. set_solver. }
  assert (Hnd' : NoDup ((sessions (pass_app p)).*1)).
  { rewrite Hss. by apply track_NoDup. }
  rewrite expire_loop_filter in Hu by done.
  apply bind_Ok in Hu as (old & Hold & Hu).
  apply bind_Ok in Hu as (sorted & Hsort & Hu).
  injection Hu as <- <- <-. simpl in *.
  destruct Hset as (Hargs & Hhp & Hha & Hm & Hla & Hdock).
  rewrite Hargs, Hseen', Hss in *. cbv zeta.
  split; [by unfold same_settings|].
  repeat split; try done.
  destruct (bump_lifetime_all_spec _ _ _ Hlife) as [Hframe _].
  exists (stats (pass_app p)), old, sorted.
  split; [done|]. split; [by rewrite <- Hframe|]. split; [|done].
  rewrite <- Hsort. f_equal. f_equal. by apply ended_records_settings.
Qed.

(** ** Filtering *)

Lemma filtered_out_survives (a : App) (w : gset Z) (r : Row) :
  filtered_out a w r <-> survives a w r = false.
Proof.
  unfold filtered_out, survives.
  rewrite !andb_false_iff, !negb_false_iff, !andb_true_iff, negb_true_iff.
  rewrite !bool_decide_eq_true, bool_decide_eq_false.
  rewrite String.eqb_eq, String.eqb_neq. tauto.
Qed.

Lemma visit_rows_app (w : gset Z) (now : Q) (rows1 rows2 : list Row) (p : Pass) :
  visit_rows w now p (rows1 ++ rows2) =
    p' ← visit_rows w now p rows1; visit_rows w now p' rows2.
Proof.
  revert p. induction rows1 as [|r rows1 IH]; intros p; simpl; [done|].
  destruct (visit_row w now p r) as [p1|e]; simpl; [apply IH | done].
Qed.

(** C4. A row is dropped by the loop, leaving the sessions, the
    counters, the seen keys and the state counts as they were, when
    its destination port is not watched, or its source is private
    while private sources are hidden, or its destination port is one of
    the admin ports 64295, 64294, 64297 while admin ports are hidden,
    or its state is not ESTABLISHED in EST mode. A poll gives the same
    result with or without such a row; in particular a row to an admin
    port is dropped even if that port is watched. *)
Theorem filtered_rows_are_discarded :
  (forall (w : gset Z) (now : Q) (p : Pass) (r : Row),
     filtered_out (pass_app p) w r -> visit_row w now p r = Ok p)
  /\ (forall (rows1 rows2 : list Row) (r : Row) (wall : nat -> string) (a : App)
             (watched_ports : list Z) (now : Q),
        filtered_out a (list_to_set watched_ports) r ->
        update_sessions (rows1 ++ r :: rows2) wall a watched_ports now =
        update_sessions (rows1 ++ rows2) wall a watched_ports now)
  /\ (forall (w : gset Z) (now : Q) (p : Pass) (r : Row),
        hide_admin (pass_app p) = true ->
        row_dport r = 64295 \/ row_dport r = 64294 \/ row_dport r = 64297 ->
        row_dport r ∈ w ->
        visit_row w now p r = Ok p).
Proof.
  assert (H1 : forall (w : gset Z) (now : Q) (p : Pass) (r : Row),
     filtered_out (pass_app p) w r -> visit_row w now p r = Ok p).
  { intros w now p r H. apply visit_row_discarded. by apply filtered_out_survives. }
  split; [exact H1|]. split.
  - intros rows1 rows2 r wall a wp now Hf. unfold update_sessions.
    f_equal. rewrite !visit_rows_app.
    destruct (visit_rows (list_to_set wp) now (mkPass a ∅ ∅) rows1) as [p1|e] eqn:E;
      simpl; [|done].
    apply visit_rows_spec in E as (Hset & _). simpl in Hset.
    rewrite H1; [done|].
    apply filtered_out_survives. rewrite (survives_settings a) by done.
    by apply filtered_out_survives.
  - intros w now p r Hh Hp _. apply H1. right. right. left. split; [done|].
    unfold DEFAULT_EXCLUDE_ADMIN_PORTS. set_solver.
Qed.

(** ** Expiry of a poll *)

Lemma observed_keys_elem (a : App) (wp : list Z) (rows : list Row) (k : string) :
  k ∈ observed_keys a wp rows <-> k ∈ flow_key <$> survivors a wp rows.
Proof. unfold observed_keys. by rewrite elem_of_list_to_set. Qed.

Lemma ge_float_spec (x : Q) (g : pyfloat) :
  ge_float x g = true <-> float_ge x g.
Proof.
  destruct g; simpl; [apply Qle_bool_iff | | |]; split; done.
Qed.

Lemma float_lt_not_ge (x : Q) (g : pyfloat) : float_lt x g -> ~ float_ge x g.
Proof.
  destruct g as [q| | |]; simpl; intros Hlt Hle; try done.
  by apply Qle_not_lt in Hle.
Qed.

Lemma expired_true (seen : gset string) (now : Q) (gr : pyfloat) (k : string)
    (s : Session) :
  expired seen now gr (k, s) = true <->
  (k ∉ seen) /\ float_ge (now - last_seen s) gr.
Proof.
  unfold expired. simpl.
  rewrite andb_true_iff, negb_true_iff, bool_decide_eq_false, ge_float_spec. tauto.
Qed.

(** The fate of a tracked session in a poll that returns. *)
Lemma expiry_of_poll (rows : list Row) (wall : nat -> string)
    (a : App) (watched_ports : list Z) (now : Q)
    (a' : App) (counts : gmap string Z) (active : list Session) :
  update_sessions rows wall a watched_ports now = Ok (a', counts, active) ->
  NoDup ((sessions a).*1) ->
  let seen := observed_keys a watched_ports rows in
  let gr := grace (args a) in
  let tracked := track now (sessions a) (survivors a watched_ports rows) in
  (forall k s, (k, s) ∈ List.filter (expired seen now gr) tracked ->
               sess_get k (sessions a) = Some s)
  /\ forall k s,
       sess_get k (sessions a) = Some s ->
       ((k, s) ∈ List.filter (expired seen now gr) tracked <->
          (k ∉ seen) /\ float_ge (now - last_seen s) gr)
       /\ (sess_get k (sessions a') = None <->
             (k ∉ seen) /\ float_ge (now - last_seen s) gr)
       /\ (k ∉ seen -> ~ float_ge (now - last_seen s) gr ->
             sess_get k (sessions a') = Some s).
Proof.
  intros Hu Hnd seen gr tracked.
  destruct (update_sessions_spec _ _ _ _ _ _ _ _ Hu Hnd) as (_ & Hss & _).
  fold seen gr tracked in Hss.
  assert (Hndt : NoDup (tracked.*1)) by by apply track_NoDup.
  assert (Hunseen : forall k, k ∉ seen -> sess_get k tracked = sess_get k (sessions a)).
  { intros k Hk. apply track_unobserved. by rewrite <- observed_keys_elem. }
  assert (Hfin : forall k s, (k, s) ∈ List.filter (expired seen now gr) tracked <->
                   sess_get k tracked = Some s /\ expired seen now gr (k, s) = true).
  { intros k s. rewrite list_elem_of_In, List.filter_In, <- list_elem_of_In.
    split; intros [H1 H2]; (split; [|done]).
    - by apply sess_get_elem.
    - by apply sess_get_Some. }
  split.
  - intros k s Hks. apply Hfin in Hks as [Hg He].
    apply expired_true in He as [Hk _]. by rewrite <- Hunseen.
  - intros k s Hg. rewrite Hss, sess_get_filter by done.
    destruct (decide (k ∈ seen)) as [Hk|Hk].
    + apply observed_keys_elem in Hk as Hk'.
      destruct (track_observed now (sessions a) _ k Hk') as (s' & Hs' & _).
      fold tracked in Hs'. rewrite Hs'.
      assert (He : expired seen now gr (k, s') = false).
      { unfold expired. simpl. by rewrite bool_decide_eq_true_2. }
      rewrite He. simpl. split; [|split]; try tauto.
      * rewrite Hfin. split; [|tauto]. intros [_ Hx].
        apply expired_true in Hx. tauto.
      * split; [done | tauto].
    + rewrite (Hunseen k Hk), Hg. split; [|split].
      * rewrite Hfin, (Hunseen k Hk), Hg, expired_true. tauto.
      * destruct (expired seen now gr (k, s)) eqn:He; simpl.
        -- apply expired_true in He. tauto.
        -- split; [done|]. intros Hc. apply expired_true in Hc. congruence.
      * intros _ Hlt. destruct (expired seen now gr (k, s)) eqn:He; simpl; [|done].
        apply expired_true in He as [_ He]. done.
Qed.

(** ** The records of the ended sessions *)

Lemma container_for_port_label (a : App) (port : Z) :
  container_label a port (container_for_port a port).
Proof.
  unfold container_label, container_for_port.
  destruct (docker_port_map a !! port) as [name|]; [|right; by split; [|left]].
  destruct (String.eqb_spec name "") as [->|Hne].
  - right. split; [done | by right].
  - by left.
Qed.

Lemma ended_record_is_record (wall : nat -> string) (a : App) (i : nat)
    (s : Session) :
  record_of wall a s
    (ended_record (wall i) (container_for_port a (dst_port s)) s).
Proof.
  unfold record_of, ended_record.
  eexists _, i, (container_for_port a (dst_port s)).
  split; [reflexivity|]. split.
  { rewrite !dom_insert_L, dom_empty_L. set_solver. }
  repeat (split; [by simplify_map_eq|]).
  split.
  { rewrite !lookup_insert_ne by done. rewrite lookup_insert_eq.
    unfold duration_s. by rewrite int_of_float_max0. }
  split; [by simplify_map_eq|]. apply container_for_port_label.
Qed.

Lemma imap_Forall2 {A B : Type} (P : A -> B -> Prop) (l : list A) :
  forall g : nat -> A -> B,
    (forall i x, P x (g i x)) -> Forall2 P l (imap g l).
Proof.
  induction l as [|x l IH]; intros g Hg; simpl; constructor; [done|].
  apply IH. intros i y. apply Hg.
Qed.

(** One record for each ended session, in their order. *)
Lemma ended_records_are_records (wall : nat -> string) (a : App)
    (ended : list Session) :
  Forall2 (record_of wall a) ended (ended_records wall a ended).
Proof.
  unfold ended_records. apply imap_Forall2. intros i s.
  apply ended_record_is_record.
Qed.

(** C1. In a poll that returns, a tracked session is removed from the
    store and entered in the history exactly when its key is not among
    the keys observed in the poll and [now - last_seen >= grace]; a
    session whose key is missing while [now - last_seen < grace] (or,
    more generally, while [now - last_seen >= grace] does not hold)
    stays in the store as it was. For each finalized session one
    record is made, carrying its endpoints, last state, duration and
    container; the records are appended to the old history, which is
    then sorted and cut, so that every finalized session has its
    record in the sorted history, and in the stored one whenever the
    capacity is not used up. *)
Theorem finalized_exactly_after_grace (rows : list Row) (wall : nat -> string)
    (a : App) (watched_ports : list Z) (now : Q)
    (a' : App) (counts : gmap string Z) (active : list Session) :
  update_sessions rows wall a watched_ports now = Ok (a', counts, active) ->
  NoDup ((sessions a).*1) ->
  let seen := observed_keys a watched_ports rows in
  let gr := grace (args a) in
  exists (finalized : list (string * Session)) (old recs sorted : list json),
    py_list (default (JArr []) (stats a !! "ended_history")) = Ok old
    /\ Forall2 (record_of wall a) (finalized.*2) recs
    /\ sort_history (old ++ recs) = Ok sorted
    /\ stats a' !! "ended_history" =
         Some (JArr (slice_to (history_n (args a)) sorted))
    /\ (forall k s, (k, s) ∈ finalized ->
          exists x, x ∈ sorted /\ record_of wall a s x)
    /\ (Z.of_nat (length (ended_history (stats a'))) < history_n (args a) ->
          ended_history (stats a') = sorted)
    /\ (forall k s, (k, s) ∈ finalized -> sess_get k (sessions a) = Some s)
    /\ forall k s,
         sess_get k (sessions a) = Some s ->
         ((k, s) ∈ finalized <->
            (k ∉ seen) /\ float_ge (now - last_seen s) gr)
         /\ (sess_get k (sessions a') = None <->
               (k ∉ seen) /\ float_ge (now - last_seen s) gr)
         /\ (k ∉ seen -> float_lt (now - last_seen s) gr ->
               sess_get k (sessions a') = Some s)
         /\ (k ∉ seen -> ~ float_ge (now - last_seen s) gr ->
               sess_get k (sessions a') = Some s).
Proof.
  intros Hu Hnd seen gr.
  destruct (update_sessions_spec _ _ _ _ _ _ _ _ Hu Hnd)
    as (_ & _ & _ & _ & _ & st1 & old & sorted & _ & Hold & Hsort & Hst).
  destruct (expiry_of_poll _ _ _ _ _ _ _ _ Hu Hnd) as [Hsub Hfate].
  set (finalized := List.filter (expired seen now gr)
         (track now (sessions a) (survivors a watched_ports rows))) in *.
  pose proof (ended_records_are_records wall a (finalized.*2)) as Hrecs.
  assert (Hstored : stats a' !! "ended_history" =
            Some (JArr (slice_to (history_n (args a)) sorted)))
    by by rewrite Hst, lookup_insert_eq.
  exists finalized, old, (ended_records wall a (finalized.*2)), sorted.
  split; [done|]. split; [done|]. split; [done|]. split; [done|].
  split; [|split; [|split; [exact Hsub|]]].
  - intros k s Hin.
    assert (Hs : s ∈ finalized.*2).
    { apply list_elem_of_fmap. by exists (k, s). }
    apply list_elem_of_lookup in Hs as (i & Hi).
    destruct (Forall2_lookup_l _ _ _ _ _ Hrecs Hi) as (x & Hx & Hrec).
    exists x. split; [|done].
    apply sort_history_spec in Hsort as (Hperm & _). rewrite Hperm.
    apply elem_of_app. right. by eapply list_elem_of_lookup_2.
  - unfold ended_history. rewrite Hstored. intros Hlt.
    assert (Hn : 0 <= history_n (args a)) by lia.
    rewrite slice_to_take in * by done.
    rewrite length_take in Hlt. apply take_ge. lia.
  - intros k s Hg. destruct (Hfate k s Hg) as (H1 & H2 & H3).
    split; [done|]. split; [done|]. split; [|done].
    intros Hk Hlt. apply H3; [done|]. by apply float_lt_not_ge.
Qed.

(** ** The history of a poll *)

Lemma update_sessions_history (rows : list Row) (wall : nat -> string) (a : App)
    (watched_ports : list Z) (now : Q)
    (a' : App) (counts : gmap string Z) (active : list Session) :
  update_sessions rows wall a watched_ports now = Ok (a', counts, active) ->
  exists (ended : list Session) (old sorted : list json),
    py_list (default (JArr []) (stats a !! "ended_history")) = Ok old
    /\ sort_history (old ++ ended_records wall a ended) = Ok sorted
    /\ stats a' !! "ended_history" =
         Some (JArr (slice_to (history_n (args a)) sorted)).
Proof.
  unfold update_sessions. intros Hu.
  apply bind_Ok in Hu as (p & Hp & Hu).
  apply visit_rows_spec in Hp. cbv zeta in Hp. simpl in Hp.
  destruct Hp as (Hset & _ & _ & _ & _ & Hlife).
  destruct (bump_lifetime_all_spec _ _ _ Hlife) as [Hframe _].
  destruct (expire_loop _ _ _ _ _ _) as [ended ss].
  apply bind_Ok in Hu as (old & Hold & Hu).
  apply bind_Ok in Hu as (sorted & Hsort & Hu).
  injection Hu as <- _ _. simpl in *.
  destruct Hset as (Hargs & _ & _ & _ & _ & Hdock).
  exists ended, old, sorted. rewrite Hframe in Hold by done.
  split; [done|]. split.
  - rewrite <- Hsort. f_equal. f_equal. symmetry. by apply ended_records_settings.
  - by rewrite lookup_insert_eq, Hargs.
Qed.


(** ** First sightings of a poll *)

Lemma lifetime_hits_history (h : json) (st : gmap string json) (port : Z) :
  lifetime_hits (<["ended_history" := h]> st) port = lifetime_hits st port.
Proof. unfold lifetime_hits. by rewrite lookup_insert_ne. Qed.

(** C3. In a poll that returns, every observed key has a session seen
    at [now] afterwards: one created at [now] from a row of the key if
    the key was not tracked, and otherwise the tracked one with only
    its state, timeout and [last_seen] rewritten. The run counter and
    the lifetime counter of a port grow by the number of first
    sightings on that port, each key counting once however many rows
    carry it; when every observed key was already tracked no counter
    moves. *)
Theorem first_sighting_counts_once (rows : list Row) (wall : nat -> string)
    (a : App) (watched_ports : list Z) (now : Q)
    (a' : App) (counts : gmap string Z) (active : list Session) :
  update_sessions rows wall a watched_ports now = Ok (a', counts, active) ->
  NoDup ((sessions a).*1) ->
  let sv := survivors a watched_ports rows in
  let seen := observed_keys a watched_ports rows in
  let firsts := first_sightings (tracked_keys (sessions a)) sv in
  (forall k, k ∈ seen ->
     exists s', sess_get k (sessions a') = Some s'
                /\ refreshed now sv k (sess_get k (sessions a)) s')
  /\ (forall port,
        run_hits (port_hits_run a') port =
          run_hits (port_hits_run a) port + new_on_port a watched_ports rows port)
  /\ (forall port,
        (new_on_port a watched_ports rows port = 0 ->
           lifetime_hits (stats a') port = lifetime_hits (stats a) port)
        /\ (0 < new_on_port a watched_ports rows port ->
            exists n0 : Z,
              py_int (default (JInt 0) (lifetime_hits (stats a) port)) = Ok n0
              /\ lifetime_hits (stats a') port =
                   Some (JInt (n0 + new_on_port a watched_ports rows port))))
  /\ NoDup (flow_key <$> firsts)
  /\ (forall r, r ∈ firsts -> r ∈ sv /\ sess_get (flow_key r) (sessions a) = None)
  /\ (forall k, k ∈ seen -> sess_get k (sessions a) = None ->
                k ∈ flow_key <$> firsts)
  /\ ((forall k, k ∈ seen -> is_Some (sess_get k (sessions a))) ->
      forall port, new_on_port a watched_ports rows port = 0).
Proof.
  intros Hu Hnd sv seen firsts.
  destruct (update_sessions_spec _ _ _ _ _ _ _ _ Hu Hnd)
    as (Hset & Hss & _ & _ & Hrun & st1 & old & sorted & Hlife & Hold & Hsort & Hst).
  fold sv seen firsts in Hss, Hrun, Hlife, Hsort.
  destruct (first_sightings_spec sv (tracked_keys (sessions a)))
    as (Hfnd & Hfsub & Hfall). fold firsts in Hfnd, Hfsub, Hfall.
  assert (Hnone : forall k, k ∉ tracked_keys (sessions a) <->
                            sess_get k (sessions a) = None).
  { intros k. rewrite sess_get_tracked. destruct (sess_get k (sessions a)).
    - split; [intros H; destruct H; eauto | done].
    - split; [done | intros _ [? ?]; done]. }
  split; [|split; [|split; [|split; [|split; [|split]]]]].
  - intros k Hk. apply observed_keys_elem in Hk as Hk'.
    destruct (track_observed now (sessions a) _ k Hk') as (s' & Hs' & Href).
    exists s'. split; [|done].
    rewrite Hss, sess_get_filter by by apply track_NoDup.
    fold sv in Hs'. rewrite Hs'.
    assert (He : expired seen now (grace (args a)) (k, s') = false).
    { unfold expired. simpl. by rewrite bool_decide_eq_true_2. }
    by rewrite He.
  - intros port. rewrite Hrun. apply bump_run_fold.
  - intros port. rewrite Hst, lifetime_hits_history.
    by apply bump_lifetime_all_spec.
  - done.
  - intros r Hr. destruct (Hfsub r Hr) as [? Hn]. split; [done | by apply Hnone].
  - intros k Hk Hg. apply Hfall; [by apply observed_keys_elem | by apply Hnone].
  - intros Hall port. unfold new_on_port. fold sv firsts.
    assert (Hf : firsts = []).
    { apply first_sightings_none. intros r Hr. apply sess_get_tracked, Hall.
      apply observed_keys_elem. apply list_elem_of_fmap. by exists r. }
    by rewrite Hf.
Qed.

(** ** The store along a run *)

Lemma filter_Forall {A : Type} (P : A -> Prop) (f : A -> bool) (l : list A) :
  Forall P l -> Forall P (List.filter f l).
Proof.
  induction 1 as [|x l Hx _ IH]; simpl; [constructor|].
  destruct (f x); [by constructor | done].
Qed.

Lemma poll_store_ok (rows : list Row) (wall : nat -> string) (a : App)
    (watched_ports : list Z) (now t0 : Q) (future : list Q)
    (a' : App) (counts : gmap string Z) (active : list Session) :
  update_sessions rows wall a watched_ports now = Ok (a', counts, active) ->
  store_ok t0 (now :: future) (sessions a) ->
  (forall t, In t future -> (now <= t)%Q) ->
  store_ok now future (sessions a').
Proof.
  intros Hu [Hnd Hall] Hfut.
  destruct (update_sessions_spec _ _ _ _ _ _ _ _ Hu Hnd) as (_ & Hss & _).
  rewrite Hss. split.
  - by apply filter_keys_NoDup, track_NoDup.
  - apply filter_Forall.
    apply (track_Forall (fun kv : string * Session =>
             (first_seen kv.2 <= last_seen kv.2)%Q
             /\ (last_seen kv.2 <= now)%Q
             /\ forall t, In t future -> (last_seen kv.2 <= t)%Q)).
    + eapply Forall_impl; [exact Hall|]. intros [k s]; simpl.
      intros (H1 & _ & H3). split; [done|]. split.
      * apply H3. by left.
      * intros t Ht. apply H3. by right.
    + intros r; simpl. split; [apply Qle_refl|]. split; [apply Qle_refl|]. exact Hfut.
    + intros k s r; simpl. intros (H1 & H2 & _).
      split; [by eapply Qle_trans|]. split; [apply Qle_refl | exact Hfut].
Qed.

Lemma step_sessions (a a' : App) (f f' : stats_file) (e : event) :
  step (a, f) e = Ok (a', f') ->
  match e with
  | Poll rows wall wp now =>
      exists counts active, update_sessions rows wall a wp now = Ok (a', counts, active)
  | _ => sessions a' = sessions a
  end.
Proof.
  destruct e as [rows wall wp now| | | |disk t|pm]; simpl.
  - intros H. apply bind_Ok in H as ([[a1 c] act] & Hu & H).
    injection H as <- _. by exists c, act.
  - by intros [= <- _].
  - by intros [= <- _].
  - by intros [= <- _].
  - unfold reset_lifetime_hits, save_stats, _atomic_write.
    destruct disk; simpl; [|done]. by intros [= <- _].
  - by intros [= <- _].
Qed.

(** Along a run whose polls come at non-decreasing times, the store
    stays a dict of sessions first seen no later than last seen, and
    last seen no later than any poll still to come. *)
Lemma run_store_ok (evs : list event) :
  forall (a a' : App) (f f' : stats_file) (t0 : Q) (future : list Q),
    run (a, f) evs = Ok (a', f') ->
    ascending (poll_times evs ++ future) ->
    store_ok t0 (poll_times evs ++ future) (sessions a) ->
    exists t1, store_ok t1 future (sessions a').
Proof.
  induction evs as [|e evs IH]; intros a a' f f' t0 future Hrun Hasc Hok.
  - injection Hrun as <- <-. by exists t0.
  - simpl in Hrun. apply bind_Ok in Hrun as ([a1 f1] & Hstep & Hrun).
    pose proof (step_sessions _ _ _ _ _ Hstep) as Hs.
    destruct e as [rows wall wp now| | | |disk t|pm]; simpl in Hasc, Hok;
      try (rewrite <- Hs in Hok; by eapply IH).
    destruct Hs as (c & act & Hu). destruct Hasc as [Hhd Hasc].
    eapply (IH a1 a' f1 f' now); [done | done |].
    by eapply poll_store_ok.
Qed.

(** C5. Take any run of the main loop from an empty store whose polls
    come at non-decreasing times, and one more poll at a time [now] not
    before them. Every session in the store after that poll was first
    seen no later than last seen, and its key was observed in the poll
    or [now - last_seen >= grace] does not hold; when the grace period
    is not NaN this means that [now - last_seen] is less than the
    grace period. *)
Theorem store_invariant (evs : list event) (a0 a1 : App) (f0 f1 : stats_file)
    (rows : list Row) (wall : nat -> string) (watched_ports : list Z) (now : Q)
    (a' : App) (counts : gmap string Z) (active : list Session) :
  sessions a0 = [] ->
  run (a0, f0) evs = Ok (a1, f1) ->
  ascending (poll_times evs ++ [now]) ->
  update_sessions rows wall a1 watched_ports now = Ok (a', counts, active) ->
  forall (k : string) (s : Session),
    sess_get k (sessions a') = Some s ->
    (first_seen s <= last_seen s)%Q
    /\ (k ∈ observed_keys a1 watched_ports rows
        \/ ~ float_ge (now - last_seen s) (grace (args a1)))
    /\ (grace (args a1) <> NaN ->
        k ∈ observed_keys a1 watched_ports rows
        \/ float_lt (now - last_seen s) (grace (args a1))).
Proof.
  intros H0 Hrun Hasc Hu k s Hg.
  assert (Hok0 : store_ok now (poll_times evs ++ [now]) (sessions a0)).
  { rewrite H0. split; constructor. }
  destruct (run_store_ok evs _ _ _ _ _ _ Hrun Hasc Hok0) as (t1 & Hok1).
  assert (Hok' : store_ok now [] (sessions a')).
  { eapply poll_store_ok; [exact Hu | exact Hok1 | intros ? []]. }
  destruct Hok1 as [Hnd1 _].
  assert (Hkeep : k ∈ observed_keys a1 watched_ports rows
                  \/ ~ float_ge (now - last_seen s) (grace (args a1))).
  { destruct (update_sessions_spec _ _ _ _ _ _ _ _ Hu Hnd1) as (_ & Hss & _).
    rewrite Hss, sess_get_filter in Hg by by apply track_NoDup.
    destruct (sess_get k (track now (sessions a1) (survivors a1 watched_ports rows)))
      as [s1|]; [|done].
    destruct (expired _ _ _ (k, s1)) eqn:He; simpl in Hg; [done|].
    injection Hg as ->.
    destruct (decide (k ∈ observed_keys a1 watched_ports rows)) as [Hk|Hk]; [by left|].
    right. intros Hge.
    assert (expired (observed_keys a1 watched_ports rows) now (grace (args a1)) (k, s) = true)
      by by apply expired_true.
    congruence. }
  split; [|split; [exact Hkeep|]].
  - destruct Hok' as [_ Hall]. rewrite Forall_forall in Hall.
    apply sess_get_Some in Hg. by destruct (Hall _ Hg) as [? _].
  - intros Hnan. destruct Hkeep as [Hk|Hn]; [by left|]. right.
    destruct (grace (args a1)) as [q| | |]; simpl in *; try done.
    by apply Qnot_le_lt.
Qed.

Lemma poll_NoDup (rows : list Row) (wall : nat -> string) (a : App)
    (watched_ports : list Z) (now : Q)
    (a' : App) (counts : gmap string Z) (active : list Session) :
  update_sessions rows wall a watched_ports now = Ok (a', counts, active) ->
  NoDup ((sessions a).*1) -> NoDup ((sessions a').*1).
Proof.
  intros Hu Hnd.
  destruct (update_sessions_spec _ _ _ _ _ _ _ _ Hu Hnd) as (_ & -> & _).
  by apply filter_keys_NoDup, track_NoDup.
Qed.

(** The store of a run that starts with a dict is a dict. *)
Lemma run_NoDup (evs : list event) :
  forall (a a' : App) (f f' : stats_file),
    run (a, f) evs = Ok (a', f') ->
    NoDup ((sessions a).*1) -> NoDup ((sessions a').*1).
Proof.
  induction evs as [|e evs IH]; intros a a' f f' Hrun Hnd.
  - by injection Hrun as <- <-.
  - simpl in Hrun. apply bind_Ok in Hrun as ([a1 f1] & Hstep & Hrun).
    pose proof (step_sessions _ _ _ _ _ Hstep) as Hs.
    eapply IH; [exact Hrun|].
    destruct e; try (by rewrite Hs).
    destruct Hs as (c & act & Hu). by eapply poll_NoDup.
Qed.

(** A session whose key stays away is kept, as it is, through every
    poll that comes before its grace period is over: it is finalized at
    the first poll at which the period has passed, not earlier. *)
Lemma run_keeps_awaited (evs : list event) :
  forall (a a' : App) (f f' : stats_file) (k : string) (s : Session),
    NoDup ((sessions a).*1) ->
    sess_get k (sessions a) = Some s ->
    awaits k s (a, f) evs ->
    run (a, f) evs = Ok (a', f') ->
    sess_get k (sessions a') = Some s.
Proof.
  induction evs as [|e evs IH]; intros a a' f f' k s Hnd Hg Haw Hrun.
  - by injection Hrun as <- <-.
  - simpl in Hrun. apply bind_Ok in Hrun as ([a1 f1] & Hstep & Hrun).
    simpl in Haw. rewrite Hstep in Haw. destruct Haw as [Hnow Haw].
    pose proof (step_sessions _ _ _ _ _ Hstep) as Hs.
    eapply (IH a1 a' f1 f'); [| |exact Haw|exact Hrun].
    + destruct e; try (by rewrite Hs).
      destruct Hs as (c & act & Hu). by eapply poll_NoDup.
    + destruct e; try (by rewrite Hs).
      destruct Hs as (c & act & Hu). simpl in Hnow. destruct Hnow as [Hk Hlt].
      destruct (expiry_of_poll _ _ _ _ _ _ _ _ Hu Hnd) as [_ Hfate].
      destruct (Hfate k s Hg) as (_ & _ & Hstay).
      apply Hstay; [done|]. by apply float_lt_not_ge.
Qed.

(** ** A poll on a well-shaped document returns *)

Lemma bump_lifetime_total (p : Z) (st : gmap string json) :
  counters_ok st ->
  exists st', bump_lifetime p st = Ok st'
              /\ counters_ok st'
              /\ st' !! "ended_history" = st !! "ended_history".
Proof.
  intros (m & Hm & Hints).
  assert (Hn : exists n, py_int (default (JInt 0) (m !! py_str p)) = Ok n).
  { destruct (m !! py_str p) as [v|] eqn:E; simpl; [|by exists 0].
    destruct (Hints _ _ E) as (z & ->). by exists z. }
  destruct Hn as (n & Hn).
  eexists. split; [apply bump_lifetime_Ok; by exists m, n|]. split.
  - exists (<[py_str p := JInt (n + 1)]> m). rewrite lookup_insert_eq.
    split; [done|]. intros k v Hk.
    apply lookup_insert_Some in Hk as [[_ <-]|[_ Hk]]; [by eexists | by eapply Hints].
  - by rewrite lookup_insert_ne.
Qed.

Lemma visit_row_total (w : gset Z) (now : Q) (p : Pass) (r : Row) :
  counters_ok (stats (pass_app p)) ->
  exists p', visit_row w now p r = Ok p'
             /\ counters_ok (stats (pass_app p'))
             /\ stats (pass_app p') !! "ended_history" =
                  stats (pass_app p) !! "ended_history".
Proof.
  intros Hc. destruct (survives (pass_app p) w r) eqn:E.
  - rewrite visit_row_survives by done. cbv zeta.
    destruct (sess_get (flow_key r) (sessions (pass_app p))).
    + eexists. split; [reflexivity|]. by simpl.
    + destruct (bump_lifetime_total (row_dport r) _ Hc) as (st' & Hb & Hc' & Hh).
      rewrite Hb. simpl. eexists. split; [reflexivity|]. by simpl.
  - rewrite visit_row_discarded by done. by exists p.
Qed.

Lemma visit_rows_total (w : gset Z) (now : Q) (rows : list Row) :
  forall p : Pass,
    counters_ok (stats (pass_app p)) ->
    exists p', visit_rows w now p rows = Ok p'
               /\ counters_ok (stats (pass_app p'))
               /\ stats (pass_app p') !! "ended_history" =
                    stats (pass_app p) !! "ended_history".
Proof.
  induction rows as [|r rows IH]; intros p Hc; simpl.
  - by exists p.
  - destruct (visit_row_total w now p r Hc) as (p1 & -> & Hc1 & Hh1). simpl.
    destruct (IH p1 Hc1) as (p' & -> & Hc' & Hh'). exists p'.
    split; [done|]. split; [done | congruence].
Qed.

Lemma ended_records_ranked (wall : nat -> string) (a : App) (ended : list Session) :
  Forall (fun x => is_Some (duration_of x)) (ended_records wall a ended).
Proof.
  apply Forall_forall. intros x Hx. unfold ended_records in Hx.
  apply elem_of_lookup_imap in Hx as (i & sess & -> & _).
  unfold ended_record, duration_of. by simplify_map_eq.
Qed.

Lemma sort_history_total (h : list json) :
  Forall (fun x => is_Some (duration_of x)) h ->
  exists h', sort_history h = Ok h'.
Proof.
  intros Hall.
  assert (Hk : exists keys nums,
            Forall2 (fun x y => duration_key x = Ok y) h keys
            /\ Forall2 (fun x y => numeric_key x = Ok y) keys nums).
  { induction Hall as [|x h [q Hq] _ (keys & nums & H1 & H2)].
    - exists [], []. split; constructor.
    - unfold duration_of in Hq. destruct x; try done.
      exists (default (JInt 0) (m !! "duration_s") :: keys), (q :: nums).
      split; constructor; try done. unfold numeric_key. by rewrite Hq. }
  destruct Hk as (keys & nums & H1 & H2).
  apply mapM_Ok in H1, H2. unfold sort_history. rewrite H1. simpl.
  destruct h as [|x0 [|x1 h]]; [by eexists | by eexists |].
  rewrite H2. simpl. by eexists.
Qed.

(** A poll on a document whose counters and history have the shape the
    program writes does not raise, and leaves such a document. *)
Lemma update_sessions_returns (rows : list Row) (wall : nat -> string) (a : App)
    (watched_ports : list Z) (now : Q) :
  well_shaped (stats a) ->
  exists a' counts active,
    update_sessions rows wall a watched_ports now = Ok (a', counts, active)
    /\ well_shaped (stats a').
Proof.
  intros [Hc (h & Hh & Hr)]. unfold update_sessions.
  destruct (visit_rows_total (list_to_set watched_ports) now rows (mkPass a ∅ ∅) Hc)
    as (p & -> & Hc' & Hhist). simpl in Hhist. simpl.
  destruct (expire_loop _ _ _ _ _ _) as [ended ss]. simpl.
  rewrite Hhist, Hh. simpl.
  set (recs := ended_records wall _ ended).
  assert (Hall : Forall (fun x => is_Some (duration_of x)) (h ++ recs)).
  { apply Forall_app. split; [done | apply ended_records_ranked]. }
  destruct (sort_history_total _ Hall) as (sorted & Hs). rewrite Hs. simpl.
  do 3 eexists. split; [reflexivity|]. simpl. split.
  - destruct Hc' as (m & Hm & Hints). exists m. by rewrite lookup_insert_ne.
  - eexists. rewrite lookup_insert_eq. split; [reflexivity|].
    apply sort_history_spec in Hs as (Hperm & _).
    assert (Hsorted : Forall (fun x => is_Some (duration_of x)) sorted)
      by by rewrite Hperm.
    rewrite Forall_forall in Hsorted. apply Forall_forall. intros x Hx.
    apply Hsorted. unfold slice_to in Hx.
    destruct (0 <=? history_n (args (pass_app p)))%Z;
      eapply (subseteq_take _ sorted); exact Hx.
Qed.

Lemma new_stats_well_shaped (t1 t2 : string) (notes : list json) :
  well_shaped (new_stats t1 t2 notes).
Proof.
  destruct (new_stats_lookup t1 t2 notes) as (_ & _ & _ & _ & _ & Hl & Hh).
  split.
  - exists ∅. rewrite Hl. split; [done|]. intros k v Hk. by rewrite lookup_empty in Hk.
  - exists []. rewrite Hh. split; [done | constructor].
Qed.

Lemma step_returns (a : App) (f : stats_file) (e : event) :
  well_shaped (stats a) -> writes_ok e ->
  exists a' f', step (a, f) e = Ok (a', f') /\ well_shaped (stats a').
Proof.
  intros Hw He. destruct e as [rows wall wp now| | | |disk t|pm]; simpl.
  - destruct (update_sessions_returns rows wall a wp now Hw)
      as (a' & c & act & -> & Hw').
    simpl. by exists a', f.
  - by eexists _, _.
  - by eexists _, _.
  - by eexists _, _.
  - simpl in He. subst disk. unfold reset_lifetime_hits, save_stats, _atomic_write.
    simpl. eexists _, _. split; [reflexivity|]. simpl.
    destruct Hw as [_ (h & Hh & Hr)]. split.
    + exists ∅. rewrite !lookup_insert_ne, lookup_insert_eq by done.
      split; [done|]. intros k v Hk. by rewrite lookup_empty in Hk.
    + exists h. by rewrite !lookup_insert_ne.
  - by eexists _, _.
Qed.

(** From a document of the shape the program writes, a run of the main
    loop whose resets find the disk writable does not raise: every
    poll of it returns. *)
Lemma run_returns (evs : list event) :
  forall (a : App) (f : stats_file),
    well_shaped (stats a) -> Forall writes_ok evs ->
    exists a' f', run (a, f) evs = Ok (a', f') /\ well_shaped (stats a').
Proof.
  induction evs as [|e evs IH]; intros a f Hw Hev.
  - by exists a, f.
  - apply Forall_cons in Hev as [He Hev].
    destruct (step_returns a f e Hw He) as (a1 & f1 & Hs & Hw1).
    destruct (IH a1 f1 Hw1 Hev) as (a' & f' & Hr & Hw').
    exists a', f'. split; [|done].
    change (step (a, f) e ≫= (fun w' => run w' evs) = Ok (a', f')).
    by rewrite Hs.
Qed.

(** * Further properties *)

(** ** What a poll returns besides the store *)

Lemma update_sessions_loop (rows : list Row) (wall : nat -> string) (a : App)
    (watched_ports : list Z) (now : Q)
    (a' : App) (counts : gmap string Z) (active : list Session) :
  update_sessions rows wall a watched_ports now = Ok (a', counts, active) ->
  let sv := survivors a watched_ports rows in
  let firsts := first_sightings (tracked_keys (sessions a)) sv in
  same_settings a a'
  /\ counts = fold_left count_state sv ∅
  /\ port_hits_run a' = fold_left bump_run (row_dport <$> firsts) (port_hits_run a)
  /\ exists st1 : gmap string json,
       bump_lifetime_all (row_dport <$> firsts) (stats a) = Ok st1
       /\ (forall port, lifetime_hits (stats a') port = lifetime_hits st1 port)
       /\ (forall k, k <> "ended_history" -> stats a' !! k = st1 !! k).
Proof.
  unfold update_sessions. intros Hu.
  apply bind_Ok in Hu as (p & Hp & Hu).
  apply visit_rows_spec in Hp. cbv zeta in Hp. simpl in Hp.
  destruct Hp as (Hset & _ & _ & Hcnt & Hrun & Hlife).
  fold (survivors a watched_ports rows) in Hcnt, Hrun, Hlife.
  destruct (expire_loop _ _ _ _ _ _) as [ended ss].
  apply bind_Ok in Hu as (old & Hold & Hu).
  apply bind_Ok in Hu as (sorted & Hsort & Hu).
  injection Hu as <- <- _. simpl in *. cbv zeta.
  split; [by destruct Hset as (?&?&?&?&?&?)|].
  split; [done|]. split; [done|].
  exists (stats (pass_app p)). split; [done|]. split.
  - intros port. apply lifetime_hits_history.
  - intros k Hk. by rewrite lookup_insert_ne.
Qed.

Lemma state_hits_cons (st : string) (r : Row) (rs : list Row) :
  state_hits st (r :: rs) =
    (if String.eqb (row_state r) st then 1 else 0) + state_hits st rs.
Proof.
  unfold state_hits. simpl. destruct (String.eqb (row_state r) st); simpl; lia.
Qed.

Lemma count_state_fold (rs : list Row) (m : gmap string Z) (st : string) :
  default 0 (fold_left count_state rs m !! st) = default 0 (m !! st) + state_hits st rs
  /\ (fold_left count_state rs m !! st = None <->
        m !! st = None /\ state_hits st rs = 0).
Proof.
  revert m. induction rs as [|r rs IH]; intros m.
  - unfold state_hits. simpl. split; [lia | tauto].
  - simpl. destruct (IH (count_state m r)) as [IH1 IH2].
    rewrite IH1, IH2, state_hits_cons. unfold count_state.
    assert (Hnn : 0 <= state_hits st rs) by (unfold state_hits; lia).
    destruct (String.eqb_spec (row_state r) st) as [Heq|Hne].
    + rewrite Heq, lookup_insert_eq. simpl. split; [lia|].
      split; [intros [? _]; done | intros [_ ?]; lia].
    + rewrite lookup_insert_ne by done. split; [lia | tauto].
Qed.

(** X1. The state counts a poll returns are those of the rows it did
    not filter out: for every state, the count is the number of
    surviving rows in that state (rows of one flow counted each time),
    and a state has no entry exactly when no surviving row is in it. *)
Theorem state_counts_of_poll (rows : list Row) (wall : nat -> string)
    (a : App) (watched_ports : list Z) (now : Q)
    (a' : App) (counts : gmap string Z) (active : list Session) :
  update_sessions rows wall a watched_ports now = Ok (a', counts, active) ->
  forall st : string,
    default 0 (counts !! st) = state_hits st (survivors a watched_ports rows)
    /\ (counts !! st = None <-> state_hits st (survivors a watched_ports rows) = 0).
Proof.
  intros Hu st. destruct (update_sessions_loop _ _ _ _ _ _ _ _ Hu) as (_ & -> & _).
  destruct (count_state_fold (survivors a watched_ports rows) ∅ st) as [H1 H2].
  rewrite H1, H2, lookup_empty. simpl. split; [lia | tauto].
Qed.

(** ** Counters along a run *)

Lemma step_counters (a a' : App) (f f' : stats_file) (e : event) :
  step (a, f) e = Ok (a', f') ->
  match e with
  | Poll rows wall wp now =>
      exists counts active, update_sessions rows wall a wp now = Ok (a', counts, active)
  | KeyReset _ _ => port_hits_run a' = port_hits_run a
  | _ => port_hits_run a' = port_hits_run a /\ stats a' = stats a
  end.
Proof.
  destruct e as [rows wall wp now| | | |disk t|pm]; simpl.
  - intros H. apply bind_Ok in H as ([[a1 c] act] & Hu & H).
    injection H as <- _. by exists c, act.
  - by intros [= <- _].
  - by intros [= <- _].
  - by intros [= <- _].
  - unfold reset_lifetime_hits, save_stats, _atomic_write.
    destruct disk; simpl; [|done]. by intros [= <- _].
  - by intros [= <- _].
Qed.

Lemma run_counters_le (evs : list event) :
  forall (a a' : App) (f f' : stats_file),
    run (a, f) evs = Ok (a', f') ->
    forall port : Z,
      run_hits (port_hits_run a) port <= run_hits (port_hits_run a') port.
Proof.
  induction evs as [|e evs IH]; intros a a' f f' Hrun port.
  - injection Hrun as <- <-. lia.
  - simpl in Hrun. apply bind_Ok in Hrun as ([a1 f1] & Hstep & Hrun).
    specialize (IH _ _ _ _ Hrun port).
    pose proof (step_counters _ _ _ _ _ Hstep) as Hs.
    assert (H1 : run_hits (port_hits_run a) port <= run_hits (port_hits_run a1) port).
    { destruct e as [rows wall wp now| | | |disk t|pm].
      - destruct Hs as (c & act & Hu).
        destruct (update_sessions_loop _ _ _ _ _ _ _ _ Hu) as (_ & _ & Hr & _).
        rewrite Hr, bump_run_fold.
        pose proof (hits_on_nonneg port
          (first_sightings (tracked_keys (sessions a)) (survivors a wp rows))).
        lia.
      - destruct Hs as [Hs _]. rewrite Hs. lia.
      - destruct Hs as [Hs _]. rewrite Hs. lia.
      - destruct Hs as [Hs _]. rewrite Hs. lia.
      - rewrite Hs. lia.
      - destruct Hs as [Hs _]. rewrite Hs. lia. }
    lia.
Qed.

Lemma run_counters_without_poll (evs : list event) :
  forall (a a' : App) (f f' : stats_file),
    run (a, f) evs = Ok (a', f') ->
    poll_times evs = [] ->
    port_hits_run a' = port_hits_run a.
Proof.
  induction evs as [|e evs IH]; intros a a' f f' Hrun Hnp.
  - by injection Hrun as <- <-.
  - simpl in Hrun. apply bind_Ok in Hrun as ([a1 f1] & Hstep & Hrun).
    pose proof (step_counters _ _ _ _ _ Hstep) as Hs.
    destruct e as [rows wall wp now| | | |disk t|pm]; simpl in Hnp; [done|..];
      rewrite (IH _ _ _ _ Hrun Hnp); try (by destruct Hs); done.
Qed.

(** X2. Over any run of the main loop that does not raise (polls,
    toggles, the reset key, docker refreshes) the per-run hit counter
    of a port never decreases. Only polls move the per-run counters: a
    run without polls, whatever toggles and resets it has, leaves them
    as they were; in particular the reset key, pressed after the run,
    empties the lifetime counters and leaves the per-run counters
    untouched. *)
Theorem run_counters_never_decrease (evs : list event) :
  forall (a a' : App) (f f' : stats_file),
    run (a, f) evs = Ok (a', f') ->
    (forall port : Z,
       run_hits (port_hits_run a) port <= run_hits (port_hits_run a') port)
    /\ (poll_times evs = [] -> port_hits_run a' = port_hits_run a)
    /\ (forall (disk_ok : bool) (t_now : string) (a2 : App) (f2 : stats_file),
          step (a', f') (KeyReset disk_ok t_now) = Ok (a2, f2) ->
          port_hits_run a2 = port_hits_run a'
          /\ stats a2 !! "lifetime_port_hits" = Some (JObj ∅)).
Proof.
  intros a a' f f' Hrun. split; [|split].
  - by eapply run_counters_le.
  - by eapply run_counters_without_poll.
  - intros disk_ok t_now a2 f2. simpl.
    unfold reset_lifetime_hits, save_stats, _atomic_write.
    destruct disk_ok; simpl; [|done]. intros [= <- _]. simpl.
    split; [done|]. by simplify_map_eq.
Qed.

Lemma poll_lifetime_and_run (rows : list Row) (wall : nat -> string) (a : App)
    (watched_ports : list Z) (now : Q)
    (a' : App) (counts : gmap string Z) (active : list Session) (port : Z) :
  update_sessions rows wall a watched_ports now = Ok (a', counts, active) ->
  exists h : Z,
    0 <= h
    /\ run_hits (port_hits_run a') port = run_hits (port_hits_run a) port + h
    /\ (h = 0 -> lifetime_hits (stats a') port = lifetime_hits (stats a) port)
    /\ (0 < h ->
        exists n0 : Z,
          py_int (default (JInt 0) (lifetime_hits (stats a) port)) = Ok n0
          /\ lifetime_hits (stats a') port = Some (JInt (n0 + h))).
Proof.
  intros Hu.
  destruct (update_sessions_loop _ _ _ _ _ _ _ _ Hu)
    as (_ & _ & Hrun & st1 & Hlife & Hsame & _).
  set (firsts := first_sightings _ _) in *.
  exists (hits_on port firsts). split; [apply hits_on_nonneg|].
  split; [rewrite Hrun; apply bump_run_fold|].
  rewrite Hsame. by apply bump_lifetime_all_spec.
Qed.

(** X3. Over a run of the main loop without the reset key, started
    with empty per-run counters: a port with no hit in the run keeps
    its lifetime entry as loaded, and a port with hits has
    [int(loaded) + run hits] as its lifetime counter. *)
Theorem lifetime_is_baseline_plus_run (evs : list event) :
  forall (a0 a' : App) (f f' : stats_file),
    port_hits_run a0 = ∅ ->
    Forall not_reset evs ->
    run (a0, f) evs = Ok (a', f') ->
    forall port : Z,
      0 <= run_hits (port_hits_run a') port
      /\ (run_hits (port_hits_run a') port = 0 ->
          lifetime_hits (stats a') port = lifetime_hits (stats a0) port)
      /\ (0 < run_hits (port_hits_run a') port ->
          exists n0 : Z,
            py_int (default (JInt 0) (lifetime_hits (stats a0) port)) = Ok n0
            /\ lifetime_hits (stats a') port =
                 Some (JInt (n0 + run_hits (port_hits_run a') port))).
Proof.
  intros a0 a' f f' H0 Hnr Hrun port.
  assert (Hgen : forall evs (a a' : App) (f f' : stats_file),
    Forall not_reset evs ->
    run (a, f) evs = Ok (a', f') ->
    (0 <= run_hits (port_hits_run a) port
     /\ (run_hits (port_hits_run a) port = 0 ->
         lifetime_hits (stats a) port = lifetime_hits (stats a0) port)
     /\ (0 < run_hits (port_hits_run a) port ->
         exists n0 : Z,
           py_int (default (JInt 0) (lifetime_hits (stats a0) port)) = Ok n0
           /\ lifetime_hits (stats a) port =
                Some (JInt (n0 + run_hits (port_hits_run a) port)))) ->
    (0 <= run_hits (port_hits_run a') port
     /\ (run_hits (port_hits_run a') port = 0 ->
         lifetime_hits (stats a') port = lifetime_hits (stats a0) port)
     /\ (0 < run_hits (port_hits_run a') port ->
         exists n0 : Z,
           py_int (default (JInt 0) (lifetime_hits (stats a0) port)) = Ok n0
           /\ lifetime_hits (stats a') port =
                Some (JInt (n0 + run_hits (port_hits_run a') port))))).
  { clear. intros evs. induction evs as [|e evs IH]; intros a a' f f' Hnr Hrun Hinv.
    - by injection Hrun as <- <-.
    - simpl in Hrun. apply bind_Ok in Hrun as ([a1 f1] & Hstep & Hrun).
      apply Forall_cons in Hnr as [He Hnr].
      eapply IH; [exact Hnr | exact Hrun |].
      pose proof (step_counters _ _ _ _ _ Hstep) as Hs.
      destruct e as [rows wall wp now| | | |disk t|pm]; try done;
        try (destruct Hs as [Hs1 Hs2]; rewrite Hs1, Hs2; exact Hinv).
      destruct Hs as (c & act & Hu).
      destruct (poll_lifetime_and_run _ _ _ _ _ _ _ _ port Hu)
        as (h & Hh & Hrun' & Hz & Hp).
      destruct Hinv as (Hnn & Hinv0 & Hinvp).
      rewrite Hrun'. split; [lia|]. split.
      + intros Hsum. rewrite Hz by lia. apply Hinv0. lia.
      + intros Hsum. destruct (decide (h = 0)) as [->|Hh0].
        * rewrite Hz by done. destruct Hinvp as (n0 & Hn0 & ->); [lia|].
          exists n0. split; [done|]. do 2 f_equal. lia.
        * destruct Hp as (n1 & Hn1 & ->); [lia|].
          destruct (decide (run_hits (port_hits_run a) port = 0)) as [Hr0|Hr0].
          -- rewrite Hinv0 in Hn1 by done. exists n1. split; [done|].
             do 2 f_equal. lia.
          -- destruct Hinvp as (n0 & Hn0 & Hl); [lia|]. rewrite Hl in Hn1.
             simpl in Hn1. injection Hn1 as <-. exists n0. split; [done|].
             do 2 f_equal. lia. }
  eapply Hgen; [exact Hnr | exact Hrun |].
  rewrite H0. unfold run_hits. rewrite lookup_empty. simpl.
  split; [lia|]. split; [done | lia].
Qed.

(** ** The size of the history *)

(** X4. After a poll with a capacity [history_n >= 0] the stored
    history has [min(history_n, old + ended)] entries, [ended] being
    the sessions this poll finalizes; while the capacity is not
    exceeded, nothing is lost: the stored history is a rearrangement of
    the old entries and the new records. *)
Theorem history_size_after_poll (rows : list Row) (wall : nat -> string)
    (a : App) (watched_ports : list Z) (now : Q)
    (a' : App) (counts : gmap string Z) (active : list Session) :
  update_sessions rows wall a watched_ports now = Ok (a', counts, active) ->
  NoDup ((sessions a).*1) ->
  0 <= history_n (args a) ->
  let seen := observed_keys a watched_ports rows in
  let tracked := track now (sessions a) (survivors a watched_ports rows) in
  let ended := (List.filter (expired seen now (grace (args a))) tracked).*2 in
  exists old : list json,
    py_list (default (JArr []) (stats a !! "ended_history")) = Ok old
    /\ Z.of_nat (length (ended_history (stats a'))) =
         Z.min (history_n (args a)) (Z.of_nat (length old + length ended))
    /\ (Z.of_nat (length old + length ended) <= history_n (args a) ->
        ended_history (stats a') ≡ₚ old ++ ended_records wall a ended).
Proof.
  intros Hu Hnd Hn seen tracked ended.
  destruct (update_sessions_spec _ _ _ _ _ _ _ _ Hu Hnd)
    as (_ & _ & _ & _ & _ & st1 & old & sorted & _ & Hold & Hsort & Hst).
  fold seen tracked ended in Hsort.
  apply sort_history_spec in Hsort as (Hperm & _ & _).
  assert (Hh : ended_history (stats a') = take (Z.to_nat (history_n (args a))) sorted).
  { unfold ended_history. rewrite Hst, lookup_insert_eq. by apply slice_to_take. }
  assert (Hlen : length sorted = (length old + length ended)%nat).
  { rewrite Hperm, length_app. f_equal. unfold ended_records. by rewrite length_imap. }
  exists old. split; [done|]. rewrite Hh. split.
  - rewrite length_take, Hlen. lia.
  - intros Hfit. rewrite take_ge by lia. exact Hperm.
Qed.

(** ** Loading a document that parses *)

(** X5. [load_stats] on a file holding a JSON object keeps every key
    of the file but [version], which it sets to [VERSION]; of the keys
    [notes], [lifetime_port_hits], [ended_history] and [theme] it adds
    the missing ones with their defaults, and it adds no other key. *)
Theorem load_stats_keeps_fields (d : gmap string json) (t1 t2 : string) :
  let d' := load_stats (Parsed (JObj d)) t1 t2 in
  d' !! "version" = Some (JStr VERSION)
  /\ (forall k v, k <> "version" -> d !! k = Some v -> d' !! k = Some v)
  /\ (d !! "notes" = None -> d' !! "notes" = Some (JArr []))
  /\ (d !! "lifetime_port_hits" = None -> d' !! "lifetime_port_hits" = Some (JObj ∅))
  /\ (d !! "ended_history" = None -> d' !! "ended_history" = Some (JArr []))
  /\ (d !! "theme" = None -> d' !! "theme" = Some (JStr THEMES_0))
  /\ (forall k, d !! k = None ->
        k <> "version" -> k <> "notes" -> k <> "lifetime_port_hits" ->
        k <> "ended_history" -> k <> "theme" -> d' !! k = None).
Proof.
  simpl. split; [by rewrite lookup_insert_eq|]. split; [|split; [|split; [|split; [|split]]]].
  - intros k v Hk Hv. rewrite lookup_insert_ne by done.
    rewrite !setdefault_lookup. repeat case_decide; subst; by rewrite ?Hv.
  - intros H. rewrite lookup_insert_ne by done.
    rewrite !setdefault_lookup. repeat case_decide; try done; by rewrite ?H.
  - intros H. rewrite lookup_insert_ne by done.
    rewrite !setdefault_lookup. repeat case_decide; try done; by rewrite ?H.
  - intros H. rewrite lookup_insert_ne by done.
    rewrite !setdefault_lookup. repeat case_decide; try done; by rewrite ?H.
  - intros H. rewrite lookup_insert_ne by done.
    rewrite !setdefault_lookup. repeat case_decide; try done; by rewrite ?H.
  - intros k H ? ? ? ? ?. rewrite lookup_insert_ne by done.
    rewrite !setdefault_lookup. repeat case_decide; by subst.
Qed.

(** ** Polling the same snapshot again *)

Lemma entry_after_cons (now : Q) (o : option Session) (r : Row) (rs : list Row) :
  entry_after now o (r :: rs) = entry_after now (entry_step now o r) rs.
Proof. reflexivity. Qed.

Lemma sess_get_track (now : Q) (sv : list Row) (k : string) :
  forall ss : list (string * Session),
    sess_get k (track now ss sv) =
      entry_after now (sess_get k ss) (rows_of_key k sv).
Proof.
  induction sv as [|r sv IH]; intros ss; [done|].
  change (track now ss (r :: sv)) with (track now (track_row now ss r) sv).
  rewrite IH, sess_get_track_row. unfold rows_of_key. simpl.
  rewrite (String.eqb_sym (flow_key r) k).
  destruct (String.eqb_spec k (flow_key r)) as [->|Hne]; [|done].
  by rewrite entry_after_cons.
Qed.

Lemma track_keys (now : Q) (sv : list Row) :
  forall ss : list (string * Session),
    (track now ss sv).*1 =
      (ss.*1 ++ (flow_key <$> first_sightings (tracked_keys ss) sv))%list.
Proof.
  induction sv as [|r sv IH]; intros ss.
  - simpl. by rewrite app_nil_r.
  - change (track now ss (r :: sv)) with (track now (track_row now ss r) sv).
    rewrite IH, tracked_keys_track_row. simpl. unfold track_row.
    destruct (sess_get (flow_key r) ss) as [s|] eqn:E.
    + assert (Hk : flow_key r ∈ tracked_keys ss) by (apply sess_get_tracked; eauto).
      rewrite bool_decide_eq_true_2 by done. rewrite sess_replace_keys.
      assert (Hu : {[flow_key r]} ∪ tracked_keys ss = tracked_keys ss) by set_solver.
      by rewrite Hu.
    + assert (Hk : flow_key r ∉ tracked_keys ss).
      { rewrite sess_get_tracked, E. by intros [? ?]. }
      rewrite bool_decide_eq_false_2 by done.
      rewrite fmap_app, fmap_cons. simpl. by rewrite <- app_assoc.
Qed.

Lemma sess_ext (l1 : list (string * Session)) :
  forall l2 : list (string * Session),
    l1.*1 = l2.*1 -> NoDup (l1.*1) ->
    (forall k, sess_get k l1 = sess_get k l2) -> l1 = l2.
Proof.
  induction l1 as [|[k1 s1] l1 IH]; intros [|[k2 s2] l2] Hk Hnd Hg; try done.
  rewrite !fmap_cons in Hk. simpl in Hk. injection Hk as -> Hk.
  rewrite fmap_cons in Hnd. apply NoDup_cons in Hnd as [Hn Hnd]. simpl in Hn.
  pose proof (Hg k2) as H2. simpl in H2. rewrite String.eqb_refl in H2.
  injection H2 as ->. f_equal. apply IH; [done | done |].
  intros k. specialize (Hg k). simpl in Hg.
  destruct (String.eqb_spec k k2) as [Heq|Hne]; [|done].
  rewrite Heq.
  apply sess_get_None in Hn as Hn1. rewrite Hk in Hn. apply sess_get_None in Hn.
  by rewrite Hn1, Hn.
Qed.

Lemma entry_after_Some (now : Q) (rs : list Row) :
  forall s : Session,
    entry_after now (Some s) rs =
      Some (match last rs with
            | Some r => touch_session r now s
            | None => s
            end).
Proof.
  induction rs as [|r rs IH]; intros s; [done|].
  change (entry_after now (Some s) (r :: rs))
    with (entry_after now (Some (touch_session r now s)) rs).
  rewrite IH, last_cons. by destruct (last rs).
Qed.

Lemma entry_after_idem (now : Q) (o : option Session) (rs : list Row) :
  entry_after now (entry_after now o rs) rs = entry_after now o rs.
Proof.
  destruct rs as [|r0 rs]; [done|].
  set (b := match o with Some s => touch_session r0 now s | None => new_session r0 now end).
  change (entry_after now o (r0 :: rs)) with (entry_after now (Some b) rs).
  rewrite (entry_after_Some now rs b).
  rewrite entry_after_Some. f_equal. rewrite last_cons.
  destruct (last rs) as [r|]; [done|].
  unfold b. by destruct o.
Qed.

Lemma visit_rows_complete (w : gset Z) (now : Q) (rows : list Row) :
  forall (p : Pass) (st' : gmap string json),
    bump_lifetime_all
      (row_dport <$> first_sightings (tracked_keys (sessions (pass_app p)))
                       (List.filter (survives (pass_app p) w) rows))
      (stats (pass_app p)) = Ok st' ->
    exists p', visit_rows w now p rows = Ok p'.
Proof.
  induction rows as [|r rows IH]; intros p st' Hb; simpl.
  - by exists p.
  - simpl in Hb. destruct (survives (pass_app p) w r) eqn:Esv.
    + rewrite visit_row_survives by done. cbv zeta.
      destruct (sess_get (flow_key r) (sessions (pass_app p))) as [s|] eqn:Eg.
      * simpl. eapply (IH _ st'). simpl.
        rewrite (List.filter_ext _ (survives (pass_app p) w))
          by (intros; by apply survives_settings).
        rewrite tracked_keys_track_row.
        assert (Hk : flow_key r ∈ tracked_keys (sessions (pass_app p)))
          by (apply sess_get_tracked; eauto).
        cbn [first_sightings] in Hb.
        rewrite bool_decide_eq_true_2 in Hb by done.
        assert (Hu : {[flow_key r]} ∪ tracked_keys (sessions (pass_app p))
                     = tracked_keys (sessions (pass_app p))) by set_solver.
        by rewrite Hu.
      * assert (Hk : flow_key r ∉ tracked_keys (sessions (pass_app p))).
        { rewrite sess_get_tracked, Eg. by intros [? ?]. }
        cbn [first_sightings] in Hb.
        rewrite bool_decide_eq_false_2 in Hb by done.
        rewrite fmap_cons in Hb. simpl in Hb.
        apply bind_Ok in Hb as (st1 & Hb1 & Hb). rewrite Hb1. simpl.
        eapply (IH _ st'). simpl.
        rewrite (List.filter_ext _ (survives (pass_app p) w))
          by (intros; by apply survives_settings).
        by rewrite tracked_keys_track_row.
    + rewrite visit_row_discarded by done. simpl. by eapply IH.
Qed.

Lemma sort_desc_sorted_id {A : Type} (l : list (Q * A)) :
  StronglySorted ranked_before l -> sort_desc l = l.
Proof.
  induction 1 as [|[kx x] l Hs IH Hall]; simpl; [done|].
  rewrite IH. destruct l as [|[ky y] l]; simpl; [done|].
  apply Forall_cons in Hall as [Hxy _]. unfold ranked_before in Hxy. simpl in Hxy.
  by rewrite (proj2 (Qle_bool_iff ky kx) Hxy).
Qed.

Lemma StronglySorted_from_lookup {A : Type} (R : A -> A -> Prop) (l : list A) :
  (forall (i j : nat) (x y : A),
     (i < j)%nat -> l !! i = Some x -> l !! j = Some y -> R x y) ->
  StronglySorted R l.
Proof.
  induction l as [|a l IH]; intros H; constructor.
  - apply IH. intros i j x y Hij Hi Hj. apply (H (S i) (S j)); [lia | done | done].
  - apply Forall_forall. intros y Hy. apply list_elem_of_lookup in Hy as (j & Hj).
    apply (H 0%nat (S j)); [lia | done | done].
Qed.

(** A history that is ranked already comes out of the sort as it is. *)
Lemma sort_history_sorted_id (h : list json) :
  sorted_by_duration h ->
  Forall (fun x => exists m, x = JObj m) h ->
  sort_history h = Ok h.
Proof.
  intros Hs Hd.
  assert (Hkeys : exists keys, Forall2 (fun x y => duration_key x = Ok y) h keys).
  { clear Hs. induction Hd as [|x h (m & ->) _ (keys & IH)].
    - exists []. constructor.
    - eexists (_ :: keys). constructor; [reflexivity | done]. }
  destruct Hkeys as (keys & Hkeys).
  unfold sort_history. rewrite (proj2 (mapM_Ok _ _ _) Hkeys). simpl.
  destruct h as [|x0 [|x1 h]]; [done | done |].
  set (h0 := x0 :: x1 :: h) in *.
  assert (Hnum : Forall (fun x => is_Some (duration_of x)) h0).
  { apply Forall_forall. intros x Hx. apply list_elem_of_lookup in Hx as (i & Hi).
    destruct i as [|i].
    - destruct (Hs 0%nat 1%nat x x1) as (qx & _ & Hqx & _); [lia | done | done | eauto].
    - destruct (Hs 0%nat (S i) x0 x) as (_ & qy & _ & Hqy & _); [lia | done | done | eauto]. }
  assert (Hnums : exists nums,
            Forall2 (fun x y => numeric_key x = Ok y) keys nums
            /\ Forall2 (fun q x => duration_of x = Some q) nums h0).
  { clear Hs Hd. revert keys Hkeys.
    induction Hnum as [|x h1 [q Hq] _ IH]; intros keys Hkeys.
    - inversion Hkeys; subst. exists []. split; constructor.
    - inversion Hkeys as [|? k ? ks Hk Hks]; subst.
      destruct (IH _ Hks) as (nums & H1 & H2).
      exists (q :: nums). split; constructor; try done.
      unfold duration_of in Hq. unfold duration_key, dict_get in Hk.
      destruct x; try done. injection Hk as <-.
      unfold numeric_key. by rewrite Hq. }
  destruct Hnums as (nums & Hn1 & Hn2).
  rewrite (proj2 (mapM_Ok _ _ _) Hn1). simpl. f_equal.
  assert (Hlen : length nums = length h0) by by eapply Forall2_length.
  rewrite sort_desc_sorted_id; [by rewrite snd_zip by lia|].
  apply StronglySorted_from_lookup. intros i j [qx x] [qy y] Hij Hi Hj.
  apply lookup_zip_with_Some in Hi as (? & ? & [= <- <-] & Hqi & Hxi).
  apply lookup_zip_with_Some in Hj as (? & ? & [= <- <-] & Hqj & Hxj).
  destruct (Hs i j x y Hij Hxi Hxj) as (qx' & qy' & Hx' & Hy' & Hle).
  pose proof (Forall2_lookup_lr _ _ _ _ _ _ Hn2 Hqi Hxi) as H1.
  pose proof (Forall2_lookup_lr _ _ _ _ _ _ Hn2 Hqj Hxj) as H2.
  simpl in H1, H2. unfold ranked_before. simpl. congruence.
Qed.

Lemma App_ext (a b : App) :
  same_settings a b -> stats b = stats a -> sessions b = sessions a ->
  port_hits_run b = port_hits_run a -> b = a.
Proof.
  destruct a, b. unfold same_settings. simpl.
  intros (-> & -> & -> & -> & -> & ->) -> -> ->. reflexivity.
Qed.

Lemma survivors_settings (a a' : App) (wp : list Z) (rows : list Row) :
  same_settings a a' -> survivors a' wp rows = survivors a wp rows.
Proof.
  intros H. unfold survivors. apply List.filter_ext. intros r.
  by apply survives_settings.
Qed.

Lemma rows_of_key_elem (k : string) (rows : list Row) (r : Row) :
  r ∈ rows_of_key k rows <-> r ∈ rows /\ flow_key r = k.
Proof.
  unfold rows_of_key. rewrite !list_elem_of_In, List.filter_In, String.eqb_eq. tauto.
Qed.

(** X6. Polling again with the same rows at the same time changes
    nothing: on the app a poll returned, a second [update_sessions]
    with the same rows, watched ports and [now] returns the same app,
    state counts and active sessions (no counter is bumped, no session
    ended, the history is written back as it is). *)
Theorem poll_again_changes_nothing (rows : list Row) (wall wall' : nat -> string)
    (a : App) (watched_ports : list Z) (now : Q)
    (a' : App) (counts : gmap string Z) (active : list Session) :
  update_sessions rows wall a watched_ports now = Ok (a', counts, active) ->
  NoDup ((sessions a).*1) ->
  0 <= history_n (args a) ->
  update_sessions rows wall' a' watched_ports now = Ok (a', counts, active).
Proof.
  intros Hu Hnd Hn.
  destruct (update_sessions_spec _ _ _ _ _ _ _ _ Hu Hnd)
    as (Hset & Hss & Hact & Hcnt & _ & st1 & old & sorted & _ & Hold & Hsort & Hst).
  set (sv := survivors a watched_ports rows) in *.
  set (seen := observed_keys a watched_ports rows) in *.
  set (gr := grace (args a)) in *.
  set (T := track now (sessions a) sv) in *.
  assert (HndT : NoDup (T.*1)) by by apply track_NoDup.
  assert (Hnd' : NoDup ((sessions a').*1)) by (rewrite Hss; by apply filter_keys_NoDup).
  (* the store is a fixed point of tracking the same rows *)
  assert (Hseen_get : forall k, k ∈ seen -> sess_get k (sessions a') = sess_get k T).
  { intros k Hk. rewrite Hss, sess_get_filter by done.
    destruct (sess_get k T) as [s|]; [|done].
    unfold expired. simpl. by rewrite bool_decide_eq_true_2. }
  assert (Hfirst : first_sightings (tracked_keys (sessions a')) sv = []).
  { apply first_sightings_none. intros r Hr. apply sess_get_tracked.
    assert (Hk : flow_key r ∈ seen).
    { apply observed_keys_elem, list_elem_of_fmap. by exists r. }
    rewrite (Hseen_get _ Hk).
    apply observed_keys_elem in Hk.
    destruct (track_observed now (sessions a) sv _ Hk) as (s' & Hs' & _).
    unfold T. rewrite Hs'. eauto. }
  assert (Htrack : track now (sessions a') sv = sessions a').
  { apply sess_ext.
    - by rewrite track_keys, Hfirst, app_nil_r.
    - by apply track_NoDup.
    - intros k. rewrite sess_get_track.
      destruct (rows_of_key k sv) as [|r0 rs] eqn:Erk; [done|].
      assert (Hk : k ∈ seen).
      { assert (Hr0 : r0 ∈ rows_of_key k sv) by (rewrite Erk; apply list_elem_of_here).
        apply rows_of_key_elem in Hr0 as [Hr0 <-].
        apply observed_keys_elem, list_elem_of_fmap. by exists r0. }
      rewrite (Hseen_get k Hk). unfold T. rewrite sess_get_track, Erk.
      apply entry_after_idem. }
  (* the second poll *)
  assert (Hsv' : survivors a' watched_ports rows = sv) by by apply survivors_settings.
  assert (Hb : bump_lifetime_all
            (row_dport <$> first_sightings (tracked_keys (sessions a'))
               (List.filter (survives a' (list_to_set watched_ports)) rows))
            (stats a') = Ok (stats a')).
  { fold (survivors a' watched_ports rows). by rewrite Hsv', Hfirst. }
  destruct (visit_rows_complete (list_to_set watched_ports) now rows
              (mkPass a' ∅ ∅) (stats a') Hb) as (p2 & Hp2).
  pose proof (visit_rows_spec _ _ _ _ _ Hp2) as Hspec. cbv zeta in Hspec.
  simpl in Hspec. fold (survivors a' watched_ports rows) in Hspec.
  rewrite Hsv', Hfirst in Hspec. simpl in Hspec.
  destruct Hspec as (Hset2 & Hss2 & Hseen2 & Hcnt2 & Hrun2 & Hlife2).
  injection Hlife2 as Hlife2.
  assert (Hp2app : pass_app p2 = a').
  { apply App_ext; [done | done | by rewrite Hss2 | done]. }
  assert (Hseen2' : seen_keys p2 = seen).
  { rewrite Hseen2. unfold seen, observed_keys. fold sv. set_solver. }
  unfold update_sessions. rewrite Hp2. simpl. rewrite Hp2app, Hseen2'.
  destruct Hset as (Hargs & _ & _ & _ & _ & _). rewrite Hargs. fold gr.
  rewrite expire_loop_filter by done.
  assert (Hkeep : List.filter (fun kv => negb (expired seen now gr kv)) (sessions a')
                  = sessions a').
  { rewrite Hss, filter_twice.
    apply List.filter_ext. intros kv. by destruct (expired seen now gr kv). }
  assert (Hnone : List.filter (expired seen now gr) (sessions a') = []).
  { rewrite Hss, filter_twice.
    rewrite (List.filter_ext _ (fun _ => false)); [apply List.filter_false|].
    intros kv. by destruct (expired seen now gr kv). }
  rewrite Hkeep, Hnone. simpl.
  (* the history *)
  apply sort_history_spec in Hsort as Hsp. destruct Hsp as (Hperm & Hsorted & Hdict).
  set (h' := slice_to (history_n (args a)) sorted) in *.
  assert (Hh' : h' = take (Z.to_nat (history_n (args a))) sorted)
    by by apply slice_to_take.
  assert (Hlook : stats a' !! "ended_history" = Some (JArr h'))
    by by rewrite Hst, lookup_insert_eq.
  rewrite Hlook. simpl. unfold ended_records. simpl. rewrite app_nil_r.
  assert (Hs' : sorted_by_duration h').
  { rewrite Hh'. by apply sorted_by_duration_take. }
  assert (Hd' : Forall (fun x => exists m, x = JObj m) h').
  { assert (Hds : Forall (fun x => exists m, x = JObj m) sorted) by by rewrite Hperm.
    rewrite Forall_forall in Hds. apply Forall_forall. intros x Hx.
    apply Hds. rewrite Hh' in Hx.
    by apply (subseteq_take (Z.to_nat (history_n (args a))) sorted). }
  rewrite (sort_history_sorted_id h' Hs' Hd'). simpl.
  assert (Hcut : slice_to (history_n (args a)) h' = h').
  { rewrite slice_to_take by done. apply take_ge. rewrite Hh', length_take. lia. }
  rewrite Hcut.
  assert (Hid : <["ended_history" := JArr h']> (stats a') = stats a')
    by by apply insert_id.
  rewrite Hid. f_equal. f_equal; [f_equal|].
  - by destruct a'.
  - by rewrite Hcnt2, Hcnt.
  - unfold with_stats, with_sessions. simpl. by rewrite Hact.
Qed.

(** ** Sorting with a key *)

Lemma insert_by_perm {A K : Type} (lt : K -> K -> bool) (key : A -> K)
    (x : A) (l : list A) :
  insert_by lt key x l ≡ₚ x :: l.
Proof.
  induction l as [|y l IH]; simpl; [done|].
  destruct (lt (key y) (key x)); [|done]. rewrite IH. apply Permutation_swap.
Qed.

Lemma sort_by_perm {A K : Type} (lt : K -> K -> bool) (key : A -> K) (l : list A) :
  sort_by lt key l ≡ₚ l.
Proof.
  induction l as [|x l IH]; simpl; [done|]. by rewrite insert_by_perm, IH.
Qed.

Lemma insert_by_sorted {A K : Type} (lt : K -> K -> bool) (key : A -> K)
    (x : A) (l : list A) :
  strict_weak lt ->
  StronglySorted (in_order lt key) l ->
  StronglySorted (in_order lt key) (insert_by lt key x l).
Proof.
  intros [Hasym Htrans]. induction 1 as [|y l Hs IH Hall]; simpl.
  - repeat constructor.
  - destruct (lt (key y) (key x)) eqn:E.
    + constructor; [exact IH|]. rewrite insert_by_perm. constructor; [|done].
      unfold in_order. by apply Hasym.
    + constructor; [by constructor|]. constructor; [exact E|].
      eapply Forall_impl; [exact Hall|]. intros z Hz. unfold in_order in *.
      by eapply Htrans.
Qed.

Lemma sort_by_sorted {A K : Type} (lt : K -> K -> bool) (key : A -> K) (l : list A) :
  strict_weak lt -> StronglySorted (in_order lt key) (sort_by lt key l).
Proof.
  intros Hsw. induction l as [|x l IH]; simpl; [constructor|].
  by apply insert_by_sorted.
Qed.

Lemma sort_by_sorted_id {A K : Type} (lt : K -> K -> bool) (key : A -> K)
    (l : list A) :
  StronglySorted (in_order lt key) l -> sort_by lt key l = l.
Proof.
  induction 1 as [|x l Hs IH Hall]; simpl; [done|].
  rewrite IH. destruct l as [|y l]; simpl; [done|].
  apply Forall_cons in Hall as [Hxy _]. unfold in_order in Hxy. by rewrite Hxy.
Qed.

Lemma Qltb_lt (x y : Q) : Qltb x y = true <-> (x < y)%Q.
Proof.
  unfold Qltb. rewrite negb_true_iff. split.
  - intros H. apply Qnot_le_lt. intros Hle. apply Qle_bool_iff in Hle. congruence.
  - intros H. destruct (Qle_bool y x) eqn:E; [|done].
    apply Qle_bool_iff in E. by apply Qle_not_lt in E.
Qed.

Lemma Qltb_ge (x y : Q) : Qltb x y = false <-> (y <= x)%Q.
Proof. unfold Qltb. rewrite negb_false_iff. apply Qle_bool_iff. Qed.

Lemma strict_weak_flip {K : Type} (lt : K -> K -> bool) :
  strict_weak lt -> strict_weak (fun a b => lt b a).
Proof. intros [H1 H2]. split; [eauto|]. intros a b c Hab Hbc. by eapply H2. Qed.

Lemma strict_weak_Qltb : strict_weak Qltb.
Proof.
  split.
  - intros a b H. apply Qltb_lt in H. apply Qltb_ge. by apply Qlt_le_weak.
  - intros a b c. rewrite !Qltb_ge. intros H1 H2. by eapply Qle_trans.
Qed.

Lemma strict_weak_Zltb : strict_weak Z.ltb.
Proof.
  split.
  - intros a b. rewrite Z.ltb_lt, Z.ltb_ge. lia.
  - intros a b c. rewrite !Z.ltb_ge. lia.
Qed.

Lemma lt_bool_Q_false (k1 k2 : bool * Q) :
  lt_bool_Q k1 k2 = false <->
    (k1.1 = true /\ k2.1 = false) \/ (k1.1 = k2.1 /\ (k2.2 <= k1.2)%Q).
Proof.
  unfold lt_bool_Q. destruct k1 as [[] q1], k2 as [[] q2]; simpl;
    rewrite ?Qltb_ge; split; try tauto; try done; intros [[? ?]|[? ?]]; done.
Qed.

Lemma strict_weak_lt_bool_Q : strict_weak lt_bool_Q.
Proof.
  split.
  - intros a b H. apply lt_bool_Q_false.
    unfold lt_bool_Q in H. destruct a as [[] qa], b as [[] qb]; simpl in *;
      try done; try (right; split; [done|]; apply Qltb_lt in H; by apply Qlt_le_weak).
    by left.
  - intros a b c. rewrite !lt_bool_Q_false.
    intros [[H1 H2]|[H1 H2]] [[H3 H4]|[H3 H4]]; try (left; split; congruence).
    right. split; [congruence | by eapply Qle_trans].
Qed.

Lemma lt_Z_Q_false (k1 k2 : Z * Q) :
  lt_Z_Q k1 k2 = false <->
    k2.1 < k1.1 \/ (k1.1 = k2.1 /\ (k2.2 <= k1.2)%Q).
Proof.
  unfold lt_Z_Q. destruct (Z.eqb_spec k1.1 k2.1) as [Heq|Hne].
  - rewrite Qltb_ge. split; [tauto|]. intros [?|[? ?]]; [lia | done].
  - rewrite Z.ltb_ge. split; [lia|]. intros [?|[? ?]]; lia.
Qed.

Lemma strict_weak_lt_Z_Q : strict_weak lt_Z_Q.
Proof.
  split.
  - intros a b H. apply lt_Z_Q_false. unfold lt_Z_Q in H.
    destruct (Z.eqb_spec a.1 b.1) as [Heq|Hne].
    + right. split; [done|]. apply Qltb_lt in H. by apply Qlt_le_weak.
    + apply Z.ltb_lt in H. by left.
  - intros a b c. rewrite !lt_Z_Q_false.
    intros [H1|[H1 H2]] [H3|[H3 H4]]; try (left; lia).
    right. split; [lia | by eapply Qle_trans].
Qed.

Lemma slice_to_nonneg_length {A : Type} (n : Z) (l : list A) :
  0 <= n -> Z.of_nat (length (slice_to n l)) = Z.min n (Z.of_nat (length l)).
Proof. intros H. rewrite slice_to_take by done. rewrite length_take. lia. Qed.

Lemma clamp_topn_take {A : Type} (l : list A) (n : Z) :
  clamp_topn l n = take (Z.to_nat n) l.
Proof.
  unfold clamp_topn. rewrite slice_to_take by lia. f_equal. lia.
Qed.

(** ** Views *)

Lemma compute_views_Ok (a : App) (active : list Session) (now : Q) (topn : Z)
    (v : Views) :
  compute_views a active now topn = Ok v <->
  exists h : list json,
    py_list (default (JArr []) (stats a !! "ended_history")) = Ok h
    /\ sort_history h = Ok (ended_hist v)
    /\ sessions_top v = clamp_topn (active_sorted active now) topn
    /\ sources_top v = clamp_topn (src_rows active now) topn
    /\ view_port_active_items v = port_active_items active
    /\ est_top v = clamp_topn (est_sorted active now) topn.
Proof.
  unfold compute_views. split.
  - intros H. apply bind_Ok in H as (h & Hh & H).
    apply bind_Ok in H as (h' & Hh' & H). injection H as <-. by exists h.
  - intros (h & -> & Hs & H1 & H2 & H3 & H4). simpl. rewrite Hs. simpl.
    destruct v. simpl in *. by subst.
Qed.

Lemma age_s_nonneg (s : Session) (now : Q) : (0 <= age_s s now)%Q.
Proof.
  unfold age_s, max0. destruct (Qle_bool (now - first_seen s) 0) eqn:E.
  - apply Qle_refl.
  - apply Qlt_le_weak, Qnot_le_lt. intros H. apply Qle_bool_iff in H. congruence.
Qed.

Lemma session_rank_order (now : Q) (x y : Session) :
  in_order lt_bool_Q (session_rank now) x y ->
  (state y = "ESTABLISHED" -> state x = "ESTABLISHED")
  /\ ((state x = "ESTABLISHED" <-> state y = "ESTABLISHED") ->
      (age_s y now <= age_s x now)%Q).
Proof.
  unfold in_order, session_rank. rewrite lt_bool_Q_false. simpl.
  rewrite !negb_true_iff, !negb_false_iff, String.eqb_neq, !String.eqb_eq.
  intros [[Hy Hx]|[Hxy Hle]].
  - split; [done|]. intros [H _]. by apply H in Hx.
  - assert (Hage : (age_s y now <= age_s x now)%Q).
    { apply Qopp_le_compat in Hle. by rewrite !Qopp_involutive in Hle. }
    split; [|done]. intros Hy.
    destruct (String.eqb_spec (state x) "ESTABLISHED") as [|Hne]; [done|].
    rewrite (proj2 (String.eqb_eq _ _) Hy) in Hxy. done.
Qed.

(** X7. The sessions table of [compute_views] is a selection of the
    active sessions of size [min(max(0, topn), len(active))], in which
    ESTABLISHED sessions come before all others and, among sessions
    that are both ESTABLISHED or both not, an older one never comes
    after a younger one. *)
Theorem sessions_top_ranked (a : App) (active : list Session) (now : Q)
    (topn : Z) (v : Views) :
  compute_views a active now topn = Ok v ->
  (exists rest, sessions_top v ++ rest ≡ₚ active)
  /\ Z.of_nat (length (sessions_top v)) =
       Z.min (Z.max 0 topn) (Z.of_nat (length active))
  /\ forall (i j : nat) (x y : Session),
       (i < j)%nat ->
       sessions_top v !! i = Some x -> sessions_top v !! j = Some y ->
       (state y = "ESTABLISHED" -> state x = "ESTABLISHED")
       /\ ((state x = "ESTABLISHED" <-> state y = "ESTABLISHED") ->
           (age_s y now <= age_s x now)%Q).
Proof.
  intros Hv. apply compute_views_Ok in Hv as (h & _ & _ & Hs & _).
  rewrite Hs. split; [|split].
  - exists (drop (Z.to_nat topn) (active_sorted active now)).
    rewrite clamp_topn_take, take_drop. apply sort_by_perm.
  - unfold clamp_topn. rewrite slice_to_nonneg_length by lia.
    unfold active_sorted. by rewrite sort_by_perm.
  - intros i j x y Hij Hi Hj. rewrite clamp_topn_take in Hi, Hj.
    apply lookup_take_Some in Hi as [Hi _]. apply lookup_take_Some in Hj as [Hj _].
    apply session_rank_order.
    eapply (StronglySorted_lookup _ _
              (sort_by_sorted lt_bool_Q (session_rank now) active strict_weak_lt_bool_Q));
      eauto.
Qed.

(** X8. The established table of [compute_views] holds only active
    ESTABLISHED sessions, by non-increasing age, and every ESTABLISHED
    session it leaves out is no older than any it shows. *)
Theorem est_top_longest_established (a : App) (active : list Session) (now : Q)
    (topn : Z) (v : Views) :
  compute_views a active now topn = Ok v ->
  (exists rest,
     est_top v ++ rest ≡ₚ
       List.filter (fun s => String.eqb (state s) "ESTABLISHED") active)
  /\ (forall s, s ∈ est_top v -> s ∈ active /\ state s = "ESTABLISHED")
  /\ (forall (i j : nat) (x y : Session),
        (i < j)%nat -> est_top v !! i = Some x -> est_top v !! j = Some y ->
        (age_s y now <= age_s x now)%Q)
  /\ (forall s (k : nat) (x : Session),
        s ∈ active -> state s = "ESTABLISHED" -> s ∉ est_top v ->
        est_top v !! k = Some x -> (age_s s now <= age_s x now)%Q).
Proof.
  intros Hv. apply compute_views_Ok in Hv as (h & _ & _ & _ & _ & _ & He).
  rewrite He, clamp_topn_take.
  set (est := List.filter (fun s => String.eqb (state s) "ESTABLISHED") active).
  assert (Hperm : est_sorted active now ≡ₚ est) by apply sort_by_perm.
  assert (Hsorted : StronglySorted (in_order (fun k1 k2 => Qltb k2 k1)
                                      (fun s => age_s s now))
                      (est_sorted active now)).
  { apply sort_by_sorted, strict_weak_flip, strict_weak_Qltb. }
  assert (Hord : forall (i j : nat) (x y : Session),
            (i < j)%nat -> est_sorted active now !! i = Some x ->
            est_sorted active now !! j = Some y -> (age_s y now <= age_s x now)%Q).
  { intros i j x y Hij Hi Hj.
    pose proof (StronglySorted_lookup _ _ Hsorted i j x y Hij Hi Hj) as Hr.
    unfold in_order in Hr. by apply Qltb_ge in Hr. }
  assert (Hest : forall s, s ∈ est <-> s ∈ active /\ state s = "ESTABLISHED").
  { intros s. unfold est. rewrite !list_elem_of_In, List.filter_In, String.eqb_eq. tauto. }
  split; [|split; [|split]].
  - exists (drop (Z.to_nat topn) (est_sorted active now)). by rewrite take_drop.
  - intros s Hs. apply Hest. rewrite <- Hperm.
    by apply (subseteq_take (Z.to_nat topn) (est_sorted active now)).
  - intros i j x y Hij Hi Hj.
    apply lookup_take_Some in Hi as [Hi _]. apply lookup_take_Some in Hj as [Hj _].
    by eapply Hord.
  - intros s k x Hs Hst Hnot Hk.
    assert (Hin : s ∈ est_sorted active now) by (rewrite Hperm; by apply Hest).
    apply list_elem_of_lookup in Hin as (j & Hj).
    apply lookup_take_Some in Hk as [Hk Hlt].
    assert (Hge : (Z.to_nat topn <= j)%nat).
    { destruct (decide (j < Z.to_nat topn)%nat) as [Hjl|]; [|lia].
      destruct Hnot. apply list_elem_of_lookup. exists j.
      apply lookup_take_Some. by split. }
    eapply (Hord k j); [lia | done | done].
Qed.

(** X9. After a poll that returned (capacity [history_n >= 0]),
    [compute_views] on the resulting app does not raise, and its ended
    history is the stored history in the stored order: the sort it
    applies once more changes nothing. *)
Theorem views_after_poll (rows : list Row) (wall : nat -> string)
    (a : App) (watched_ports : list Z) (now : Q)
    (a' : App) (counts : gmap string Z) (active : list Session)
    (now' : Q) (topn : Z) :
  update_sessions rows wall a watched_ports now = Ok (a', counts, active) ->
  0 <= history_n (args a) ->
  exists v : Views,
    compute_views a' active now' topn = Ok v
    /\ ended_hist v = ended_history (stats a').
Proof.
  intros Hu Hn.
  destruct (update_sessions_history _ _ _ _ _ _ _ _ Hu)
    as (ended & old & sorted & Hold & Hsort & Hst).
  apply sort_history_spec in Hsort as (Hperm & Hsorted & Hdict).
  rewrite slice_to_take in Hst by done.
  set (h' := take (Z.to_nat (history_n (args a))) sorted) in *.
  assert (Hs' : sorted_by_duration h') by by apply sorted_by_duration_take.
  assert (Hd' : Forall (fun x => exists m, x = JObj m) h').
  { assert (Hds : Forall (fun x => exists m, x = JObj m) sorted) by by rewrite Hperm.
    rewrite Forall_forall in Hds. apply Forall_forall. intros x Hx.
    apply Hds. by apply (subseteq_take (Z.to_nat (history_n (args a))) sorted). }
  eexists (mkViews _ _ _ _ h'). split.
  - apply compute_views_Ok. exists h'. simpl. rewrite Hst. simpl.
    split; [done|]. split; [by apply sort_history_sorted_id|]. done.
  - simpl. unfold ended_history. by rewrite Hst.
Qed.

(** ** The port table *)

Lemma count_add_keys (q : Z) (m : list (Z * Z)) :
  (count_add q m).*1 = if bool_decide (q ∈ m.*1) then m.*1 else (m.*1 ++ [q])%list.
Proof.
  induction m as [|[p c] m IH]; [done|].
  cbn [count_add]. destruct (Z.eqb_spec q p) as [Heq|Hne]; rewrite !fmap_cons; simpl.
  - rewrite bool_decide_eq_true_2; [done | rewrite Heq; apply list_elem_of_here].
  - rewrite IH. case_bool_decide as H1; case_bool_decide as H2; try done.
    + destruct H2. by apply list_elem_of_further.
    + apply elem_of_cons in H2 as [?|?]; done.
Qed.

Lemma count_add_NoDup (q : Z) (m : list (Z * Z)) :
  NoDup (m.*1) -> NoDup ((count_add q m).*1).
Proof.
  intros H. rewrite count_add_keys. case_bool_decide as Hq; [done|].
  apply NoDup_app. split; [done|]. split; [|apply NoDup_singleton].
  intros x Hx Hx'. apply list_elem_of_singleton in Hx'. by subst.
Qed.

Lemma count_get_add (q p : Z) (m : list (Z * Z)) :
  count_get p (count_add q m) =
    if Z.eqb p q then Some (default 0 (count_get q m) + 1) else count_get p m.
Proof.
  induction m as [|[p' c'] m IH]; cbn [count_add count_get].
  - by destruct (Z.eqb p q).
  - destruct (Z.eqb_spec q p') as [Hq|Hq]; cbn [count_get].
    + destruct (Z.eqb_spec p p') as [Hp|Hp]; destruct (Z.eqb_spec p q); subst; try done.
    + destruct (Z.eqb_spec p p') as [Hp|Hp].
      * destruct (Z.eqb_spec p q); [by subst | done].
      * exact IH.
Qed.

Lemma count_get_None (p : Z) (m : list (Z * Z)) :
  count_get p m = None <-> p ∉ m.*1.
Proof.
  induction m as [|[p' c'] m IH]; cbn [count_get].
  - split; [intros _; apply not_elem_of_nil | done].
  - rewrite fmap_cons, not_elem_of_cons. simpl.
    destruct (Z.eqb_spec p p') as [Hp|Hp]; [|rewrite IH; tauto].
    split; [done | intros [? _]; done].
Qed.

Lemma count_get_elem (p c : Z) (m : list (Z * Z)) :
  NoDup (m.*1) -> ((p, c) ∈ m <-> count_get p m = Some c).
Proof.
  induction m as [|[p' c'] m IH]; intros Hnd; cbn [count_get].
  - split; [intros H; by apply elem_of_nil in H | done].
  - rewrite fmap_cons in Hnd. apply NoDup_cons in Hnd as [Hp' Hnd]. simpl in Hp'.
    rewrite elem_of_cons. destruct (Z.eqb_spec p p') as [Hp|Hp].
    + subst p'. split.
      * intros [[= ->]|H]; [done|]. destruct Hp'. apply list_elem_of_fmap.
        by exists (p, c).
      * intros [= ->]. by left.
    + rewrite (IH Hnd). split; [intros [[= ? ?]|?]; done | by right].
Qed.

Lemma total_count_add (q : Z) (m : list (Z * Z)) :
  total_count (count_add q m) = total_count m + 1.
Proof.
  induction m as [|[p c] m IH]; [done|].
  cbn [count_add]. destruct (Z.eqb q p); unfold total_count in *; simpl in *; lia.
Qed.

Lemma total_count_perm (l1 l2 : list (Z * Z)) :
  l1 ≡ₚ l2 -> total_count l1 = total_count l2.
Proof.
  induction 1 as [|x l1 l2 _ IH|x y l|l1 l2 l3 _ IH1 _ IH2];
    unfold total_count in *; simpl in *; lia.
Qed.

Lemma port_active_snoc (active : list Session) (s : Session) :
  port_active (active ++ [s]) = count_add (dst_port s) (port_active active).
Proof. unfold port_active. by rewrite fold_left_app. Qed.

Lemma sessions_on_port_snoc (p : Z) (active : list Session) (s : Session) :
  sessions_on_port p (active ++ [s]) =
    sessions_on_port p active + (if Z.eqb (dst_port s) p then 1 else 0).
Proof.
  unfold sessions_on_port. rewrite List.filter_app, length_app. simpl.
  destruct (Z.eqb (dst_port s) p); simpl; lia.
Qed.

Lemma port_active_spec (active : list Session) :
  NoDup ((port_active active).*1)
  /\ total_count (port_active active) = Z.of_nat (length active)
  /\ forall p c, (p, c) ∈ port_active active <->
                 c = sessions_on_port p active /\ 0 < c.
Proof.
  assert (H : NoDup ((port_active active).*1)
    /\ total_count (port_active active) = Z.of_nat (length active)
    /\ forall p, count_get p (port_active active) =
          if (0 <? sessions_on_port p active)%Z
          then Some (sessions_on_port p active) else None).
  { induction active as [|s active (Hnd & Htot & Hget)] using rev_ind.
    - split; [constructor|]. done.
    - rewrite port_active_snoc. split; [by apply count_add_NoDup|]. split.
      + rewrite total_count_add, Htot, length_app. simpl. lia.
      + intros p. rewrite count_get_add, sessions_on_port_snoc, !Hget.
        assert (Hnn : forall q, 0 <= sessions_on_port q active)
          by (intros q; unfold sessions_on_port; lia).
        pose proof (Hnn p). pose proof (Hnn (dst_port s)).
        rewrite (Z.eqb_sym p). destruct (Z.eqb_spec (dst_port s) p) as [Heq|Hne].
        * rewrite Heq. destruct (Z.ltb_spec 0 (sessions_on_port p active)); simpl.
          -- rewrite (proj2 (Z.ltb_lt _ _)) by lia. done.
          -- rewrite (proj2 (Z.ltb_lt _ _)) by lia. do 2 f_equal. lia.
        * by rewrite Z.add_0_r. }
  destruct H as (Hnd & Htot & Hget). split; [done|]. split; [done|].
  intros p c. rewrite (count_get_elem _ _ _ Hnd), Hget.
  destruct (Z.ltb_spec 0 (sessions_on_port p active)).
  - split; [intros [= <-]; done | intros [-> _]; done].
  - split; [done | intros [-> ?]; lia].
Qed.

(** X10. The port table of [compute_views] has one entry for each
    destination port with at least one active session, with the number
    of active sessions to that port; the counts add up to the number
    of active sessions, and the entries are by non-increasing count. *)
Theorem port_table_counts (a : App) (active : list Session) (now : Q)
    (topn : Z) (v : Views) :
  compute_views a active now topn = Ok v ->
  let items := view_port_active_items v in
  NoDup (items.*1)
  /\ (forall p c, (p, c) ∈ items <-> c = sessions_on_port p active /\ 0 < c)
  /\ total_count items = Z.of_nat (length active)
  /\ forall (i j : nat) (x y : Z * Z),
       (i < j)%nat -> items !! i = Some x -> items !! j = Some y -> y.2 <= x.2.
Proof.
  intros Hv. apply compute_views_Ok in Hv as (h & _ & _ & _ & _ & Hp & _).
  cbv zeta. rewrite Hp. unfold port_active_items, sort_by_rev.
  destruct (port_active_spec active) as (Hnd & Htot & Hel).
  set (sorted := sort_by _ _ _).
  assert (Hperm : sorted ≡ₚ port_active active) by apply sort_by_perm.
  split; [by rewrite Hperm|]. split; [|split].
  - intros p c. by rewrite Hperm.
  - by rewrite (total_count_perm _ _ Hperm).
  - intros i j x y Hij Hi Hj.
    assert (Hs : StronglySorted (in_order (fun k1 k2 => Z.ltb k2 k1) snd) sorted).
    { apply sort_by_sorted, strict_weak_flip, strict_weak_Zltb. }
    pose proof (StronglySorted_lookup _ _ Hs i j x y Hij Hi Hj) as Hr.
    unfold in_order in Hr. by apply Z.ltb_ge in Hr.
Qed.

(** ** The source table *)

Lemma group_get_add (s : Session) (ip : string) (g : list (string * list Session)) :
  group_get ip (group_add s g) =
    if String.eqb ip (src_ip s)
    then Some (default [] (group_get (src_ip s) g) ++ [s])%list
    else group_get ip g.
Proof.
  induction g as [|[ip' l] g IH]; cbn [group_add group_get].
  - by destruct (String.eqb ip (src_ip s)).
  - destruct (String.eqb_spec (src_ip s) ip') as [Hq|Hq]; cbn [group_get].
    + destruct (String.eqb_spec ip ip') as [Hp|Hp];
        destruct (String.eqb_spec ip (src_ip s)); subst; try done.
    + destruct (String.eqb_spec ip ip') as [Hp|Hp].
      * destruct (String.eqb_spec ip (src_ip s)); [by subst | done].
      * exact IH.
Qed.

Lemma group_add_keys (s : Session) (g : list (string * list Session)) :
  (group_add s g).*1 =
    if bool_decide (src_ip s ∈ g.*1) then g.*1 else (g.*1 ++ [src_ip s])%list.
Proof.
  induction g as [|[ip l] g IH]; [done|].
  cbn [group_add]. destruct (String.eqb_spec (src_ip s) ip) as [Heq|Hne];
    rewrite !fmap_cons; simpl.
  - rewrite bool_decide_eq_true_2; [done | rewrite Heq; apply list_elem_of_here].
  - rewrite IH. case_bool_decide as H1; case_bool_decide as H2; try done.
    + destruct H2. by apply list_elem_of_further.
    + apply elem_of_cons in H2 as [?|?]; done.
Qed.

Lemma group_add_NoDup (s : Session) (g : list (string * list Session)) :
  NoDup (g.*1) -> NoDup ((group_add s g).*1).
Proof.
  intros H. rewrite group_add_keys. case_bool_decide as Hq; [done|].
  apply NoDup_app. split; [done|]. split; [|apply NoDup_singleton].
  intros x Hx Hx'. apply list_elem_of_singleton in Hx'. by subst.
Qed.

Lemma group_get_elem (ip : string) (l : list Session)
    (g : list (string * list Session)) :
  NoDup (g.*1) -> ((ip, l) ∈ g <-> group_get ip g = Some l).
Proof.
  induction g as [|[ip' l'] g IH]; intros Hnd; cbn [group_get].
  - split; [intros H; by apply elem_of_nil in H | done].
  - rewrite fmap_cons in Hnd. apply NoDup_cons in Hnd as [Hp' Hnd]. simpl in Hp'.
    rewrite elem_of_cons. destruct (String.eqb_spec ip ip') as [Hp|Hp].
    + subst ip'. split.
      * intros [[= ->]|H]; [done|]. destruct Hp'. apply list_elem_of_fmap.
        by exists (ip, l).
      * intros [= ->]. by left.
    + rewrite (IH Hnd). split; [intros [[= ? ?]|?]; done | by right].
Qed.

Lemma by_ip_snoc (active : list Session) (s : Session) :
  by_ip (active ++ [s]) = group_add s (by_ip active).
Proof. unfold by_ip. by rewrite fold_left_app. Qed.

Lemma sessions_from_snoc (ip : string) (active : list Session) (s : Session) :
  sessions_from ip (active ++ [s]) =
    (sessions_from ip active ++ if String.eqb (src_ip s) ip then [s] else [])%list.
Proof. unfold sessions_from. by rewrite List.filter_app. Qed.

Lemma by_ip_spec (active : list Session) :
  NoDup ((by_ip active).*1)
  /\ forall ip l, (ip, l) ∈ by_ip active <->
                  l = sessions_from ip active /\ l <> [].
Proof.
  assert (H : NoDup ((by_ip active).*1)
    /\ forall ip, group_get ip (by_ip active) =
         match sessions_from ip active with
         | [] => None
         | l => Some l
         end).
  { induction active as [|s active (Hnd & Hget)] using rev_ind.
    - split; [constructor | done].
    - rewrite by_ip_snoc. split; [by apply group_add_NoDup|].
      intros ip. rewrite group_get_add, sessions_from_snoc, !Hget.
      rewrite (String.eqb_sym ip).
      destruct (String.eqb_spec (src_ip s) ip) as [Heq|Hne].
      + rewrite Heq. by destruct (sessions_from ip active).
      + rewrite app_nil_r. done. }
  destruct H as (Hnd & Hget). split; [done|].
  intros ip l. rewrite (group_get_elem _ _ _ Hnd), Hget.
  destruct (sessions_from ip active) eqn:E.
  - split; [done | intros [-> ?]; done].
  - split; [intros [= <-]; done | intros [-> _]; done].
Qed.

Lemma max_from_spec (xs : list Q) :
  forall cur : Q,
    (max_from cur xs = cur \/ max_from cur xs ∈ xs)
    /\ (cur <= max_from cur xs)%Q
    /\ forall x, x ∈ xs -> (x <= max_from cur xs)%Q.
Proof.
  induction xs as [|x xs IH]; intros cur; simpl.
  - split; [by left|]. split; [apply Qle_refl|]. intros x Hx. by apply elem_of_nil in Hx.
  - destruct (IH (if Qltb cur x then x else cur)) as (Hin & Hge & Hall).
    destruct (Qltb cur x) eqn:E.
    + apply Qltb_lt in E. split; [|split].
      * right. destruct Hin as [->|Hin]; [apply list_elem_of_here | by apply list_elem_of_further].
      * eapply Qle_trans; [by apply Qlt_le_weak | done].
      * intros y Hy. apply elem_of_cons in Hy as [->|Hy]; [done | by apply Hall].
    + apply Qltb_ge in E. split; [|split].
      * destruct Hin as [->|Hin]; [by left | right; by apply list_elem_of_further].
      * done.
      * intros y Hy. apply elem_of_cons in Hy as [->|Hy]; [|by apply Hall].
        by eapply Qle_trans.
Qed.

Lemma py_max_spec (d : Q) (xs : list Q) :
  xs <> [] ->
  py_max d xs ∈ xs /\ forall x, x ∈ xs -> (x <= py_max d xs)%Q.
Proof.
  destruct xs as [|x xs]; [done|]. intros _. simpl.
  destruct (max_from_spec xs x) as (Hin & Hge & Hall). split.
  - destruct Hin as [->|Hin]; [apply list_elem_of_here | by apply list_elem_of_further].
  - intros y Hy. apply elem_of_cons in Hy as [->|Hy]; [done | by apply Hall].
Qed.

Lemma in_order_Z_strict (l : list Z) :
  StronglySorted (in_order Z.ltb id) l -> NoDup l -> StronglySorted Z.lt l.
Proof.
  induction 1 as [|x l Hs IH Hall]; intros Hnd; [constructor|].
  apply NoDup_cons in Hnd as [Hx Hnd]. constructor; [by apply IH|].
  rewrite Forall_forall in Hall. apply Forall_forall. intros y Hy.
  specialize (Hall y Hy). unfold in_order, id in Hall. apply Z.ltb_ge in Hall.
  assert (x <> y) by (intros ->; done). lia.
Qed.

Lemma sorted_set_Z_spec (xs : list Z) :
  (forall p, p ∈ sorted_set_Z xs <-> p ∈ xs)
  /\ StronglySorted Z.lt (sorted_set_Z xs).
Proof.
  unfold sorted_set_Z.
  assert (Hperm : sort_by Z.ltb id (remove_dups xs) ≡ₚ remove_dups xs)
    by apply sort_by_perm.
  split.
  - intros p. by rewrite Hperm, elem_of_remove_dups.
  - apply in_order_Z_strict.
    + apply sort_by_sorted, strict_weak_Zltb.
    + rewrite Hperm. apply NoDup_remove_dups.
Qed.

Lemma sorted_set_str_spec (xs : list string) :
  (forall st, st ∈ sorted_set_str xs <-> st ∈ xs) /\ NoDup (sorted_set_str xs).
Proof.
  unfold sorted_set_str.
  assert (Hperm : sort_by String.ltb id (remove_dups xs) ≡ₚ remove_dups xs)
    by apply sort_by_perm.
  split.
  - intros p. by rewrite Hperm, elem_of_remove_dups.
  - rewrite Hperm. apply NoDup_remove_dups.
Qed.

Lemma sessions_from_elem (ip : string) (active : list Session) (s : Session) :
  s ∈ sessions_from ip active <-> s ∈ active /\ src_ip s = ip.
Proof.
  unfold sessions_from. rewrite !list_elem_of_In, List.filter_In, String.eqb_eq. tauto.
Qed.

Lemma src_rows_elem (active : list Session) (now : Q) (r : SrcRow) :
  r ∈ src_rows active now <->
  sessions_from (sr_ip r) active <> []
  /\ r = src_row now (sr_ip r, sessions_from (sr_ip r) active).
Proof.
  unfold src_rows, sort_by_rev. rewrite sort_by_perm, list_elem_of_fmap.
  destruct (by_ip_spec active) as [_ Hel]. split.
  - intros ([ip l] & -> & Hin). apply Hel in Hin as [-> Hne]. simpl. done.
  - intros [Hne Hr]. exists (sr_ip r, sessions_from (sr_ip r) active).
    split; [done|]. by apply Hel.
Qed.

(** X11. A row of the sources table summarizes the active sessions
    of its address: [active] is their number (at least one), [ports]
    their destination ports without repetition in increasing order,
    [states] their states without repetition, and [oldest_s] the age
    of the oldest of them. *)
Theorem source_row_summarizes_its_sessions (a : App) (active : list Session)
    (now : Q) (topn : Z) (v : Views) (r : SrcRow) :
  compute_views a active now topn = Ok v ->
  r ∈ sources_top v ->
  let mine := sessions_from (sr_ip r) active in
  sr_active r = Z.of_nat (length mine)
  /\ 0 < sr_active r
  /\ (forall p, p ∈ sr_ports r <-> exists s, s ∈ mine /\ dst_port s = p)
  /\ StronglySorted Z.lt (sr_ports r)
  /\ (forall st, st ∈ sr_states r <-> exists s, s ∈ mine /\ state s = st)
  /\ NoDup (sr_states r)
  /\ (exists s, s ∈ mine /\ sr_oldest_s r = age_s s now)
  /\ (forall s, s ∈ mine -> (age_s s now <= sr_oldest_s r)%Q).
Proof.
  intros Hv Hr. apply compute_views_Ok in Hv as (h & _ & _ & _ & Hs & _).
  rewrite Hs, clamp_topn_take in Hr.
  apply (subseteq_take (Z.to_nat topn) (src_rows active now)) in Hr.
  apply src_rows_elem in Hr as [Hne Hr]. cbv zeta.
  set (mine := sessions_from (sr_ip r) active) in *.
  assert (Hlen : (0 < length mine)%nat) by (destruct mine; [done | simpl; lia]).
  destruct (sorted_set_Z_spec (dst_port <$> mine)) as [Hp1 Hp2].
  destruct (sorted_set_str_spec (state <$> mine)) as [Hs1 Hs2].
  destruct (py_max_spec 0 ((fun x => age_s x now) <$> mine)) as [Hm1 Hm2].
  { by destruct mine. }
  rewrite Hr. simpl. split; [done|]. split; [lia|].
  split; [|split; [done|split; [|split; [done|split]]]].
  - intros p. rewrite Hp1, list_elem_of_fmap. naive_solver.
  - intros st. rewrite Hs1, list_elem_of_fmap. naive_solver.
  - apply list_elem_of_fmap in Hm1 as (s & Hs' & Hin). by exists s.
  - intros s Hin. apply Hm2. apply list_elem_of_fmap. by exists s.
Qed.

Lemma by_ip_keys (active : list Session) :
  (by_ip active).*1 ≡ₚ remove_dups (src_ip <$> active).
Proof.
  destruct (by_ip_spec active) as [Hnd Hel].
  apply NoDup_Permutation; [done | apply NoDup_remove_dups |].
  intros ip. rewrite elem_of_remove_dups, !list_elem_of_fmap. split.
  - intros ([ip' l] & -> & Hin). apply Hel in Hin as [-> Hne]. simpl.
    destruct (sessions_from ip' active) as [|s l] eqn:E; [done|].
    assert (Hs : s ∈ sessions_from ip' active) by (rewrite E; apply list_elem_of_here).
    apply sessions_from_elem in Hs as [Hs Hip]. by exists s.
  - intros (s & -> & Hs). exists (src_ip s, sessions_from (src_ip s) active).
    split; [done|]. apply Hel. split; [done|].
    assert (Hin : s ∈ sessions_from (src_ip s) active) by by apply sessions_from_elem.
    intros E. rewrite E in Hin. by apply elem_of_nil in Hin.
Qed.

Lemma src_rows_ips (active : list Session) (now : Q) :
  sr_ip <$> src_rows active now ≡ₚ remove_dups (src_ip <$> active).
Proof.
  unfold src_rows, sort_by_rev. rewrite sort_by_perm, <- list_fmap_compose.
  apply by_ip_keys.
Qed.

(** X12. The sources table has at most one row for an address and
    [min(max(0, topn), number of source addresses)] rows; when [topn]
    is not below the number of source addresses, every active
    session's source has its row; rows are by non-increasing number
    of sessions and, for equal numbers, by non-increasing oldest age. *)
Theorem sources_top_shape (a : App) (active : list Session) (now : Q)
    (topn : Z) (v : Views) :
  compute_views a active now topn = Ok v ->
  let ips := remove_dups (src_ip <$> active) in
  NoDup (sr_ip <$> sources_top v)
  /\ Z.of_nat (length (sources_top v)) =
       Z.min (Z.max 0 topn) (Z.of_nat (length ips))
  /\ (Z.of_nat (length ips) <= topn ->
      forall s, s ∈ active -> src_ip s ∈ sr_ip <$> sources_top v)
  /\ forall (i j : nat) (x y : SrcRow),
       (i < j)%nat ->
       sources_top v !! i = Some x -> sources_top v !! j = Some y ->
       sr_active y <= sr_active x
       /\ (sr_active x = sr_active y -> (sr_oldest_s y <= sr_oldest_s x)%Q).
Proof.
  intros Hv ips. apply compute_views_Ok in Hv as (h & _ & _ & _ & Hs & _).
  rewrite Hs, clamp_topn_take.
  pose proof (src_rows_ips active now) as Hperm. fold ips in Hperm.
  assert (Hlen : length (src_rows active now) = length ips).
  { rewrite <- (length_fmap sr_ip). by rewrite Hperm. }
  split; [|split; [|split]].
  - rewrite fmap_take. apply (sublist_NoDup _ (sr_ip <$> src_rows active now)); [|apply sublist_take].
    rewrite Hperm. apply NoDup_remove_dups.
  - rewrite length_take, Hlen. lia.
  - intros Hall s Hin. rewrite take_ge by lia. rewrite Hperm.
    apply elem_of_remove_dups, list_elem_of_fmap. by exists s.
  - intros i j x y Hij Hi Hj.
    apply lookup_take_Some in Hi as [Hi _]. apply lookup_take_Some in Hj as [Hj _].
    pose proof (StronglySorted_lookup _ _
      (sort_by_sorted _ (fun r => (sr_active r, sr_oldest_s r))
         (src_row now <$> by_ip active) (strict_weak_flip _ strict_weak_lt_Z_Q))
      i j x y Hij Hi Hj) as Ho.
    unfold in_order in Ho. apply lt_Z_Q_false in Ho. simpl in Ho.
    destruct Ho as [Ho|[Ho1 Ho2]]; (split; [lia|]); [intros; lia | done].
Qed.

(** ** Watched ports *)

Lemma append_nil_l (s : string) : "" ++ s = s.
Proof. reflexivity. Qed.

Lemma append_cons_l (c : ascii) (s t : string) :
  String c s ++ t = String c (s ++ t).
Proof. reflexivity. Qed.

Lemma split_first_Some (s a b : string) :
  split_first "-" s = Some (a, b) ->
  s = a ++ String "-" b /\ split_first "-" a = None.
Proof.
  revert a b. induction s as [|c s IH]; intros a b; cbn [split_first]; [done|].
  destruct (Ascii.eqb_spec c "-") as [Hc|Hc].
  - intros [= <- <-]. by rewrite Hc.
  - destruct (split_first "-" s) as [[a' b']|]; [|done].
    intros [= <- <-]. destruct (IH a' b' eq_refl) as [-> Hn].
    split; [done|]. cbn [split_first].
    destruct (Ascii.eqb_spec c "-"); [done|]. by rewrite Hn.
Qed.

Lemma split_first_None (s : string) :
  split_first "-" s = None <-> ~ has_dash s.
Proof.
  unfold has_dash. induction s as [|c s IH]; cbn [split_first].
  - split; [|done]. intros _ (x & y & H). by destruct x.
  - destruct (Ascii.eqb_spec c "-") as [Hc|Hc].
    + split; [done|]. intros H. destruct H. exists "", s. by rewrite Hc.
    + destruct (split_first "-" s) as [[a b]|] eqn:E.
      * split; [done|]. intros H. destruct H.
        apply split_first_Some in E as [-> _]. by exists (String c a), b.
      * split; [|done]. intros _ (x & y & H). destruct x as [|c' x].
        -- rewrite append_nil_l in H. congruence.
        -- rewrite append_cons_l in H. injection H as -> ->.
           apply IH; [done|]. by exists x, y.
Qed.

Lemma split_first_append (a b : string) :
  ~ has_dash a -> split_first "-" (a ++ String "-" b) = Some (a, b).
Proof.
  intros Hn. apply split_first_None in Hn. induction a as [|c a IH].
  - done.
  - rewrite append_cons_l. cbn [split_first] in *.
    destruct (Ascii.eqb_spec c "-"); [done|].
    destruct (split_first "-" a) as [[? ?]|]; [done|]. by rewrite IH.
Qed.

Lemma range_incl_elem (lo hi p : Z) : p ∈ range_incl lo hi <-> lo <= p <= hi.
Proof. unfold range_incl. rewrite elem_of_seqZ. lia. Qed.

(** What a token contributes: its number, or every port of its range. *)
Lemma token_ports_elem (tok : string) (p : Z) :
  p ∈ token_ports tok <->
  tok <> ""
  /\ ((~ has_dash tok /\ int_of_str tok = Some p)
      \/ exists (a b : string) (aa bb : Z),
           tok = a ++ String "-" b /\ ~ has_dash a
           /\ int_of_str a = Some aa /\ int_of_str b = Some bb
           /\ Z.min aa bb <= p <= Z.max aa bb).
Proof.
  unfold token_ports. destruct (String.eqb_spec tok "") as [He|He].
  { split; [intros H; by apply elem_of_nil in H | by intros [? _]]. }
  destruct (split_first "-" tok) as [[a b]|] eqn:E.
  - apply split_first_Some in E as [-> Ha]. apply split_first_None in Ha.
    split.
    + intros Hp. split; [done|]. right.
      destruct (int_of_str a) as [aa|] eqn:Ea; [|by apply elem_of_nil in Hp].
      destruct (int_of_str b) as [bb|] eqn:Eb; [|by apply elem_of_nil in Hp].
      apply range_incl_elem in Hp. by exists a, b, aa, bb.
    + intros [_ [[Hn _]|(a' & b' & aa & bb & Heq & Ha' & Ea & Eb & Hp)]].
      * destruct Hn. by exists a, b.
      * assert (Hs : Some (a, b) = Some (a', b')).
        { rewrite <- (split_first_append a b Ha), Heq.
          by apply split_first_append. }
        injection Hs as <- <-. rewrite Ea, Eb. by apply range_incl_elem.
  - apply split_first_None in E. split.
    + intros Hp. split; [done|]. left. split; [done|].
      destruct (int_of_str tok); [|by apply elem_of_nil in Hp].
      apply list_elem_of_singleton in Hp. by subst.
    + intros [_ [[_ Hi]|(a & b & _ & _ & Heq & _)]].
      * rewrite Hi. apply list_elem_of_here.
      * destruct E. by exists a, b.
Qed.

Lemma filter_StronglySorted {A : Type} (R : A -> A -> Prop) (f : A -> bool)
    (l : list A) :
  StronglySorted R l -> StronglySorted R (List.filter f l).
Proof.
  induction 1 as [|x l Hs IH Hall]; simpl; [constructor|].
  destruct (f x); [|done]. constructor; [done|].
  rewrite Forall_forall in Hall. apply Forall_forall. intros y Hy.
  apply list_elem_of_In, List.filter_In in Hy as [Hy _].
  apply Hall. by apply list_elem_of_In.
Qed.

Lemma FALLBACK_WATCH_PORTS_sorted : StronglySorted Z.lt FALLBACK_WATCH_PORTS.
Proof.
  apply Sorted_StronglySorted; [intros x y z; lia|].
  unfold FALLBACK_WATCH_PORTS.
  repeat (constructor; [|first [constructor; lia | constructor]]). constructor.
Qed.

Lemma listen_fold_elem (il : bool) (listening : list (string * Z)) (p : Z) :
  forall ports : gset Z,
    p ∈ foldl (listen_add il) ports listening <->
    p ∈ ports
    \/ exists ip, (ip, p) ∈ listening /\ (il = true \/ loopback_part ip = false).
Proof.
  induction listening as [|[ip q] l IH]; intros ports; simpl.
  - split; [by left|]. intros [?|(ip & H & _)]; [done | by apply elem_of_nil in H].
  - rewrite IH. unfold listen_add. simpl. fold (loopback_part ip).
    split.
    + intros [H|(ip' & Hin & Hc)].
      * destruct il; simpl in H.
        -- apply elem_of_union in H as [H|H]; [|by left].
           apply elem_of_singleton in H as ->. right. exists ip.
           split; [apply list_elem_of_here | by left].
        -- destruct (loopback_part ip) eqn:E; simpl in H; [by left|].
           apply elem_of_union in H as [H|H]; [|by left].
           apply elem_of_singleton in H as ->. right. exists ip.
           split; [apply list_elem_of_here | by right].
      * right. exists ip'. split; [by apply list_elem_of_further | done].
    + intros [H|(ip' & Hin & Hc)].
      * left. destruct (negb il && loopback_part ip); [done|].
        apply elem_of_union. by right.
      * apply elem_of_cons in Hin as [[= -> ->]|Hin].
        -- left. assert (negb il && loopback_part ip = false) as ->.
           { destruct Hc as [->| ->]; [done | by destruct il]. }
           apply elem_of_union. left. by apply elem_of_singleton.
        -- right. by exists ip'.
Qed.

Lemma not_admin_spec (p : Z) :
  not_admin p = true <-> p ∉ DEFAULT_EXCLUDE_ADMIN_PORTS.
Proof.
  unfold not_admin. rewrite negb_true_iff, bool_decide_eq_false. done.
Qed.

Lemma parse_listen_ports_spec (listening : list (string * Z)) (il ea : bool) :
  StronglySorted Z.lt (parse_listen_ports listening il ea)
  /\ forall p, p ∈ parse_listen_ports listening il ea <->
       (exists ip, (ip, p) ∈ listening /\ (il = true \/ loopback_part ip = false))
       /\ (ea = true -> p ∉ DEFAULT_EXCLUDE_ADMIN_PORTS).
Proof.
  unfold parse_listen_ports.
  set (X := if ea then _ else _).
  assert (Hperm : sort_by Z.ltb id (elements X) ≡ₚ elements X) by apply sort_by_perm.
  split.
  - apply in_order_Z_strict.
    + apply sort_by_sorted, strict_weak_Zltb.
    + rewrite Hperm. apply NoDup_elements.
  - intros p. rewrite Hperm, elem_of_elements. unfold X. destruct ea.
    + rewrite elem_of_difference, listen_fold_elem.
      split.
      * intros [[H|H] Hn]; [by apply elem_of_empty in H|]. done.
      * intros [H Hn]. split; [by right | by apply Hn].
    + rewrite listen_fold_elem. split.
      * intros [H|H]; [by apply elem_of_empty in H|]. done.
      * intros [H _]. by right.
Qed.

(** X13. Whatever the argument, the listening sockets and the
    toggles, [get_watched_ports] returns a strictly increasing list
    (so no port twice), and with [exclude_admin] on, none of the admin
    ports 64295, 64294, 64297 is in it. *)
Theorem watched_ports_ascending_without_admin
    (split_tokens : string -> list string) (args_watch_ports : option string)
    (listening : list (string * Z)) (include_loopback exclude_admin : bool) :
  let watched := get_watched_ports split_tokens args_watch_ports listening
                                   include_loopback exclude_admin in
  StronglySorted Z.lt watched
  /\ (exclude_admin = true ->
      forall p, p ∈ watched -> p ∉ DEFAULT_EXCLUDE_ADMIN_PORTS).
Proof.
  cbv zeta. unfold get_watched_ports.
  set (given := match args_watch_ports with Some _ => _ | None => _ end).
  destruct given as [s|].
  - destruct (sorted_set_Z_spec (mjoin (token_ports <$> split_tokens s)))
      as [_ Hs].
    split.
    + destruct exclude_admin; [by apply filter_StronglySorted | done].
    + intros -> p Hp. apply list_elem_of_In, List.filter_In in Hp as [_ Hp].
      by apply not_admin_spec.
  - destruct (parse_listen_ports_spec listening include_loopback exclude_admin)
      as [Hs Hel].
    destruct (parse_listen_ports listening include_loopback exclude_admin)
      as [|q l] eqn:E.
    + split.
      * apply filter_StronglySorted, FALLBACK_WATCH_PORTS_sorted.
      * intros -> p Hp. apply list_elem_of_In, List.filter_In in Hp as [_ Hp].
        rewrite orb_false_r in Hp. by apply not_admin_spec.
    + split; [done|]. intros He p Hp. apply Hel in Hp as [_ Hp]. by apply Hp.
Qed.

(** X14. With a non-empty [--watch-ports] argument the watched
    ports are exactly those named by a token: a token without a dash
    names the number [int] reads from it; a token [a-b] names every
    port between [int(a)] and [int(b)], in either order ([a] being the
    text before the first dash); tokens that [int] rejects name
    nothing. Admin ports are left out when [exclude_admin] is on. The
    listening sockets play no part, also when no token names a port. *)
Theorem explicit_ports_membership
    (split_tokens : string -> list string) (s : string)
    (listening : list (string * Z)) (include_loopback exclude_admin : bool)
    (p : Z) :
  s <> "" ->
  p ∈ get_watched_ports split_tokens (Some s) listening
                        include_loopback exclude_admin <->
  (exclude_admin = true -> p ∉ DEFAULT_EXCLUDE_ADMIN_PORTS)
  /\ exists tok, tok ∈ split_tokens s /\ tok <> ""
       /\ ((~ has_dash tok /\ int_of_str tok = Some p)
           \/ exists (a b : string) (aa bb : Z),
                tok = a ++ String "-" b /\ ~ has_dash a
                /\ int_of_str a = Some aa /\ int_of_str b = Some bb
                /\ Z.min aa bb <= p <= Z.max aa bb).
Proof.
  intros Hs. unfold get_watched_ports.
  destruct (String.eqb_spec s "") as [?|_]; [done|].
  destruct (sorted_set_Z_spec (mjoin (token_ports <$> split_tokens s)))
    as [Hel _].
  assert (Hin : p ∈ sorted_set_Z (mjoin (token_ports <$> split_tokens s)) <->
      exists tok, tok ∈ split_tokens s /\ tok <> ""
       /\ ((~ has_dash tok /\ int_of_str tok = Some p)
           \/ exists (a b : string) (aa bb : Z),
                tok = a ++ String "-" b /\ ~ has_dash a
                /\ int_of_str a = Some aa /\ int_of_str b = Some bb
                /\ Z.min aa bb <= p <= Z.max aa bb)).
  { rewrite Hel, list_elem_of_join. split.
    - intros (l & Hp & Hl). apply list_elem_of_fmap in Hl as (tok & -> & Ht).
      apply token_ports_elem in Hp as [? ?]. by exists tok.
    - intros (tok & Ht & Hne & H). exists (token_ports tok). split.
      + by apply token_ports_elem.
      + apply list_elem_of_fmap. by exists tok. }
  destruct exclude_admin.
  - rewrite list_elem_of_In, List.filter_In, <- list_elem_of_In, Hin, not_admin_spec.
    split; [intros [? ?]; by split | intros [H ?]; split; [done | by apply H]].
  - rewrite Hin. split; [by intros ? | by intros [_ ?]].
Qed.

(** X15. Without a [--watch-ports] argument (absent or empty) the
    watched ports are the listening ports that pass the loopback and
    admin exclusions, when there is at least one; otherwise they are
    the fallback ports, without the admin ports when [exclude_admin]
    is on. *)
Theorem listening_ports_or_fallback
    (split_tokens : string -> list string) (args_watch_ports : option string)
    (listening : list (string * Z)) (include_loopback exclude_admin : bool) :
  args_watch_ports = None \/ args_watch_ports = Some "" ->
  let watched := get_watched_ports split_tokens args_watch_ports listening
                                   include_loopback exclude_admin in
  let heard (p : Z) :=
    (exists ip, (ip, p) ∈ listening
                /\ (include_loopback = true \/ loopback_part ip = false))
    /\ (exclude_admin = true -> p ∉ DEFAULT_EXCLUDE_ADMIN_PORTS) in
  ((exists p, heard p) -> forall p, p ∈ watched <-> heard p)
  /\ ((forall p, ~ heard p) ->
      forall p, p ∈ watched <->
        p ∈ FALLBACK_WATCH_PORTS
        /\ (exclude_admin = true -> p ∉ DEFAULT_EXCLUDE_ADMIN_PORTS)).
Proof.
  intros Harg. cbv zeta. unfold get_watched_ports.
  assert (match args_watch_ports with
          | Some s => if String.eqb s "" then None else Some s
          | None => None
          end = None) as -> by (destruct Harg as [-> | ->]; done).
  destruct (parse_listen_ports_spec listening include_loopback exclude_admin)
    as [_ Hel].
  destruct (parse_listen_ports listening include_loopback exclude_admin)
    as [|q l] eqn:E.
  - split.
    + intros (p & Hp). apply Hel in Hp. by apply elem_of_nil in Hp.
    + intros _ p. rewrite list_elem_of_In, List.filter_In, <- list_elem_of_In.
      rewrite orb_true_iff, not_admin_spec, negb_true_iff.
      split; intros [H1 H2]; (split; [done|]).
      * intros ->. destruct H2; done.
      * destruct exclude_admin; [left; by apply H2 | by right].
  - split.
    + intros _ p. apply Hel.
    + intros Hn. destruct (Hn q). apply Hel. apply list_elem_of_here.
Qed.

(** ** Themes *)

Lemma len_THEMES_eq : len_THEMES = 25.
Proof. reflexivity. Qed.

Lemma THEMES_NoDup : NoDup THEMES.
Proof. apply (bool_decide_unpack (NoDup THEMES)). by vm_compute. Qed.

Lemma theme_lookup (i : Z) :
  THEMES !! Z.to_nat (i mod len_THEMES) = Some (theme i).
Proof.
  unfold theme. destruct (THEMES !! Z.to_nat (i mod len_THEMES)) eqn:E; [done|].
  apply lookup_ge_None in E. rewrite len_THEMES_eq in E.
  change (length THEMES) with 25%nat in E.
  pose proof (Z.mod_pos_bound i 25). lia.
Qed.

Lemma theme_eq (i j : Z) :
  theme i = theme j <-> i mod len_THEMES = j mod len_THEMES.
Proof.
  split.
  - intros H. pose proof (theme_lookup i) as Hi. pose proof (theme_lookup j) as Hj.
    rewrite H in Hi.
    pose proof (NoDup_lookup _ _ _ _ THEMES_NoDup Hi Hj) as Heq.
    rewrite len_THEMES_eq in *.
    pose proof (Z.mod_pos_bound i 25). pose proof (Z.mod_pos_bound j 25). lia.
  - intros H. unfold theme. by rewrite H.
Qed.

Lemma index_of_lookup (l : list string) (i : nat) (x : string) :
  NoDup l -> l !! i = Some x -> index_of x l = Some i.
Proof.
  revert i. induction l as [|y l IH]; intros i Hnd Hi; [done|].
  apply NoDup_cons in Hnd as [Hy Hnd]. cbn [index_of].
  destruct i as [|i]; simpl in Hi.
  - injection Hi as ->. by rewrite String.eqb_refl.
  - destruct (String.eqb_spec x y) as [->|_].
    + destruct Hy. by eapply list_elem_of_lookup_2.
    + by rewrite (IH i Hnd Hi).
Qed.

Lemma index_of_Some (l : list string) (i : nat) (x : string) :
  index_of x l = Some i -> l !! i = Some x.
Proof.
  revert i. induction l as [|y l IH]; intros i; cbn [index_of]; [done|].
  destruct (String.eqb_spec x y) as [->|_].
  - by intros [= <-].
  - destruct (index_of x l) as [j|]; [|done]. intros [= <-]. by apply IH.
Qed.

Lemma index_of_None (l : list string) (x : string) :
  index_of x l = None -> x ∉ l.
Proof.
  induction l as [|y l IH]; cbn [index_of]; intros H Hin.
  - by apply elem_of_nil in Hin.
  - destruct (String.eqb_spec x y) as [->|Hne]; [done|].
    destruct (index_of x l); [done|].
    apply elem_of_cons in Hin as [?|?]; [done | by apply IH].
Qed.

Lemma init_theme_idx_of (st : gmap string json) (i : Z) :
  0 <= i < len_THEMES ->
  st !! "theme" = Some (JStr (theme i)) ->
  init_theme_idx st = i.
Proof.
  intros Hi Hst. unfold init_theme_idx. rewrite Hst.
  pose proof (theme_lookup i) as Hl. rewrite Z.mod_small in Hl by done.
  rewrite (index_of_lookup _ _ _ THEMES_NoDup Hl). lia.
Qed.

Lemma toggle_theme_n_S (k : nat) (i : Z) (a : App) :
  toggle_theme_n (S k) i a =
    toggle_theme (toggle_theme_n k i a).1 (toggle_theme_n k i a).2.
Proof.
  revert i a. induction k as [|k IH]; intros i a.
  - cbn [toggle_theme_n fst snd]. by destruct (toggle_theme i a).
  - change (toggle_theme_n (S (S k)) i a)
      with (let '(j, a') := toggle_theme i a in toggle_theme_n (S k) j a').
    change (toggle_theme_n (S k) i a)
      with (let '(j, a') := toggle_theme i a in toggle_theme_n k j a').
    destruct (toggle_theme i a) as [j a']. apply IH.
Qed.

Lemma toggle_theme_n_spec (k : nat) (i : Z) (a : App) :
  (toggle_theme_n k i a).1 mod len_THEMES = (i + Z.of_nat k) mod len_THEMES
  /\ ((0 < k)%nat ->
      0 <= (toggle_theme_n k i a).1 < len_THEMES
      /\ stats (toggle_theme_n k i a).2 !! "theme" =
           Some (JStr (theme (toggle_theme_n k i a).1)))
  /\ (forall key, key <> "theme" ->
        stats (toggle_theme_n k i a).2 !! key = stats a !! key)
  /\ sessions (toggle_theme_n k i a).2 = sessions a
  /\ port_hits_run (toggle_theme_n k i a).2 = port_hits_run a.
Proof.
  induction k as [|k (IH1 & _ & IH3 & IH4 & IH5)].
  - cbn [toggle_theme_n fst snd]. rewrite Z.add_0_r.
    split; [done|]. split; [lia|]. done.
  - rewrite toggle_theme_n_S.
    set (j := (toggle_theme_n k i a).1) in *.
    set (b := (toggle_theme_n k i a).2) in *.
    unfold toggle_theme. cbn [fst snd].
    rewrite len_THEMES_eq in *.
    split; [|split; [|split; [|split]]].
    + rewrite Z.mod_mod by lia. rewrite Z.add_mod, IH1, <- Z.add_mod by lia.
      f_equal. lia.
    + intros _. split; [apply Z.mod_pos_bound; lia|].
      simpl. by rewrite lookup_insert_eq.
    + intros key Hk. simpl. rewrite lookup_insert_ne by done. by apply IH3.
    + simpl. exact IH4.
    + simpl. exact IH5.
Qed.

(** X16. Pressing the theme key [k] times moves [k] places round
    [THEMES]: the theme is always one of the list, it is the starting
    theme again exactly when [k] is a multiple of [len(THEMES)], the
    stats document carries the current theme's name after a press, and
    no other key of the document, no session and no counter changes. *)
Theorem theme_cycles (k : nat) (theme_idx : Z) (a : App) :
  let i' := (toggle_theme_n k theme_idx a).1 in
  let a' := (toggle_theme_n k theme_idx a).2 in
  theme i' = theme (theme_idx + Z.of_nat k)
  /\ theme i' ∈ THEMES
  /\ (theme i' = theme theme_idx <-> Z.of_nat k mod len_THEMES = 0)
  /\ ((0 < k)%nat -> stats a' !! "theme" = Some (JStr (theme i')))
  /\ (forall key, key <> "theme" -> stats a' !! key = stats a !! key)
  /\ sessions a' = sessions a
  /\ port_hits_run a' = port_hits_run a.
Proof.
  cbv zeta.
  destruct (toggle_theme_n_spec k theme_idx a) as (H1 & H2 & H3 & H4 & H5).
  split; [by apply theme_eq|]. split; [|split; [|split; [|done]]].
  - eapply list_elem_of_lookup_2, theme_lookup.
  - rewrite theme_eq, H1, len_THEMES_eq.
    rewrite Z.add_mod by lia. split.
    + intros H. pose proof (Z.mod_pos_bound theme_idx 25).
      pose proof (Z.mod_pos_bound (Z.of_nat k) 25).
      set (x := theme_idx mod 25) in *. set (y := Z.of_nat k mod 25) in *.
      destruct (decide (x + y < 25)).
      * rewrite Z.mod_small in H by lia. lia.
      * assert ((x + y) mod 25 = x + y - 25).
        { symmetry. apply (Z.mod_unique _ _ 1); lia. }
        lia.
    + intros ->. rewrite Z.add_0_r, Z.mod_mod by lia. done.
  - intros Hk. by apply H2.
Qed.

Lemma init_theme_idx_after_save (st : gmap string json) (i : Z)
    (disk_ok : bool) (t_now t_created t_updated : string) (f : stats_file) :
  0 <= i < len_THEMES ->
  st !! "theme" = Some (JStr (theme i)) ->
  (save_stats disk_ok t_now st).2 = Ok f ->
  init_theme_idx (load_stats f t_created t_updated) = i.
Proof.
  intros Hi Hst. unfold save_stats, _atomic_write. cbn [fst snd].
  destruct disk_ok; [|done]. intros [= <-].
  apply init_theme_idx_of; [done|].
  cbn [load_stats]. rewrite lookup_insert_ne by done.
  rewrite !setdefault_lookup.
  repeat case_decide; try done;
    rewrite ?lookup_insert_ne by done; by rewrite ?Hst.
Qed.

Lemma saved_theme_lookup (st : gmap string json) (disk_ok : bool)
    (t_now t_created t_updated : string) (f : stats_file) :
  (save_stats disk_ok t_now st).2 = Ok f ->
  load_stats f t_created t_updated !! "theme" =
    Some (default (JStr THEMES_0) (st !! "theme")).
Proof.
  unfold save_stats, _atomic_write. cbn [fst snd].
  destruct disk_ok; [|done]. intros [= <-].
  cbn [load_stats]. rewrite lookup_insert_ne by done.
  rewrite !setdefault_lookup.
  repeat case_decide; try done.
  by rewrite !lookup_insert_ne by done.
Qed.

(** X17. The theme survives a restart: when the stats of an app
    that started from its loaded stats and saw [k] presses of the theme
    key are saved, then loading the written file and initialising an
    app from it gives the theme index the app had. *)
Theorem theme_survives_restart (k : nat) (a : App) (disk_ok : bool)
    (t_now t_created t_updated : string) (f : stats_file) :
  let i' := (toggle_theme_n k (init_theme_idx (stats a)) a).1 in
  let a' := (toggle_theme_n k (init_theme_idx (stats a)) a).2 in
  (save_stats disk_ok t_now (stats a')).2 = Ok f ->
  init_theme_idx (load_stats f t_created t_updated) = i'.
Proof.
  cbv zeta. intros Hsave.
  destruct k as [|k].
  - cbn [toggle_theme_n fst snd] in *.
    unfold init_theme_idx at 1.
    rewrite (saved_theme_lookup _ _ _ _ _ _ Hsave). unfold init_theme_idx.
    destruct (stats a !! "theme") as [[| | | | | |]|]; done.
  - destruct (toggle_theme_n_spec (S k) (init_theme_idx (stats a)) a)
      as (_ & H2 & _).
    destruct H2 as [Hi Hst]; [lia|].
    eapply init_theme_idx_after_save; [exact Hi | exact Hst | exact Hsave].
Qed.

(** ** Text helpers *)

Lemma slice_to_length {A : Type} (n : Z) (l : list A) :
  Z.of_nat (length (slice_to n l)) =
    if (0 <=? n)%Z then Z.min n (Z.of_nat (length l))
    else Z.max 0 (Z.of_nat (length l) + n).
Proof.
  unfold slice_to. destruct (Z.leb_spec 0 n); rewrite length_take; lia.
Qed.

(** X18. For a width [n >= 0], [truncate] returns at most [n]
    characters, exactly [min(n, len(s))]: the string itself when it
    fits; otherwise its first [n - 1] characters and an ellipsis when
    [n >= 2], and its first [n] characters when [n <= 1]. *)
Theorem truncate_fits {A : Type} (ellipsis : A) (s : list A) (n : Z) :
  0 <= n ->
  Z.of_nat (length (truncate ellipsis s n)) = Z.min n (Z.of_nat (length s))
  /\ (Z.of_nat (length s) <= n -> truncate ellipsis s n = s)
  /\ (n < Z.of_nat (length s) -> 2 <= n ->
      truncate ellipsis s n = (take (Z.to_nat (n - 1)) s ++ [ellipsis])%list)
  /\ (n < Z.of_nat (length s) -> n <= 1 ->
      truncate ellipsis s n = take (Z.to_nat n) s).
Proof.
  intros Hn. unfold truncate.
  destruct (Z.leb_spec (Z.of_nat (length s)) n) as [Hfit|Hlong].
  - split; [lia|]. split; [done|]. split; intros; lia.
  - destruct (Z.leb_spec n 1) as [H1|H1].
    + split; [rewrite slice_to_length; destruct (Z.leb_spec 0 n); lia|].
      split; [intros; lia|]. split; [intros; lia|].
      intros _ _. by rewrite slice_to_take.
    + split.
      * rewrite length_app, Nat2Z.inj_add, slice_to_length. simpl.
        destruct (Z.leb_spec 0 (n - 1)); lia.
      * split; [intros; lia|]. split; [|intros; lia].
        intros _ _. by rewrite slice_to_take by lia.
Qed.

(** X19. [_get_primary_ip] returns ["0.0.0.0"] when the host has no
    address and otherwise one of the host's addresses: the first that
    does not start with ["127."] when there is one, and the first
    address when all of them do. *)
Theorem primary_ip_prefers_non_loopback (ips : list string) :
  let ip := _get_primary_ip ips in
  (ips = [] -> ip = "0.0.0.0")
  /\ (ips <> [] -> ip ∈ ips)
  /\ (forall x, x ∈ ips -> String.prefix "127." x = false ->
      String.prefix "127." ip = false
      /\ exists i, ips !! i = Some ip
           /\ forall j y, (j < i)%nat -> ips !! j = Some y ->
                          String.prefix "127." y = true)
  /\ ((forall x, x ∈ ips -> String.prefix "127." x = true) ->
      ip = default "0.0.0.0" (head ips)).
Proof.
  cbv zeta. unfold _get_primary_ip.
  assert (Hfind : forall l : list string,
    match List.find (fun ip => negb (String.prefix "127." ip)) l with
    | Some ip =>
        String.prefix "127." ip = false
        /\ exists i, l !! i = Some ip
             /\ forall j y, (j < i)%nat -> l !! j = Some y ->
                            String.prefix "127." y = true
    | None => forall x, x ∈ l -> String.prefix "127." x = true
    end).
  { induction l as [|y l IH]; simpl.
    - intros x Hx. by apply elem_of_nil in Hx.
    - destruct (String.prefix "127." y) eqn:E; simpl.
      + destruct (List.find _ l) as [ip|].
        * destruct IH as (Hp & i & Hi & Hlt). split; [done|].
          exists (S i). split; [done|]. intros [|j] z Hj Hz.
          -- simpl in Hz. by injection Hz as <-.
          -- simpl in Hz. apply (Hlt j); [lia | done].
        * intros x Hx. apply elem_of_cons in Hx as [->|Hx]; [done | by apply IH].
      + split; [done|]. exists 0%nat. split; [done|]. intros; lia. }
  specialize (Hfind ips).
  destruct (List.find _ ips) as [ip|] eqn:E.
  - destruct Hfind as (Hp & i & Hi & Hlt).
    split; [by intros ->|]. split; [intros _; by eapply list_elem_of_lookup_2|].
    split; [intros _ _ _; split; [done | by exists i]|].
    intros Hall. apply list_elem_of_lookup_2 in Hi. apply Hall in Hi. congruence.
  - split; [by intros ->|]. split.
    + destruct ips; [done|]. intros _. apply list_elem_of_here.
    + split; [|by destruct ips].
      intros x Hx Hn. apply Hfind in Hx. congruence.
Qed.

(** ** System metrics *)

Lemma max0_min100_bounds (q : Q) :
  (0 <= max0 (min100 q))%Q /\ (max0 (min100 q) <= 100)%Q.
Proof.
  unfold max0, min100. destruct (Qltb q 100) eqn:E.
  - apply Qltb_lt in E. destruct (Qle_bool q 0) eqn:E0.
    + split; [apply Qle_refl | done].
    + split; [|by apply Qlt_le_weak].
      destruct (Qlt_le_dec 0 q) as [H|H]; [by apply Qlt_le_weak|].
      apply Qle_bool_iff in H. congruence.
  - destruct (Qle_bool 100 0) eqn:E0; [done|]. split; [done | apply Qle_refl].
Qed.

Lemma max0_min100_id (q : Q) :
  (0 <= q)%Q -> (q <= 100)%Q -> (max0 (min100 q) == q)%Q.
Proof.
  intros H0 H1. unfold max0, min100. destruct (Qltb q 100) eqn:E.
  - destruct (Qle_bool q 0) eqn:E0; [|reflexivity].
    apply Qle_bool_iff in E0. by apply Qle_antisym.
  - apply Qltb_ge in E. destruct (Qle_bool 100 0) eqn:E0; [done|].
    by apply Qle_antisym.
Qed.

(** X20. [cpu_percent] always returns a value between 0 and 100.
    A reading with at least four fields is remembered as (idle, total);
    an unreadable or shorter one leaves the remembered reading as it
    was and gives 0. The first reading gives 0, as does one whose total
    did not grow; otherwise, when idle time grew by [di] with
    [0 <= di <= dt], the value is [100 * (dt - di) / dt]. *)
Theorem cpu_percent_bounded (vals : option (list Z)) (last_cpu : option (Z * Z)) :
  let pct := (cpu_percent vals last_cpu).1 in
  let last' := (cpu_percent vals last_cpu).2 in
  (0 <= pct)%Q /\ (pct <= 100)%Q
  /\ (forall vs, vals = Some vs -> (4 <= length vs)%nat ->
        last' = Some (cpu_idle vs, py_sum vs))
  /\ ((forall vs, vals = Some vs -> (length vs < 4)%nat) -> 
        last' = last_cpu /\ pct = 0%Q)
  /\ (last_cpu = None -> pct = 0%Q)
  /\ (forall vs idle0 total0,
        vals = Some vs -> (4 <= length vs)%nat ->
        last_cpu = Some (idle0, total0) ->
        let di := cpu_idle vs - idle0 in
        let dt := py_sum vs - total0 in
        (dt <= 0 -> pct = 0%Q)
        /\ (0 <= di <= dt -> 0 < dt ->
            (pct == inject_Z (100 * (dt - di)) / inject_Z dt)%Q)).
Proof.
  cbv zeta. unfold cpu_percent.
  destruct vals as [vs|].
  2:{ cbn [fst snd]. split; [done|]. split; [done|]. split; [done|].
      split; [done|]. split; [done|]. done. }
  destruct (vs !! 3%nat) as [v3|] eqn:E3.
  2:{ cbn [fst snd]. apply lookup_ge_None in E3.
      split; [done|]. split; [done|]. split; [intros ? [= <-]; lia|].
      split; [done|]. split; [done|]. intros ? ? ? [= <-]; lia. }
  assert (Hlen : (4 <= length vs)%nat).
  { apply lookup_lt_Some in E3. lia. }
  assert (Hidle : v3 + (if (4 <? length vs)%nat then default 0 (vs !! 4%nat) else 0)
                  = cpu_idle vs).
  { unfold cpu_idle. rewrite E3. simpl. f_equal.
    destruct (Nat.ltb_spec 4 (length vs)) as [H|H]; [done|].
    rewrite (proj2 (lookup_ge_None vs 4)) by lia. done. }
  rewrite Hidle.
  destruct last_cpu as [[idle0 total0]|].
  2:{ cbn [fst snd]. split; [done|]. split; [done|].
      split; [by intros ? [= <-]|]. split; [intros H; specialize (H vs eq_refl); lia|].
      split; [done|]. done. }
  destruct (Z.leb_spec (py_sum vs - total0) 0) as [Hdt|Hdt]; cbn [fst snd].
  - split; [done|]. split; [done|]. split; [by intros ? [= <-]|].
    split; [intros H; specialize (H vs eq_refl); lia|]. split; [done|].
    intros ? ? ? [= <-] _ [= <- <-]. split; [done | lia].
  - destruct (max0_min100_bounds
      (inject_Z (py_sum vs - total0 - (cpu_idle vs - idle0))
       / inject_Z (py_sum vs - total0) * 100)) as [Hb0 Hb1].
    split; [done|]. split; [done|]. split; [by intros ? [= <-]|].
    split; [intros H; specialize (H vs eq_refl); lia|]. split; [done|].
    intros ? ? ? [= <-] _ [= <- <-]. split; [lia|].
    intros Hdi _.
    set (dt := py_sum vs - total0) in *. set (di := cpu_idle vs - idle0) in *.
    assert (Hq : (inject_Z (dt - di) / inject_Z dt * 100
                  == inject_Z (100 * (dt - di)) / inject_Z dt)%Q).
    { rewrite inject_Z_mult. field.
      intros H. unfold Qeq in H. simpl in H. lia. }
    rewrite max0_min100_id; [done| |].
    + rewrite Hq. apply Qle_shift_div_l.
      * change 0%Q with (inject_Z 0). rewrite <- Zlt_Qlt. lia.
      * rewrite Qmult_0_l. change 0%Q with (inject_Z 0). rewrite <- Zle_Qle. lia.
    + rewrite Hq. apply Qle_shift_div_r.
      * change 0%Q with (inject_Z 0). rewrite <- Zlt_Qlt. lia.
      * change 100%Q with (inject_Z 100). rewrite <- inject_Z_mult, <- Zle_Qle. lia.
Qed.

End Properties.

(** * The worked example, checked against the properties *)

#[local] Existing Instance decimal_interp.

Lemma finalized_exactly_after_grace_witness :
  sess_get demo_key (sessions demo_out3.1.1) = Some demo_session
  /\ sess_get demo_key (sessions demo_out4.1.1) = None
  /\ exists x : json,
       x ∈ ended_history (stats demo_out4.1.1)
       /\ record_of demo_wall demo_out3.1.1 demo_session x.
Proof.
  assert (Hu3 : update_sessions [] demo_wall
                  demo_out2.1.1 demo_watched 12 =
                Ok (demo_out3.1.1, demo_out3.1.2, demo_out3.2))
    by (vm_compute; reflexivity).
  assert (Hu4 : update_sessions [] demo_wall
                  demo_out3.1.1 demo_watched 13 =
                Ok (demo_out4.1.1, demo_out4.1.2, demo_out4.2))
    by (vm_compute; reflexivity).
  assert (Hnd2 : NoDup ((sessions demo_out2.1.1).*1))
    by (apply (bool_decide_unpack _); vm_compute; exact I).
  assert (Hnd3 : NoDup ((sessions demo_out3.1.1).*1))
    by (apply (bool_decide_unpack _); vm_compute; exact I).
  assert (Hseen : forall a, demo_key ∉ observed_keys a demo_watched []).
  { intros a. apply not_elem_of_empty. }
  split; [|split].
  - destruct (finalized_exactly_after_grace _ _ _ _ _ _ _ _ Hu3 Hnd2)
      as (fin & old & recs & sorted & _ & _ & _ & _ & _ & _ & _ & H).
    destruct (H demo_key demo_session eq_refl) as (_ & _ & Hstay & _).
    apply Hstay; [apply Hseen | reflexivity].
  - destruct (finalized_exactly_after_grace _ _ _ _ _ _ _ _ Hu4 Hnd3)
      as (fin & old & recs & sorted & _ & _ & _ & _ & _ & _ & _ & H).
    destruct (H demo_key demo_session eq_refl) as (_ & Hgone & _).
    apply Hgone. split; [apply Hseen | discriminate].
  - destruct (finalized_exactly_after_grace _ _ _ _ _ _ _ _ Hu4 Hnd3)
      as (fin & old & recs & sorted & _ & _ & _ & _ & Hrec & Hall & _ & H).
    destruct (H demo_key demo_session eq_refl) as (Hfin & _).
    destruct (Hrec demo_key demo_session) as (x & Hx & Hr).
    { apply Hfin. split; [apply Hseen | discriminate]. }
    exists x. split; [|exact Hr].
    rewrite Hall; [exact Hx | vm_compute; reflexivity].
Defined.



Lemma first_sighting_counts_once_witness :
  run_hits (port_hits_run demo_out1.1.1) 22 = 1
  /\ run_hits (port_hits_run demo_out2.1.1) 22 = 1.
Proof.
  assert (Hu1 : update_sessions [demo_row; demo_row] demo_wall demo_app
                  demo_watched 0 =
                Ok (demo_out1.1.1, demo_out1.1.2, demo_out1.2))
    by (vm_compute; reflexivity).
  assert (Hu2 : update_sessions [demo_row] demo_wall demo_out1.1.1
                  demo_watched 5 =
                Ok (demo_out2.1.1, demo_out2.1.2, demo_out2.2))
    by (vm_compute; reflexivity).
  assert (Hnd0 : NoDup ((sessions demo_app).*1)) by constructor.
  assert (Hnd1 : NoDup ((sessions demo_out1.1.1).*1))
    by (apply (bool_decide_unpack _); vm_compute; exact I).
  split.
  - destruct (first_sighting_counts_once _ _ _ _ _ _ _ _ Hu1 Hnd0)
      as (_ & Hrun & _).
    rewrite (Hrun 22). vm_compute. reflexivity.
  - destruct (first_sighting_counts_once _ _ _ _ _ _ _ _ Hu2 Hnd1)
      as (_ & Hrun & _).
    rewrite (Hrun 22). vm_compute. reflexivity.
Defined.

Lemma filtered_rows_are_discarded_witness :
  update_sessions [demo_admin_row; demo_row] demo_wall demo_app
    [22; 80; 64295] 0 =
  update_sessions [demo_row] demo_wall demo_app [22; 80; 64295] 0.
Proof.
  destruct filtered_rows_are_discarded as (_ & Hpoll & _).
  apply (Hpoll [] [demo_row] demo_admin_row).
  right. right. left. split; [reflexivity|].
  apply (bool_decide_unpack _). vm_compute. exact I.
Defined.

Lemma store_invariant_witness :
  (first_seen demo_session <= last_seen demo_session)%Q
  /\ (demo_key ∈ observed_keys demo_out2.1.1 demo_watched []
      \/ float_lt (12 - last_seen demo_session) (grace (args demo_out2.1.1))).
Proof.
  destruct (store_invariant demo_events demo_app demo_out2.1.1 NoFile NoFile
              [] demo_wall demo_watched 12 demo_out3.1.1 demo_out3.1.2 demo_out3.2)
    with (k := demo_key) (s := demo_session) as (H1 & _ & H3).
  - reflexivity.
  - vm_compute. reflexivity.
  - simpl. repeat split; intros t' Ht'; simpl in Ht';
      repeat (destruct Ht' as [<-|Ht']; [discriminate|]); destruct Ht'.
  - vm_compute. reflexivity.
  - reflexivity.
  - split; [exact H1|]. apply H3. discriminate.
Defined.

(** With [--grace nan] the flow seen at time 0 is still in the store
    at time 100: its key was not observed, and [now - last_seen] is
    not less than the grace period. *)
Lemma store_invariant_fails_for_nan_grace :
  sessions demo_nan_app = []
  /\ run (demo_nan_app, NoFile) [Poll [demo_row] demo_wall demo_watched 0] =
       Ok (demo_nan_1.1.1, NoFile)
  /\ update_sessions [] demo_wall demo_nan_1.1.1 demo_watched 100 =
       Ok (demo_nan_2.1.1, demo_nan_2.1.2, demo_nan_2.2)
  /\ sess_get demo_key (sessions demo_nan_2.1.1) = Some demo_nan_session
  /\ (demo_key ∉ observed_keys demo_nan_1.1.1 demo_watched [])
  /\ ~ float_lt (100 - last_seen demo_nan_session) (grace (args demo_nan_1.1.1)).
Proof.
  split; [reflexivity|]. split; [vm_compute; reflexivity|].
  split; [vm_compute; reflexivity|]. split; [reflexivity|].
  split; [apply not_elem_of_empty|]. intros H. exact H.
Qed.

Lemma save_load_roundtrip_witness :
  exists f : stats_file,
    save_stats true "2026-01-02T00:00:00+00:00" demo_stats =
      (<["updated" := JStr "2026-01-02T00:00:00+00:00"]> demo_stats, Ok f)
    /\ load_stats f "t1" "t2" =
         <["updated" := JStr "2026-01-02T00:00:00+00:00"]> demo_stats
    /\ (forall k : string, k <> "updated" -> load_stats f "t1" "t2" !! k = demo_stats !! k).
Proof.
  apply save_load_roundtrip.
  unfold stats_document. repeat split; vm_compute; eauto.
Defined.



Lemma ended_record_duration_witness :
  exists m : gmap string json,
    ended_record (demo_wall 0) "unmapped" demo_session = JObj m
    /\ m !! "duration_s" = Some (JInt 5).
Proof.
  destruct (ended_record_duration demo_wall demo_out3.1.1 [demo_session]
              (ended_record (demo_wall 0) "unmapped" demo_session))
    as (sess & m & Hin & Hrec & Hd & _).
  - apply list_elem_of_here.
  - apply list_elem_of_singleton in Hin. subst sess.
    exists m. split; [exact Hrec | exact Hd].
Defined.

Lemma reset_lifetime_hits_frame_witness :
  stats (reset_lifetime_hits true "2026-01-02T00:00:00+00:00" demo_out4.1.1).1
    !! "lifetime_port_hits" = Some (JObj ∅)
  /\ stats (reset_lifetime_hits true "2026-01-02T00:00:00+00:00" demo_out4.1.1).1
       !! "ended_history" = stats demo_out4.1.1 !! "ended_history"
  /\ stats (reset_lifetime_hits true "2026-01-02T00:00:00+00:00" demo_out4.1.1).1
       !! "theme" = stats demo_out4.1.1 !! "theme".
Proof.
  destruct (reset_lifetime_hits_frame true "2026-01-02T00:00:00+00:00" demo_out4.1.1)
    as (Hl & Hh & _ & _ & Hk & _).
  split; [exact Hl|]. split; [exact Hh|].
  apply Hk; discriminate.
Defined.

(** The document does not come out of a reset with only its counters
    changed: the save at its end renews the [updated] stamp. *)
Lemma reset_lifetime_hits_restamps :
  "updated" <> "lifetime_port_hits"
  /\ stats (reset_lifetime_hits true "2026-01-02T00:00:00+00:00" demo_app).1
       !! "updated" <> stats demo_app !! "updated".
Proof. split; [discriminate|]. vm_compute. discriminate. Qed.

Lemma is_private_ipv4_spec_witness :
  _is_private_ipv4 "172.20.1.1" = true
  /\ visit_row (list_to_set demo_watched) 0 (mkPass demo_app ∅ ∅) demo_loopback_row
     = Ok (mkPass demo_app ∅ ∅).
Proof.
  split.
  - apply (proj1 (is_private_ipv4_spec "172.20.1.1")).
    do 4 right. split; [by exists "20.1.1"|].
    exists "20", 20. split; [reflexivity|]. split; [reflexivity | lia].
  - apply (proj2 (is_private_ipv4_spec "")); [reflexivity|].
    left. by exists "0.0.1".
Defined.

(** The example of the specification: a flow first seen at 0, still
    there at 5 and gone afterwards is still tracked at 12 and is moved
    to the history at 13, with a duration of 5 seconds and no
    container. *)
Example demo_flow_history :
  sessions demo_out3.1.1 = [(demo_key, demo_session)]
  /\ sessions demo_out4.1.1 = []
  /\ ended_history (stats demo_out4.1.1) =
       [ended_record (demo_wall 0) "unmapped" demo_session]
  /\ duration_s demo_session = 5
  /\ lifetime_hits (stats demo_out4.1.1) 22 = Some (JInt 1).
Proof. repeat split; vm_compute; reflexivity. Qed.

(** With a negative capacity the cut is Python's [hist[:-1]]: the last
    entry goes, whatever the length. *)
Example slice_to_negative :
  slice_to (-1) [JInt 3; JInt 2; JInt 1] = [JInt 3; JInt 2].
Proof. reflexivity. Qed.

(** A stats file that is a JSON object is taken as it is: when its
    history is not a list of dicts the document loads, and the first
    poll raises. *)
Example ill_shaped_history_raises :
  update_sessions [] demo_wall
    (App_init demo_args "/root/.tarpit_watch_stats.json"
       (load_stats (Parsed (JObj {["ended_history" := JArr [JInt 1]]})) "t1" "t2"))
    demo_watched 0
  = Raise AttributeError.
Proof. vm_compute. reflexivity. Qed.

(** ** The worked example and the further properties *)

Lemma state_counts_of_poll_witness :
  default 0 (demo_out1.1.2 !! "ESTABLISHED") = 2
  /\ demo_out1.1.2 !! "SYN_RECV" = None.
Proof.
  assert (Hu1 : update_sessions [demo_row; demo_row] demo_wall demo_app
                  demo_watched 0 =
                Ok (demo_out1.1.1, demo_out1.1.2, demo_out1.2))
    by (vm_compute; reflexivity).
  split.
  - rewrite (proj1 (state_counts_of_poll _ _ _ _ _ _ _ _ Hu1 "ESTABLISHED")).
    vm_compute. reflexivity.
  - apply (proj2 (state_counts_of_poll _ _ _ _ _ _ _ _ Hu1 "SYN_RECV")).
    vm_compute. reflexivity.
Defined.

Lemma run_counters_never_decrease_witness :
  run_hits (port_hits_run demo_app) 22
  <= run_hits (port_hits_run demo_out2.1.1) 22
  /\ exists (a' : App) (f' : stats_file),
       run (demo_out2.1.1, NoFile) demo_reset_events = Ok (a', f')
       /\ port_hits_run a' = port_hits_run demo_out2.1.1
       /\ run_hits (port_hits_run a') 22 = 1
       /\ lifetime_hits (stats a') 22 = None.
Proof.
  split.
  - apply (run_counters_never_decrease demo_events demo_app demo_out2.1.1
             NoFile NoFile).
    vm_compute. reflexivity.
  - destruct (run (demo_out2.1.1, NoFile) demo_reset_events) as [[a' f']|e] eqn:E;
      [|vm_compute in E; discriminate].
    exists a', f'. split; [reflexivity|].
    destruct (run_counters_never_decrease demo_reset_events _ _ _ _ E)
      as (_ & Heq & _).
    split; [by apply Heq|]. rewrite (Heq eq_refl).
    split; [vm_compute; reflexivity|].
    vm_compute in E. injection E as <- _. vm_compute. reflexivity.
Defined.

Lemma lifetime_is_baseline_plus_run_witness :
  lifetime_hits (stats demo_out2.1.1) 80 = lifetime_hits (stats demo_app) 80
  /\ exists n0 : Z,
       py_int (default (JInt 0) (lifetime_hits (stats demo_app) 22)) = Ok n0
       /\ lifetime_hits (stats demo_out2.1.1) 22 =
            Some (JInt (n0 + run_hits (port_hits_run demo_out2.1.1) 22)).
Proof.
  assert (Hrun : run (demo_app, NoFile) demo_events = Ok (demo_out2.1.1, NoFile))
    by (vm_compute; reflexivity).
  assert (Hnr : Forall not_reset demo_events)
    by (repeat constructor).
  split.
  - apply (lifetime_is_baseline_plus_run demo_events demo_app demo_out2.1.1
             NoFile NoFile eq_refl Hnr Hrun 80).
    vm_compute. reflexivity.
  - apply (lifetime_is_baseline_plus_run demo_events demo_app demo_out2.1.1
             NoFile NoFile eq_refl Hnr Hrun 22).
    vm_compute. reflexivity.
Defined.

Lemma history_size_after_poll_witness :
  Z.of_nat (length (ended_history (stats demo_out4.1.1))) = 1.
Proof.
  assert (Hu4 : update_sessions [] demo_wall demo_out3.1.1 demo_watched 13 =
                Ok (demo_out4.1.1, demo_out4.1.2, demo_out4.2))
    by (vm_compute; reflexivity).
  assert (Hnd3 : NoDup ((sessions demo_out3.1.1).*1))
    by (apply (bool_decide_unpack _); vm_compute; exact I).
  assert (Hn : 0 <= history_n (args demo_out3.1.1)) by (vm_compute; discriminate).
  destruct (history_size_after_poll _ _ _ _ _ _ _ _ Hu4 Hnd3 Hn)
    as (old & Hold & Hlen & _).
  rewrite Hlen. vm_compute in Hold. injection Hold as <-.
  vm_compute. reflexivity.
Defined.

Lemma load_stats_keeps_fields_witness :
  load_stats (Parsed (JObj demo_old_file)) "t1" "t2" !! "lifetime_port_hits"
    = Some (JObj {[ "22" := JInt 7 ]})
  /\ load_stats (Parsed (JObj demo_old_file)) "t1" "t2" !! "theme"
       = Some (JStr THEMES_0).
Proof.
  destruct (load_stats_keeps_fields demo_old_file "t1" "t2")
    as (_ & Hkeep & _ & _ & _ & Htheme & _).
  split.
  - apply Hkeep; [discriminate | reflexivity].
  - apply Htheme. reflexivity.
Defined.

Lemma poll_again_changes_nothing_witness :
  update_sessions [demo_row] demo_wall demo_out2.1.1 demo_watched 5 =
  Ok (demo_out2.1.1, demo_out2.1.2, demo_out2.2).
Proof.
  apply (poll_again_changes_nothing [demo_row] demo_wall demo_wall demo_out1.1.1).
  - vm_compute. reflexivity.
  - apply (bool_decide_unpack _). vm_compute. exact I.
  - vm_compute. discriminate.
Defined.

Lemma sessions_top_ranked_witness :
  Z.of_nat (length (sessions_top demo_views)) = 2
  /\ (age_s demo_other_session 10 <= age_s demo_session 10)%Q.
Proof.
  assert (Hv : compute_views demo_out2.1.1 demo_active 10 2 = Ok demo_views)
    by (vm_compute; reflexivity).
  destruct (sessions_top_ranked _ _ _ _ _ Hv) as (_ & Hlen & Hord).
  split.
  - rewrite Hlen. reflexivity.
  - apply (Hord 0%nat 1%nat demo_session demo_other_session);
      [lia | reflexivity | reflexivity | done].
Defined.

Lemma est_top_longest_established_witness :
  (forall s, s ∈ est_top demo_views -> s ∈ demo_active /\ state s = "ESTABLISHED")
  /\ (age_s demo_other_session 10 <= age_s demo_session 10)%Q.
Proof.
  assert (Hv : compute_views demo_out2.1.1 demo_active 10 2 = Ok demo_views)
    by (vm_compute; reflexivity).
  destruct (est_top_longest_established _ _ _ _ _ Hv) as (_ & Hin & Hord & _).
  split; [exact Hin|].
  apply (Hord 0%nat 1%nat demo_session demo_other_session);
    [lia | reflexivity | reflexivity].
Defined.

Lemma views_after_poll_witness :
  exists v : Views,
    compute_views demo_out4.1.1 demo_out4.2 14 10 = Ok v
    /\ ended_hist v = ended_history (stats demo_out4.1.1).
Proof.
  apply (views_after_poll [] demo_wall demo_out3.1.1 demo_watched 13
           demo_out4.1.1 demo_out4.1.2 demo_out4.2 14 10).
  - vm_compute. reflexivity.
  - vm_compute. discriminate.
Defined.

Lemma port_table_counts_witness :
  (22, 2) ∈ view_port_active_items demo_views
  /\ total_count (view_port_active_items demo_views) = 3.
Proof.
  assert (Hv : compute_views demo_out2.1.1 demo_active 10 2 = Ok demo_views)
    by (vm_compute; reflexivity).
  destruct (port_table_counts _ _ _ _ _ Hv) as (_ & Hel & Htot & _).
  split.
  - apply Hel. split; [reflexivity | reflexivity].
  - rewrite Htot. reflexivity.
Defined.

Lemma source_row_summarizes_its_sessions_witness :
  sr_active demo_src_row = 2
  /\ StronglySorted Z.lt (sr_ports demo_src_row)
  /\ exists s, s ∈ sessions_from "203.0.113.9" demo_active
               /\ sr_oldest_s demo_src_row = age_s s 10.
Proof.
  assert (Hv : compute_views demo_out2.1.1 demo_active 10 2 = Ok demo_views)
    by (vm_compute; reflexivity).
  assert (Hin : demo_src_row ∈ sources_top demo_views)
    by apply list_elem_of_here.
  destruct (source_row_summarizes_its_sessions _ _ _ _ _ _ Hv Hin)
    as (Hn & _ & _ & Hp & _ & _ & Ho & _).
  split; [|split; [exact Hp | exact Ho]].
  rewrite Hn. reflexivity.
Defined.

Lemma sources_top_shape_witness :
  NoDup (sr_ip <$> sources_top demo_views)
  /\ forall s, s ∈ demo_active -> src_ip s ∈ sr_ip <$> sources_top demo_views.
Proof.
  assert (Hv : compute_views demo_out2.1.1 demo_active 10 2 = Ok demo_views)
    by (vm_compute; reflexivity).
  destruct (sources_top_shape _ _ _ _ _ Hv) as (Hnd & _ & Hcov & _).
  split; [exact Hnd|]. apply Hcov. vm_compute. discriminate.
Defined.

Lemma watched_ports_ascending_without_admin_witness :
  StronglySorted Z.lt
    (get_watched_ports demo_split_tokens (Some "80-82,22,64295") demo_listening
                       true true)
  /\ forall p,
       p ∈ get_watched_ports demo_split_tokens None demo_listening true true ->
       p ∉ DEFAULT_EXCLUDE_ADMIN_PORTS.
Proof.
  split.
  - apply (watched_ports_ascending_without_admin demo_split_tokens
             (Some "80-82,22,64295") demo_listening true true).
  - apply (watched_ports_ascending_without_admin demo_split_tokens
             None demo_listening true true). reflexivity.
Defined.

Lemma explicit_ports_membership_witness :
  81 ∈ get_watched_ports demo_split_tokens (Some "80-82,22,64295")
         demo_listening true true.
Proof.
  apply explicit_ports_membership; [discriminate|].
  split.
  - intros _. apply (bool_decide_unpack _). vm_compute. exact I.
  - exists "80-82". split; [apply list_elem_of_here|]. split; [discriminate|].
    right. exists "80", "82", 80, 82.
    split; [reflexivity|]. split; [by apply split_first_None|].
    split; [reflexivity|]. split; [reflexivity | lia].
Defined.

Lemma listening_ports_or_fallback_witness :
  22 ∈ get_watched_ports demo_split_tokens None demo_listening false true
  /\ (21 ∈ get_watched_ports demo_split_tokens (Some "") [] true true <->
      21 ∈ FALLBACK_WATCH_PORTS
      /\ (true = true -> 21 ∉ DEFAULT_EXCLUDE_ADMIN_PORTS)).
Proof.
  split.
  - destruct (listening_ports_or_fallback demo_split_tokens None demo_listening
                false true (or_introl eq_refl)) as [Hheard _].
    assert (H22 : (exists ip, (ip, 22) ∈ demo_listening
                     /\ (false = true \/ loopback_part ip = false))
                  /\ (true = true -> 22 ∉ DEFAULT_EXCLUDE_ADMIN_PORTS)).
    { split.
      - exists "0.0.0.0". split; [apply list_elem_of_here | by right].
      - intros _. apply (bool_decide_unpack _). vm_compute. exact I. }
    apply Hheard; [by exists 22 | exact H22].
  - destruct (listening_ports_or_fallback demo_split_tokens (Some "") []
                true true (or_intror eq_refl)) as [_ Hfall].
    apply Hfall. intros p [(ip & Hin & _) _]. by apply elem_of_nil in Hin.
Defined.

Lemma theme_cycles_witness :
  theme (toggle_theme_n 25 3 demo_app).1 = theme 3
  /\ theme (toggle_theme_n 2 3 demo_app).1 = theme 5.
Proof.
  split.
  - apply (theme_cycles 25 3 demo_app). reflexivity.
  - apply (theme_cycles 2 3 demo_app).
Defined.

Lemma theme_survives_restart_witness :
  init_theme_idx
    (load_stats
       (Parsed (JObj (save_stats true "2026-01-02T00:00:00+00:00"
                        (stats (toggle_theme_n 2 0 demo_app).2)).1))
       "t1" "t2") = 2.
Proof.
  etransitivity.
  - apply (theme_survives_restart 2 demo_app true "2026-01-02T00:00:00+00:00"
             "t1" "t2").
    vm_compute. reflexivity.
  - vm_compute. reflexivity.
Defined.

Lemma truncate_fits_witness :
  Z.of_nat (length (truncate "~"%char ["s"; "e"; "s"; "s"; "i"; "o"; "n"]%char 4)) = 4
  /\ truncate "~"%char ["s"; "e"; "s"; "s"; "i"; "o"; "n"]%char 4
     = ["s"; "e"; "s"; "~"]%char.
Proof.
  destruct (truncate_fits "~"%char ["s"; "e"; "s"; "s"; "i"; "o"; "n"]%char 4)
    as (Hlen & _ & Hcut & _); [lia|].
  split.
  - rewrite Hlen. reflexivity.
  - rewrite Hcut; [reflexivity | simpl; lia | lia].
Defined.

Lemma primary_ip_prefers_non_loopback_witness :
  String.prefix "127." (_get_primary_ip ["127.0.0.1"; "192.0.2.7"]) = false
  /\ _get_primary_ip ["127.0.0.1"; "127.0.0.2"] = "127.0.0.1".
Proof.
  split.
  - destruct (primary_ip_prefers_non_loopback ["127.0.0.1"; "192.0.2.7"])
      as (_ & _ & H & _).
    apply (H "192.0.2.7"); [|reflexivity].
    apply list_elem_of_further, list_elem_of_here.
  - destruct (primary_ip_prefers_non_loopback ["127.0.0.1"; "127.0.0.2"])
      as (_ & _ & _ & H).
    apply H. intros x Hx.
    apply elem_of_cons in Hx as [->|Hx]; [reflexivity|].
    apply list_elem_of_singleton in Hx as ->. reflexivity.
Defined.

Lemma cpu_percent_bounded_witness :
  ((cpu_percent (Some demo_cpu_vals) demo_last_cpu).1 == 50)%Q
  /\ (cpu_percent (Some demo_cpu_vals) demo_last_cpu).2 = Some (800, 1000).
Proof.
  destruct (cpu_percent_bounded (Some demo_cpu_vals) demo_last_cpu)
    as (_ & _ & Hlast & _ & _ & Hval).
  split.
  - destruct (Hval demo_cpu_vals 750 900 eq_refl) as [_ H];
      [simpl; lia | reflexivity |].
    rewrite H; [reflexivity | vm_compute; split; discriminate | reflexivity].
  - apply (Hlast demo_cpu_vals eq_refl). simpl. lia.
Defined.
